(** * search_screenshot.js: the batched, retrying screenshot-capture pipeline

    A shallow embedding of [search_screenshot.js] (column resolution, query
    extraction, the filename builder, the per-query retry loop, the batch
    scheduler, session set-up and tear-down, compare mode) together with the
    properties its specification states about it.

    Conventions of the embedding.
    - A JavaScript string is a [string]: one [ascii] per UTF-16 code unit, for
      the code units U+0000..U+00FF.
    - A JavaScript number is an IEEE-754 binary64 value, [spec_float] with
      precision 53 and maximal exponent 1024.
    - What the program asks of the outside world (the clock, the file system,
      the CSV parser, the browser) is answered by an explicit environment
      record; what it does to the outside world is recorded as a trace of
      events. *)

From Stdlib Require Import String Ascii List ZArith NArith Bool Arith Lia.
From Stdlib Require Import DecimalString.
From Stdlib Require DecimalNat.
From Stdlib Require Import Floats.SpecFloat.
From Equations Require Import Equations.
From Equations.Prop Require Import Logic.
Import ListNotations.

Local Open Scope list_scope.
Local Open Scope string_scope.

(** ** JavaScript strings *)

Module JsString.

  (** The code unit of a character. *)
Definition code (c : ascii) : N := N_of_ascii c.

Definition in_range (lo hi : N) (c : ascii) : bool :=
    ((lo <=? code c) && (code c <=? hi))%N.

  (** [WhiteSpace] and [LineTerminator] of ECMAScript among U+0000..U+00FF:
      TAB, LF, VT, FF, CR, SP and NBSP.  These are what [trim] removes and what
      [Number] skips. *)
Definition is_whitespace (c : ascii) : bool :=
    in_range 9 13 c || (code c =? 32)%N || (code c =? 160)%N.

Fixpoint trimStart (s : string) : string :=
    match s with
    | EmptyString => EmptyString
    | String c s' => if is_whitespace c then trimStart s' else s
    end.

Fixpoint trimEnd (s : string) : string :=
    match s with
    | EmptyString => EmptyString
    | String c s' =>
        match trimEnd s' with
        | EmptyString => if is_whitespace c then EmptyString else String c EmptyString
        | t => String c t
        end
    end.

  (** [String.prototype.trim]. *)
Definition trim (s : string) : string := trimEnd (trimStart s).

Fixpoint map (f : ascii -> ascii) (s : string) : string :=
    match s with
    | EmptyString => EmptyString
    | String c s' => String (f c) (map f s')
    end.

  (** [String.prototype.toLowerCase] on U+0000..U+00FF: A-Z and the Latin-1
      capitals U+00C0..U+00DE (U+00D7, the multiplication sign, excepted) move
      up by 32. *)
Definition lower_char (c : ascii) : ascii :=
    if in_range 65 90 c || (in_range 192 222 c && negb (code c =? 215)%N)
    then ascii_of_N (code c + 32) else c.

Definition toLowerCase (s : string) : string := map lower_char s.

  (** [String.prototype.includes]. *)
Fixpoint includes (s sub : string) : bool :=
    prefix sub s ||
    match s with
    | EmptyString => false
    | String _ s' => includes s' sub
    end.

  (** [s.slice(b, e)] for 0 <= b <= e. *)
Definition slice (s : string) (b e : nat) : string := substring b (e - b) s.

Fixpoint repeat (c : ascii) (n : nat) : string :=
    match n with
    | O => EmptyString
    | S n' => String c (repeat c n')
    end.

  (** [s.padStart(targetLength, fill)] for a one-character fill string. *)
Definition padStart (s : string) (targetLength : nat) (fill : ascii) : string :=
    repeat fill (targetLength - String.length s) ++ s.

  (** [String(n)] for a non-negative integer. *)
Definition of_nat (n : nat) : string := NilEmpty.string_of_uint (Nat.to_uint n).

Fixpoint forallb (p : ascii -> bool) (s : string) : bool :=
    match s with
    | EmptyString => true
    | String c s' => p c && forallb p s'
    end.

Definition starts_with_space (s : string) : bool :=
    match s with
    | String c _ => is_whitespace c
    | EmptyString => false
    end.

Fixpoint ends_with_space (s : string) : bool :=
    match s with
    | EmptyString => false
    | String c EmptyString => is_whitespace c
    | String _ s' => ends_with_space s'
    end.

End JsString.

(** ** The filename builder (processQuery, first three statements) *)

(** The character class [[a-z0-9 _]] under the flags [gi]: ASCII letters of
    both cases, digits, the space and the underscore. *)
Definition is_safe_char (c : ascii) : bool :=
  JsString.in_range 97 122 c || JsString.in_range 65 90 c ||
  JsString.in_range 48 57 c ||
  (JsString.code c =? 32)%N || (JsString.code c =? 95)%N.

Definition sanitize_char (c : ascii) : ascii :=
  if is_safe_char c then c else "_"%char.

(** [query.replace(/[^a-z0-9 _]/gi, '_')] *)
Definition sanitize (query : string) : string := JsString.map sanitize_char query.

(** [query.replace(/[^a-z0-9 _]/gi, '_').slice(0, 40).trim()] *)
Definition safeQuery (query : string) : string :=
  JsString.trim (JsString.slice (sanitize query) 0 40).

(** [`${String(index + 1).padStart(3, '0')}_${engine}_${deviceName}_${safeQuery}.jpg`] *)
Definition filename (index : nat) (engine deviceName query : string) : string :=
  JsString.padStart (JsString.of_nat (index + 1)) 3 "0"%char
    ++ "_" ++ engine ++ "_" ++ deviceName ++ "_" ++ safeQuery query ++ ".jpg".

(** ** JavaScript numbers *)

Module JsNumber.

  (** binary64 *)
Definition prec : Z := 53.
Definition emax : Z := 1024.

Definition t : Type := spec_float.

Definition NaN : t := S754_nan.

  (** The number of an integer, rounded to nearest even. *)
Definition of_Z (z : Z) : t := binary_normalize prec emax z 0 false.
Definition of_nat (n : nat) : t := of_Z (Z.of_nat n).

  (** The number nearest to [m * 10 ^ e10], with the sign [neg]. *)
Definition of_decimal (neg : bool) (m : N) (e10 : Z) : t :=
    match m with
    | N0 => S754_zero neg
    | Npos p =>
        match e10 with
        | Zneg k =>
            SFdiv prec emax (S754_finite neg p 0)
                  (S754_finite false (Pos.pow 10 k) 0)
        | _ => binary_round prec emax neg (p * Z.to_pos (10 ^ e10)) 0
        end
    end.

  (** The global [isNaN] on a number. *)
Definition isNaN (x : t) : bool :=
    match x with
    | S754_nan => true
    | _ => false
    end.

Definition mul (x y : t) : t := SFmul prec emax x y.

  (** The integer a number stands for when it is used as a property key of an
      array: [ToString] of the number is a canonical array index exactly when
      the number is a non-negative integer (minus zero prints as "0"). *)
Definition to_index (x : t) : option Z :=
    match x with
    | S754_zero _ => Some 0%Z
    | S754_finite false m e =>
        match e with
        | Zneg k =>
            if (Zpos m mod 2 ^ Zpos k =? 0)%Z
            then Some (Zpos m / 2 ^ Zpos k)%Z else None
        | _ => Some (Zpos m * 2 ^ e)%Z
        end
    | _ => None
    end.

  (** ** [Number(string)]: the StringNumericLiteral grammar *)

Definition is_digit (c : ascii) : bool := JsString.in_range 48 57 c.

Definition digit_value (c : ascii) : N := (JsString.code c - 48)%N.

  (** The value of a hexadecimal, octal or binary digit, if it is one of the
      given radix. *)
Definition radix_digit (radix : N) (c : ascii) : option N :=
    let v :=
      if is_digit c then Some (digit_value c)
      else if JsString.in_range 97 102 c then Some (JsString.code c - 87)%N
      else if JsString.in_range 65 70 c then Some (JsString.code c - 55)%N
      else None in
    match v with
    | Some d => if (d <? radix)%N then Some d else None
    | None => None
    end.

  (** The longest prefix of decimal digits, and what follows it. *)
Fixpoint span_digits (s : string) : string * string :=
    match s with
    | String c s' =>
        if is_digit c
        then let '(d, r) := span_digits s' in (String c d, r)
        else (EmptyString, s)
    | EmptyString => (EmptyString, EmptyString)
    end.

  (** The value of a string of decimal digits, after the digits [acc]. *)
Fixpoint digits_value (acc : N) (s : string) : N :=
    match s with
    | String c s' => digits_value (acc * 10 + digit_value c)%N s'
    | EmptyString => acc
    end.

  (** The value of a non-empty string of digits of the radix. *)
Fixpoint radix_value (radix : N) (acc : N) (s : string) : option N :=
    match s with
    | String c s' =>
        match radix_digit radix c with
        | Some d => radix_value radix (acc * radix + d)%N s'
        | None => None
        end
    | EmptyString => Some acc
    end.

  (** DecimalDigits, all of the string. *)
Definition all_digits (s : string) : option N :=
    match span_digits s with
    | (String c d, EmptyString) => Some (digits_value 0 (String c d))
    | _ => None
    end.

  (** ExponentPart (optional), all of the string. *)
Definition exponent_part (s : string) : option Z :=
    match s with
    | EmptyString => Some 0%Z
    | String c s' =>
        if ((JsString.code c =? 101) || (JsString.code c =? 69))%N then
          match s' with
          | String "+" d => option_map Z.of_N (all_digits d)
          | String "-" d => option_map (fun n => (- Z.of_N n)%Z) (all_digits d)
          | _ => option_map Z.of_N (all_digits s')
          end
        else None
    end.

  (** StrUnsignedDecimalLiteral, with the sign read before it. *)
Definition unsigned_decimal (neg : bool) (s : string) : t :=
    if (s =? "Infinity")%string then S754_infinity neg
    else
      let '(ip, r1) := span_digits s in
      match r1 with
      | String "." r2 =>
          let '(fp, r3) := span_digits r2 in
          match ip, fp with
          | EmptyString, EmptyString => NaN
          | _, _ =>
              match exponent_part r3 with
              | Some e =>
                  of_decimal neg (digits_value 0 (ip ++ fp))
                             (e - Z.of_nat (String.length fp))
              | None => NaN
              end
          end
      | _ =>
          match ip with
          | EmptyString => NaN
          | _ =>
              match exponent_part r1 with
              | Some e => of_decimal neg (digits_value 0 ip) e
              | None => NaN
              end
          end
      end.

  (** NonDecimalIntegerLiteral: 0x, 0o, 0b in either case, then digits. *)
Definition non_decimal (s : string) : option t :=
    match s with
    | String "0" (String p (String c d)) =>
        let radix :=
          match p with
          | "x" | "X" => Some 16%N
          | "o" | "O" => Some 8%N
          | "b" | "B" => Some 2%N
          | _ => None
          end%char in
        match radix with
        | Some r =>
            match radix_value r 0 (String c d) with
            | Some n => Some (of_Z (Z.of_N n))
            | None => Some NaN
            end
        | None => None
        end
    | _ => None
    end.

  (** [Number(s)] for a string [s] (StringToNumber): white space is trimmed, the
      empty string is +0, anything outside the grammar is NaN. *)
Definition Number (s : string) : t :=
    match JsString.trim s with
    | EmptyString => S754_zero false
    | lit =>
        match non_decimal lit with
        | Some x => x
        | None =>
            match lit with
            | String "+" u => unsigned_decimal false u
            | String "-" u => unsigned_decimal true u
            | _ => unsigned_decimal false lit
            end
        end
    end.

End JsNumber.

(** ** JavaScript arrays *)

Module JsArray.

  (** [arr[k]] for a number [k]: an array has an element at a number key only
      when the number is a non-negative integer below its length; any other key
      reads as [undefined], here [None]. *)
Definition get {A : Type} (arr : list A) (k : JsNumber.t) : option A :=
    match JsNumber.to_index k with
    | Some z =>
        if (z <? Z.of_nat (length arr))%Z then nth_error arr (Z.to_nat z) else None
    | None => None
    end.

Fixpoint findIndex_from {A : Type} (p : A -> bool) (arr : list A) (i : Z) : Z :=
    match arr with
    | [] => (-1)%Z
    | x :: rest => if p x then i else findIndex_from p rest (i + 1)%Z
    end.

  (** [arr.findIndex(p)]: the first index whose element satisfies [p], or -1. *)
Definition findIndex {A : Type} (p : A -> bool) (arr : list A) : Z :=
    findIndex_from p arr 0%Z.

  (** [arr.slice(b, e)] for 0 <= b <= e. *)
Definition slice {A : Type} (arr : list A) (b e : nat) : list A :=
    firstn (e - b) (skipn b arr).

Fixpoint map_from {A B : Type} (f : A -> nat -> B) (arr : list A) (i : nat) : list B :=
    match arr with
    | [] => []
    | x :: rest => f x i :: map_from f rest (S i)
    end.

  (** [arr.map((x, i) => f(x, i))] *)
Definition map {A B : Type} (f : A -> nat -> B) (arr : list A) : list B :=
    map_from f arr 0.

End JsArray.

(** ** Reading the CSV (generateSearchScreenshots, lines 73-149) *)

(** A row object as csv-parser delivers it: its own enumerable properties in
    property order, every value a string. *)
Definition Row : Type := list (string * string).

(** [Object.values(row)] *)
Definition Object_values (row : Row) : list string := List.map snd row.

(** Truthiness of a string: every string but the empty one. *)
Definition truthy (s : string) : bool := negb (s =? "").

(** The handler of the ['headers'] event: the value [queryColIndex] has when
    the handler returns.  [column] is [None] when the option is absent
    ([undefined]). *)
Definition resolve_queryColIndex (hdrs : list string) (column : option string)
  : JsNumber.t :=
  let queryColIndex := JsNumber.of_Z 0 in
  match column with
  | Some (String c0 crest as column) =>
      let idx := JsNumber.Number column in
      if negb (JsNumber.isNaN idx) then idx
      else
        let exactMatch :=
          JsArray.findIndex
            (fun h => JsString.toLowerCase h =? JsString.toLowerCase column) hdrs in
        if (exactMatch >=? 0)%Z then JsNumber.of_Z exactMatch
        else
          let partialMatch :=
            JsArray.findIndex
              (fun h => JsString.includes (JsString.toLowerCase h)
                                          (JsString.toLowerCase column)) hdrs in
          if (partialMatch >=? 0)%Z then JsNumber.of_Z partialMatch
          else queryColIndex
  | _ =>
      let queryColMatch :=
        JsArray.findIndex (fun h => JsString.toLowerCase h =? "query") hdrs in
      if (queryColMatch >=? 0)%Z then JsNumber.of_Z queryColMatch
      else queryColIndex
  end.

(** The body of the [for await] loop of the second pass: what [queries] is
    after the row. *)
Definition collect_row (queryColIndex : JsNumber.t) (queries : list string) (row : Row)
  : list string :=
  let cols := Object_values row in
  match JsArray.get cols queryColIndex with
  | Some query =>
      if truthy (JsString.trim query) then queries ++ [JsString.trim query]
      else queries
  | None => queries
  end%list.

(** The second pass over all rows, from [queries = []]. *)
Definition collect_queries (queryColIndex : JsNumber.t) (rows : list Row) : list string :=
  fold_left (collect_row queryColIndex) rows [].

(** Both passes. *)
Definition extract_queries (hdrs : list string) (column : option string)
           (rows : list Row) : list string :=
  collect_queries (resolve_queryColIndex hdrs column) rows.

(** ** The run directory (generateSearchScreenshots, lines 63-68) *)

Fixpoint replace_first (a b : ascii) (s : string) : string :=
  match s with
  | EmptyString => EmptyString
  | String c s' => if (c =? a)%char then String b s' else String c (replace_first a b s')
  end.

Fixpoint remove_all (a : ascii) (s : string) : string :=
  match s with
  | EmptyString => EmptyString
  | String c s' => if (c =? a)%char then remove_all a s' else String c (remove_all a s')
  end.

(** The characters the pattern [.] does not match, among U+0000..U+00FF. *)
Definition is_line_terminator (c : ascii) : bool :=
  (JsString.code c =? 10)%N || (JsString.code c =? 13)%N.

Fixpoint drop_line (s : string) : string :=
  match s with
  | EmptyString => EmptyString
  | String c s' => if is_line_terminator c then s else drop_line s'
  end.

(** [s.replace(/\..+/, '')]: the first full stop that has a character of its
    line after it is removed together with the rest of that line. *)
Fixpoint remove_dot_tail (s : string) : string :=
  match s with
  | EmptyString => EmptyString
  | String c s' =>
      if (c =? ".")%char then
        match s' with
        | String d _ =>
            if is_line_terminator d then String c (remove_dot_tail s')
            else drop_line s'
        | EmptyString => String c EmptyString
        end
      else String c (remove_dot_tail s')
  end.

(** [now.toISOString().replace(/T/, '-').replace(/:/g, '').replace(/\..+/, '')] *)
Definition timestamp_of (iso : string) : string :=
  remove_dot_tail (remove_all ":" (replace_first "T" "-" iso)).

(** [`${timestamp}--${engine}`] *)
Definition runDir_of (iso engine : string) : string :=
  timestamp_of iso ++ "--" ++ engine.

(** ** The outside world *)

(** The awaited browser calls of one attempt of processQuery. *)
Inductive PageOp : Type :=
| NewPageOp        (* context.newPage() *)
| GotoOp           (* page.goto(url) *)
| JitterWaitOp     (* page.waitForTimeout(randomWait) *)
| LoadStateOp      (* page.waitForLoadState('networkidle') *)
| EvaluateOp       (* page.evaluate(...) *)
| CaptchaWaitOp    (* page.waitForTimeout(30000) *)
| DelayWaitOp      (* page.waitForTimeout(delay * 1000) *)
| ScreenshotOp     (* page.screenshot(...) *)
| PageCloseOp.     (* page.close() *)

(** The calls of generateSearchScreenshots that can fail. *)
Inductive RunOp : Type :=
| MkdirOutputOp         (* fs.mkdirSync(outputDir) *)
| ReadHeadersOp         (* first pass over the CSV file *)
| ReadRowsOp            (* second pass over the CSV file *)
| MkdirProfileOp        (* fs.mkdirSync(tempUserDataDir) *)
| LaunchPersistentOp    (* chromium.launchPersistentContext(...) *)
| LaunchOp              (* chromium.launch({ headless: true }) *)
| NewContextOp          (* browser.newContext(...) *)
| ContextCloseOp        (* context.close() *)
| BrowserCloseOp.       (* browser.close() *)

(** A thrown value: the call that failed. *)
Inductive Error : Type :=
| PageError (op : PageOp)
| RunError (op : RunOp).

(** How the browser answers one attempt: which calls reject, what the CAPTCHA
    probe returns, the random part of the jitter
    ([Math.floor(500 + Math.random() * 1000) - 500]) and the width of
    [page.viewportSize()], if there is one. *)
Record PageEnv : Type := {
  page_throws : PageOp -> bool;
  hasCaptcha : bool;
  jitter : Z;
  viewportWidth : option Z
}.

(** What the program does, in order.  The progress lines of [console.log] are
    left out; [console.warn] and [console.error] are events. *)
Inductive Event : Type :=
| EMkdir (dir : string)
| EReadCsv (csvFile : string)
| ELaunchPersistentContext (userDataDir : string) (mobile : bool)
| ELaunch
| ENewContext (mobile : bool)
| EContextClose
| EBrowserClose
| ECall (index : nat) (query : string)       (* processQuery(query, index, ...) *)
| ESettle (index : nat) (fulfilled : bool)   (* the promise of that call settles *)
| ENewPage (index : nat)
| EGoto (index : nat) (url : string)
| EWaitForTimeout (index : nat) (ms : JsNumber.t)
| EWaitForLoadState (index : nat)
| EEvaluate (index : nat)
| EScreenshot (index : nat) (path : string) (quality : JsNumber.t) (width : Z)
| ESaved (index : nat) (path : string)       (* the screenshot call returned *)
| EPageClose (index : nat)
| ESetTimeout (index : nat) (ms : Z)         (* the backoff before a retry *)
| EWarnCaptcha (index : nat)                 (* console.warn: CAPTCHA detected *)
| EWarnRetry (index : nat) (retries : nat)   (* console.warn: Attempt n/2 failed *)
| EErrorFailed (index : nat) (err : Error).  (* console.error: Failed to process *)

(** ** Completions, and the monad of processQuery *)

(** How a statement completes: normally with a value, by [continue], or by a
    thrown value. *)
Inductive Completion (A : Type) : Type :=
| Normal (a : A)
| Continue
| Throw (err : Error).
Arguments Normal {A} a.
Arguments Continue {A}.
Arguments Throw {A} err.

(** The local variables of processQuery that change, and the trace so far. *)
Record PQState : Type := {
  retries : nat;
  success : bool;
  trace : list Event
}.

(** A computation over a state [St] that completes with an [A]. *)
Definition M (St A : Type) : Type := St -> Completion A * St.

Definition ret {St A : Type} (a : A) : M St A := fun s => (Normal a, s).

Definition bind {St A B : Type} (m : M St A) (k : A -> M St B) : M St B :=
  fun s =>
    match m s with
    | (Normal a, s') => k a s'
    | (Continue, s') => (Continue, s')
    | (Throw err, s') => (Throw err, s')
    end.

Definition continue_ {St A : Type} : M St A := fun s => (Continue, s).

Definition throw {St A : Type} (err : Error) : M St A := fun s => (Throw err, s).

Declare Scope js_scope.
Delimit Scope js_scope with js.
Notation "x <- m ;; k" := (bind m (fun x => k))
  (at level 61, m at next level, right associativity) : js_scope.
Notation "m ;; k" := (bind m (fun _ => k))
  (at level 61, right associativity) : js_scope.

(** [try { body } catch (err) { handler } finally { fin }]: the handler runs
    on a throw of the body, the finaliser runs always, and an abrupt completion
    of the finaliser replaces the completion reached before it. *)
Definition try_catch_finally {St A : Type} (body : M St A) (handler : Error -> M St A)
           (fin : M St unit) : M St A :=
  fun s =>
    let '(c1, s1) :=
      match body s with
      | (Throw err, s') => handler err s'
      | r => r
      end in
    match fin s1 with
    | (Normal _, s2) => (c1, s2)
    | (Continue, s2) => (Continue, s2)
    | (Throw err, s2) => (Throw err, s2)
    end.

(** The monad of processQuery. *)
Definition PQ (A : Type) : Type := M PQState A.

Definition emit (e : Event) : PQ unit :=
  fun s => (Normal tt,
            {| retries := retries s; success := success s; trace := trace s ++ [e] |}%list).

(** [retries++] *)
Definition incr_retries : PQ unit :=
  fun s => (Normal tt,
            {| retries := S (retries s); success := success s; trace := trace s |}).

(** [success = true] *)
Definition set_success : PQ unit :=
  fun s => (Normal tt,
            {| retries := retries s; success := true; trace := trace s |}).

Definition get_retries : PQ nat := fun s => (Normal (retries s), s).

(** An awaited browser call: the call is made, then it returns or rejects. *)
Definition await (env : PageEnv) (op : PageOp) (e : Event) : PQ unit :=
  (emit e ;;
   if page_throws env op then throw (PageError op) else ret tt)%js.

(** [encodeURIComponent] on U+0000..U+00FF: the unreserved characters stay,
    every other code unit becomes the percent-escapes of its UTF-8 bytes. *)
Definition is_unreserved (c : ascii) : bool :=
  JsString.in_range 97 122 c || JsString.in_range 65 90 c ||
  JsString.in_range 48 57 c ||
  existsb (fun u => (JsString.code c =? u)%N) [45; 95; 46; 33; 126; 42; 39; 40; 41]%N.

Definition hex_digit (n : N) : ascii :=
  if (n <? 10)%N then ascii_of_N (48 + n) else ascii_of_N (55 + n).

Definition percent_byte (b : N) : string :=
  String "%" (String (hex_digit (b / 16)) (String (hex_digit (b mod 16)) EmptyString)).

Definition encode_char (c : ascii) : string :=
  if is_unreserved c then String c EmptyString
  else if (JsString.code c <? 128)%N then percent_byte (JsString.code c)
  else percent_byte (192 + JsString.code c / 64)
         ++ percent_byte (128 + JsString.code c mod 64).

Fixpoint encodeURIComponent (s : string) : string :=
  match s with
  | EmptyString => EmptyString
  | String c s' => encode_char c ++ encodeURIComponent s'
  end.

(** The [switch (engine)] of processQuery. *)
Definition url_of (engine query : string) : string :=
  if engine =? "bing" then "https://www.bing.com/search?q=" ++ encodeURIComponent query
  else if engine =? "duckduckgo" then "https://duckduckgo.com/?q=" ++ encodeURIComponent query
  else if engine =? "yahoo" then "https://search.yahoo.com/search?p=" ++ encodeURIComponent query
  else if engine =? "google" then "https://www.google.com/search?q=" ++ encodeURIComponent query
  else "https://search.yahoo.com/search?p=" ++ encodeURIComponent query.

Definition maxRetries : nat := 2.

(** What is left of the retry budget: the measure of the attempt loop. *)
Definition budget (s : PQState) : nat :=
  if success s then 0 else S maxRetries - retries s.

(** [retries <= maxRetries && !success] *)
Definition loop_guard (s : PQState) : bool :=
  (retries s <=? maxRetries)%nat && negb (success s).

(** The parsed command line. *)
Record Args : Type := {
  csvFile : string;
  output : string;
  column : option string;
  engine : string;
  delay : JsNumber.t;
  mode : string;
  useChrome : bool;
  compareMode : bool;
  quality : JsNumber.t
}.

(** How the world answers one run of generateSearchScreenshots: the clock, the
    working directory, which calls fail, what csv-parser delivers in the two
    passes, and the browser's answers to the attempts of each query. *)
Record RunEnv : Type := {
  now_iso : string;                     (* new Date().toISOString() *)
  cwd : string;                         (* process.cwd() *)
  run_throws : RunOp -> bool;
  csv_headers : list string;            (* the payload of 'headers' *)
  csv_rows : list Row;                  (* the rows of the second pass *)
  pages_of : nat -> nat -> PageEnv      (* query index, then attempt *)
}.

(** The trace of a run: single steps, and the batches, whose calls run
    concurrently; a batch holds the trace of each of its calls.  When a call
    of a batch rejects, [Promise.all] rejects at once and
    generateSearchScreenshots throws; nothing in the script catches that, so
    the other calls of the batch get no further than where they are when the
    process ends.  The batch holds their traces in full: of the trace of such
    a call only a part has happened. *)
Inductive Item : Type :=
| Step (e : Event)
| Concurrent (tasks : list (list Event)).

(** The monad of generateSearchScreenshots and runCompareMode. *)
Definition Run (A : Type) : Type := M (list Item) A.

(** [mode === 'mobile' ? 'mobile' : 'desktop'] *)
Definition deviceName_of (mode : string) : string :=
  if mode =? "mobile" then "mobile" else "desktop".

(** [useChrome && engine === 'google']: whether the session is the visible
    Chrome with the persistent profile; otherwise it is headless. *)
Definition shouldUseChrome (a : Args) : bool :=
  useChrome a && (engine a =? "google").

(** ** processQuery *)

Section Pipeline.

  (** [path.join] of Node, for two segments. *)
Variable path_join : string -> string -> string.

Section ProcessQuery.

Variables (query : string) (index : nat) (engine deviceName output : string)
              (delay : JsNumber.t) (useChrome : bool) (quality : JsNumber.t).

Definition filepath : string := path_join output (filename index engine deviceName query).

    (** The [width] of the clip rectangle. *)
Definition clip_width (env : PageEnv) : Z :=
      if deviceName =? "mobile" then
        match viewportWidth env with
        | Some w => if (w =? 0)%Z then 390%Z else w
        | None => 390%Z
        end
      else 1920%Z.

    (** The [try] block of one attempt. *)
Definition try_block (env : PageEnv) : PQ unit :=
      (let url := url_of engine query in
       await env GotoOp (EGoto index url) ;;
       let randomWait := (500 + jitter env)%Z in
       await env JitterWaitOp (EWaitForTimeout index (JsNumber.of_Z randomWait)) ;;
       await env LoadStateOp (EWaitForLoadState index) ;;
       await env EvaluateOp (EEvaluate index) ;;
       (if hasCaptcha env then
          if useChrome then
            await env CaptchaWaitOp (EWaitForTimeout index (JsNumber.of_Z 30000))
          else
            (emit (EWarnCaptcha index) ;;
             incr_retries ;;
             continue_)
        else ret tt) ;;
       await env DelayWaitOp
             (EWaitForTimeout index (JsNumber.mul delay (JsNumber.of_Z 1000))) ;;
       await env ScreenshotOp (EScreenshot index filepath quality (clip_width env)) ;;
       emit (ESaved index filepath) ;;
       set_success)%js.

    (** The events of the [try] block of an attempt, on their own. *)
Definition try_events (env : PageEnv) : list Event :=
      trace (snd (try_block env {| retries := 0; success := false; trace := [] |})).

    (** The [catch] block. *)
Definition catch_block (err : Error) : PQ unit :=
      (incr_retries ;;
       r <- get_retries ;;
       if (r <=? maxRetries)%nat then
         (emit (EWarnRetry index r) ;;
          emit (ESetTimeout index 1000))
       else emit (EErrorFailed index err))%js.

    (** The [finally] block. *)
Definition finally_block (env : PageEnv) : PQ unit :=
      await env PageCloseOp (EPageClose index).

    (** The body of the [while] loop: a page is opened, then the
        [try]/[catch]/[finally] statement runs. *)
Definition attempt (env : PageEnv) : PQ unit :=
      (await env NewPageOp (ENewPage index) ;;
       try_catch_finally (try_block env) catch_block (finally_block env))%js.

    (** [while (retries <= maxRetries && !success) { ... }]; the k-th page that
        is opened behaves as [pages k]. *)
Equations? attempt_loop (pages : nat -> PageEnv) (s : PQState)
      : Completion unit * PQState by wf (budget s) lt :=
      attempt_loop pages s with inspect (loop_guard s) := {
        | exist _ false _ := (Normal tt, s);
        | exist _ true Hguard with inspect (attempt (pages 0) s) := {
            | exist _ (Throw err, s') _ := (Throw err, s');
            | exist _ (Normal _, s') Hbody := attempt_loop (fun k => pages (S k)) s';
            | exist _ (Continue, s') Hbody := attempt_loop (fun k => pages (S k)) s' } }.
Proof.
      all: destruct s as [r b t];
        cbv beta iota delta [loop_guard retries success] in Hguard;
        apply andb_prop in Hguard; destruct Hguard as [Hle Hns];
        apply Nat.leb_le in Hle; apply negb_true_iff in Hns; subst b;
        cbv beta iota zeta delta
          [attempt try_catch_finally try_block catch_block finally_block await
           bind emit ret throw incr_retries set_success get_retries continue_
           retries success trace] in Hbody;
        repeat match type of Hbody with
          | context [if ?c then _ else _] => destruct c eqn:?; cbv beta iota in Hbody
          end;
        inversion Hbody; subst;
        cbv beta iota delta [budget retries success]; unfold maxRetries in *; lia.
Qed.

    (** processQuery: its completion and its trace, from the call to the
        settlement of its promise. *)
Definition processQuery (pages : nat -> PageEnv) : Completion unit * list Event :=
      let s0 := {| retries := 0; success := false; trace := [ECall index query] |} in
      match attempt_loop pages s0 with
      | (Throw err, s) => (Throw err, trace s ++ [ESettle index false])
      | (_, s) => (Normal tt, trace s ++ [ESettle index true])
      end%list.

End ProcessQuery.

  (** ** generateSearchScreenshots *)

  (** [Promise.all] over settled completions: fulfilled when all are, rejected
      with a rejection of the batch otherwise (the first in batch order here;
      in the program, the first in time). *)
Fixpoint Promise_all (results : list (Completion unit)) : Completion unit :=
    match results with
    | [] => Normal tt
    | Throw err :: _ => Throw err
    | _ :: rest => Promise_all rest
    end.

  (** An awaited or synchronous call of the run that can fail. *)
Definition run_await (env : RunEnv) (op : RunOp) (e : Event) : Run unit :=
    fun tr =>
      let tr' := (tr ++ [Step e])%list in
      if run_throws env op then (Throw (RunError op), tr') else (Normal tt, tr').

Section Batches.

Variables (env : RunEnv) (queries : list string) (engine deviceName outputDir : string)
              (delay : JsNumber.t) (useChrome : bool) (quality : JsNumber.t).

Definition batchSize : nat := if useChrome then 1 else 3.

    (** [batch.map((query, batchIndex) => processQuery(query, i + batchIndex, ...))]
        for the batch that starts at [i]: every call with its completion and
        its trace. *)
Definition batchPromises (i : nat) : list (Completion unit * list Event) :=
      let batch := JsArray.slice queries i (i + batchSize) in
      JsArray.map
        (fun query batchIndex =>
           processQuery query (i + batchIndex) engine deviceName outputDir delay
                        useChrome quality (pages_of env (i + batchIndex)))
        batch.

    (** The call of processQuery for a query with its sequence index. *)
Definition call_task (p : nat * string) : Completion unit * list Event :=
      processQuery (snd p) (fst p) engine deviceName outputDir delay useChrome quality
                   (pages_of env (fst p)).

    (** The [m]-th batch of the loop that starts at [i], as an item of the
        trace. *)
Definition nth_batch (i m : nat) : Item :=
      Concurrent (List.map snd (batchPromises (i + m * batchSize))).

    (** [for (let i = 0; i < queries.length; i += batchSize) { ... }], from [i]. *)
Equations? process_batches (i : nat) (tr : list Item)
      : Completion unit * list Item by wf (length queries - i) lt :=
      process_batches i tr with inspect (i <? length queries)%nat := {
        | exist _ false _ := (Normal tt, tr);
        | exist _ true Hlt
            with Promise_all (List.map fst (batchPromises i)) := {
            | Throw err :=
                (Throw err, (tr ++ [Concurrent (List.map snd (batchPromises i))])%list);
            | _ :=
                process_batches (i + batchSize)
                  (tr ++ [Concurrent (List.map snd (batchPromises i))])%list } }.
Proof.
      all: apply Nat.ltb_lt in Hlt; unfold batchSize; destruct useChrome; lia.
Qed.

End Batches.

  (** [path.join(output, runDir)] *)
Definition outputDir_of (env : RunEnv) (a : Args) : string :=
    path_join (output a) (runDir_of (now_iso env) (engine a)).

  (** [path.join(process.cwd(), 'chrome-data-dir')] *)
Definition tempUserDataDir_of (env : RunEnv) : string :=
    path_join (cwd env) "chrome-data-dir".

  (** The acquisition of the browser and its context (lines 151-199). *)
Definition acquire_context (env : RunEnv) (a : Args) : Run unit :=
    (if shouldUseChrome a then
       run_await env MkdirProfileOp (EMkdir (tempUserDataDir_of env)) ;;
       run_await env LaunchPersistentOp
                 (ELaunchPersistentContext (tempUserDataDir_of env) (mode a =? "mobile"))
     else
       run_await env LaunchOp ELaunch ;;
       run_await env NewContextOp (ENewContext (mode a =? "mobile")))%js.

  (** The closing statements (lines 208-211). *)
Definition teardown (env : RunEnv) (a : Args) : Run unit :=
    (run_await env ContextCloseOp EContextClose ;;
     if negb (useChrome a) then run_await env BrowserCloseOp EBrowserClose
     else ret tt)%js.

  (** generateSearchScreenshots.  The promise of the first pass settles when
      csv-parser emits ['headers'], which it does for a file with a header line
      ([csv_headers] is then not empty), or an error of its own.  A file
      without any line gives no ['headers'] and leaves the promise pending, and
      an error of the read stream has no listener: runs on such files have no
      counterpart here. *)
Definition generateSearchScreenshots (env : RunEnv) (a : Args) : Run unit :=
    (let outputDir := outputDir_of env a in
     run_await env MkdirOutputOp (EMkdir outputDir) ;;
     run_await env ReadHeadersOp (EReadCsv (csvFile a)) ;;
     let queryColIndex := resolve_queryColIndex (csv_headers env) (column a) in
     run_await env ReadRowsOp (EReadCsv (csvFile a)) ;;
     let queries := collect_queries queryColIndex (csv_rows env) in
     let deviceName := deviceName_of (mode a) in
     acquire_context env a ;;
     process_batches env queries (engine a) deviceName outputDir (delay a)
                     (useChrome a) (quality a) 0 ;;
     teardown env a)%js.

  (** ** runCompareMode *)

Definition with_engine (a : Args) (e : string) (chrome : bool) : Args :=
    {| csvFile := csvFile a; output := output a; column := column a;
       engine := e; delay := delay a; mode := mode a; useChrome := chrome;
       compareMode := compareMode a; quality := quality a |}.

Definition yahooArgs (args : Args) : Args := with_engine args "yahoo" false.

Definition compareEngine (args : Args) : string :=
    if engine args =? "yahoo" then "google" else engine args.

Definition compareArgs (args : Args) : Args :=
    with_engine args (compareEngine args)
                (if compareEngine args =? "google" then useChrome args else false).

  (** The first pass runs in the world [env1], the second in [env2]. *)
Definition runCompareMode (env1 env2 : RunEnv) (args : Args) : Run unit :=
    (generateSearchScreenshots env1 (yahooArgs args) ;;
     generateSearchScreenshots env2 (compareArgs args))%js.

  (** The body of the script: what runs for the parsed arguments, from the
      empty trace. *)
Definition main (env1 env2 : RunEnv) (args : Args) : Completion unit * list Item :=
    if compareMode args then runCompareMode env1 env2 args []
    else generateSearchScreenshots env1 args [].

End Pipeline.

(** ** Observations on traces *)

(** The attempts of a trace: the calls of [context.newPage()], one for every
    pass through the loop of processQuery. *)
Definition is_newPage (e : Event) : bool :=
  match e with
  | ENewPage _ => true
  | _ => false
  end.

Definition attempts (tr : list Event) : nat := length (filter is_newPage tr).

(** The calls of processQuery in a trace, as (index, query). *)
Definition call_of (e : Event) : list (nat * string) :=
  match e with
  | ECall i q => [(i, q)]
  | _ => []
  end.

Definition calls (tr : list Event) : list (nat * string) := flat_map call_of tr.

Definition is_settle_of (i : nat) (e : Event) : bool :=
  match e with
  | ESettle j _ => (j =? i)%nat
  | _ => false
  end.

(** Whether the promise of the call with index [i] has settled in the trace. *)
Definition settled (i : nat) (tr : list Event) : bool := existsb (is_settle_of i) tr.

(** The calls of processQuery in flight at the end of a trace: made, and not
    yet settled. *)
Definition in_flight (tr : list Event) : nat :=
  length (filter (fun c => negb (settled (fst c) tr)) (calls tr)).

(** The events of a run that belong to the processing of a request. *)
Definition is_request_event (e : Event) : bool :=
  match e with
  | EMkdir _ | EReadCsv _ | ELaunchPersistentContext _ _ | ELaunch
  | ENewContext _ | EContextClose | EBrowserClose => false
  | _ => true
  end.

(** The interleavings of the traces of concurrent calls: at every step, one of
    the calls that has events left performs its next event. *)
Inductive Interleaving : list (list Event) -> list Event -> Prop :=
| interleaving_done (tasks : list (list Event)) :
    Forall (fun t => t = []) tasks -> Interleaving tasks []
| interleaving_step (before : list (list Event)) (e : Event) (t : list Event)
                    (after : list (list Event)) (tr : list Event) :
    Interleaving (before ++ t :: after) tr ->
    Interleaving (before ++ (e :: t) :: after) (e :: tr).

(** The orders in which the events of a run can be observed: steps in program
    order, every batch as some interleaving of its calls, and a batch wholly
    before what follows it. *)
Inductive Linearises : list Item -> list Event -> Prop :=
| linearises_nil : Linearises [] []
| linearises_step (e : Event) (items : list Item) (tr : list Event) :
    Linearises items tr -> Linearises (Step e :: items) (e :: tr)
| linearises_batch (tasks : list (list Event)) (items : list Item)
                   (tr1 tr2 : list Event) :
    Interleaving tasks tr1 -> Linearises items tr2 ->
    Linearises (Concurrent tasks :: items) (tr1 ++ tr2).

(** The batches of a run. *)
Definition batch_of (it : Item) : list (list (list Event)) :=
  match it with
  | Concurrent tasks => [tasks]
  | Step _ => []
  end.

Definition batches (items : list Item) : list (list (list Event)) :=
  flat_map batch_of items.

(** The steps of a run outside its batches. *)
Definition step_of (it : Item) : list Event :=
  match it with
  | Step e => [e]
  | Concurrent _ => []
  end.

(** The program order of a run when the calls of a batch run one after the
    other. *)
Definition sequential (items : list Item) : list Event :=
  flat_map (fun it => match it with
                      | Step e => [e]
                      | Concurrent tasks => concat tasks
                      end) items.

(** ** Column resolution and extraction, as the specification words them *)

(** [i] is the first index of [arr] whose element satisfies [p]. *)
Definition first_index {A : Type} (p : A -> bool) (arr : list A) (i : nat) : Prop :=
  (exists x, nth_error arr i = Some x /\ p x = true) /\
  (forall j x, j < i -> nth_error arr j = Some x -> p x = false).

(** No element of [arr] satisfies [p]. *)
Definition no_index {A : Type} (p : A -> bool) (arr : list A) : Prop :=
  forall x, In x arr -> p x = false.

(** The header equals the selector, letter case aside. *)
Definition same_name (column h : string) : bool :=
  JsString.toLowerCase h =? JsString.toLowerCase column.

(** The header contains the selector, letter case aside. *)
Definition contains_name (column h : string) : bool :=
  JsString.includes (JsString.toLowerCase h) (JsString.toLowerCase column).

(** The precedence of column resolution: a selector that parses as a number is
    the index; otherwise the first header of the same name; otherwise the first
    header that contains the selector; otherwise column 0. *)
Inductive ColumnResolution (hdrs : list string) (column : string) : JsNumber.t -> Prop :=
| by_number :
    JsNumber.isNaN (JsNumber.Number column) = false ->
    ColumnResolution hdrs column (JsNumber.Number column)
| by_exact_name (i : nat) :
    JsNumber.isNaN (JsNumber.Number column) = true ->
    first_index (same_name column) hdrs i ->
    ColumnResolution hdrs column (JsNumber.of_nat i)
| by_partial_name (i : nat) :
    JsNumber.isNaN (JsNumber.Number column) = true ->
    no_index (same_name column) hdrs ->
    first_index (contains_name column) hdrs i ->
    ColumnResolution hdrs column (JsNumber.of_nat i)
| by_default :
    JsNumber.isNaN (JsNumber.Number column) = true ->
    no_index (same_name column) hdrs ->
    no_index (contains_name column) hdrs ->
    ColumnResolution hdrs column (JsNumber.of_nat 0).

(** What one row contributes to the queries: its selected cell, trimmed, when
    the cell exists and is not blank. *)
Definition row_queries (queryColIndex : JsNumber.t) (row : Row) : list string :=
  match JsArray.get (Object_values row) queryColIndex with
  | Some cell => if truthy (JsString.trim cell) then [JsString.trim cell] else []
  | None => []
  end.

(** A number below zero. *)
Definition is_negative (x : JsNumber.t) : bool :=
  match x with
  | S754_finite true _ _ | S754_infinity true => true
  | _ => false
  end.

(** A number that is at least the integer [n]: plus infinity, or a positive
    [m * 2 ^ e] with [n <= m * 2 ^ e]. *)
Definition at_least (x : JsNumber.t) (n : nat) : Prop :=
  match x with
  | S754_infinity false => True
  | S754_finite false m (Zneg k) => (Z.of_nat n * 2 ^ Zpos k <= Zpos m)%Z
  | S754_finite false m e => (Z.of_nat n <= Zpos m * 2 ^ e)%Z
  | S754_zero _ => n = 0
  | _ => False
  end.

(** The rows that have a cell in the selected column that is not blank. *)
Definition has_query (x : JsNumber.t) (row : Row) : bool :=
  match JsArray.get (Object_values row) x with
  | Some cell => truthy (JsString.trim cell)
  | None => false
  end.


(** The events of an attempt after its page was opened. *)
Definition is_attempt_event (e : Event) : bool :=
  match e with
  | EGoto _ _ | EWaitForTimeout _ _ | EWaitForLoadState _ | EEvaluate _
  | EScreenshot _ _ _ _ | ESaved _ _ | EPageClose _ | ESetTimeout _ _
  | EWarnCaptcha _ | EWarnRetry _ _ | EErrorFailed _ _ => true
  | _ => false
  end.

(** The page of the attempt opens and closes without an error. *)
Definition page_opens_and_closes (env : PageEnv) : bool :=
  negb (page_throws env NewPageOp) && negb (page_throws env PageCloseOp).

(** The events of the [try] block of an attempt. *)
Definition is_try_event (e : Event) : bool :=
  match e with
  | EGoto _ _ | EWaitForTimeout _ _ | EWaitForLoadState _ | EEvaluate _
  | EScreenshot _ _ _ _ | ESaved _ _ | EWarnCaptcha _ => true
  | _ => false
  end.

Definition is_warnRetry (e : Event) : bool :=
  match e with
  | EWarnRetry _ _ => true
  | _ => false
  end.

Definition is_errorFailed (e : Event) : bool :=
  match e with
  | EErrorFailed _ _ => true
  | _ => false
  end.

Definition is_setTimeout (e : Event) : bool :=
  match e with
  | ESetTimeout _ _ => true
  | _ => false
  end.

Definition is_screenshot (e : Event) : bool :=
  match e with
  | EScreenshot _ _ _ _ => true
  | _ => false
  end.

(** How often events of a kind occur in a trace. *)
Definition count (p : Event -> bool) (tr : list Event) : nat := length (filter p tr).

(** ** Worlds for the examples *)

(** [path.join] on two plain segments. *)
Definition posix_join (a b : string) : string := a ++ "/" ++ b.

(** A page on which everything works and no CAPTCHA shows. *)
Definition page_fine : PageEnv :=
  {| page_throws := fun _ => false; hasCaptcha := false; jitter := 250;
     viewportWidth := Some 390%Z |}.

(** A page that shows a CAPTCHA. *)
Definition page_with_captcha : PageEnv :=
  {| page_throws := fun _ => false; hasCaptcha := true; jitter := 250;
     viewportWidth := Some 390%Z |}.

(** A context that fails to open a page. *)
Definition page_failing_open : PageEnv :=
  {| page_throws := fun op => match op with NewPageOp => true | _ => false end;
     hasCaptcha := false; jitter := 250; viewportWidth := Some 390%Z |}.

(** A page whose navigation fails. *)
Definition page_failing_goto : PageEnv :=
  {| page_throws := fun op => match op with GotoOp => true | _ => false end;
     hasCaptcha := false; jitter := 250; viewportWidth := Some 390%Z |}.

(** The queries with their sequence indices. *)
Definition indexed (queries : list string) : list (nat * string) :=
  combine (seq 0 (length queries)) queries.

(** ** The parts of a run *)

Section RunParts.

Variable path_join : string -> string -> string.

  (** The calls that create the session, in program order, after the output
      directory is made and the CSV file is read twice. *)
Definition setup_ops (a : Args) : list RunOp :=
    [MkdirOutputOp; ReadHeadersOp; ReadRowsOp]
      ++ (if shouldUseChrome a then [MkdirProfileOp; LaunchPersistentOp]
          else [LaunchOp; NewContextOp]).

Definition setup_events (env : RunEnv) (a : Args) : list Event :=
    [EMkdir (outputDir_of path_join env a); EReadCsv (csvFile a); EReadCsv (csvFile a)]
      ++ (if shouldUseChrome a
          then [EMkdir (tempUserDataDir_of path_join env);
                ELaunchPersistentContext (tempUserDataDir_of path_join env)
                                         (mode a =? "mobile")]
          else [ELaunch; ENewContext (mode a =? "mobile")]).

  (** None of the calls that create the session fails. *)
Definition setup_ok (env : RunEnv) (a : Args) : bool :=
    forallb (fun op => negb (run_throws env op)) (setup_ops a).

  (** The queries of a run. *)
Definition queries_of (env : RunEnv) (a : Args) : list string :=
    extract_queries (csv_headers env) (column a) (csv_rows env).

  (** The batches of a run: the loop of generateSearchScreenshots on its
      queries, from the first, on an empty trace. *)
Definition run_batches (env : RunEnv) (a : Args) : Completion unit * list Item :=
    process_batches path_join env (queries_of env a) (engine a) (deviceName_of (mode a))
                    (outputDir_of path_join env a) (delay a) (useChrome a) (quality a)
                    0 [].

End RunParts.

(** The launches of a browser. *)
Definition is_launch (e : Event) : bool :=
  match e with
  | ELaunch | ELaunchPersistentContext _ _ => true
  | _ => false
  end.

(** The closing calls. *)
Definition is_close (e : Event) : bool :=
  match e with
  | EContextClose | EBrowserClose => true
  | _ => false
  end.

(** A trace in which every call that was made has settled. *)
Definition all_settled (tr : list Event) : Prop :=
  forall c, In c (calls tr) -> settled (fst c) tr = true.

(** The trace of one call of processQuery: one call, and its settlement. *)
Definition task_ok (t : list Event) : Prop :=
  exists c, calls t = [c] /\ settled (fst c) t = true.

(** An item of a run with batches of at most [n] calls: a step outside the
    batches is not an event of a request, a batch has at most [n] calls. *)
Definition item_ok (n : nat) (it : Item) : Prop :=
  match it with
  | Step e => is_request_event e = false
  | Concurrent tasks => length tasks <= n /\ Forall task_ok tasks
  end.

(** A CSV file with four queries, and a world in which every call of the run
    works and the pages behave as given. *)
Definition csv_four : list Row :=
  [[("query", "foo"); ("date", "2024")]; [("query", "bar"); ("date", "2025")];
   [("query", "baz"); ("date", "2026")]; [("query", "qux"); ("date", "2027")]].

Definition world (pages : nat -> nat -> PageEnv) : RunEnv :=
  {| now_iso := "2024-01-02T03:04:05.678Z"; cwd := "/work";
     run_throws := fun _ => false;
     csv_headers := ["query"; "date"]; csv_rows := csv_four;
     pages_of := pages |}.

Definition args_of (engine : string) (useChrome : bool) : Args :=
  {| csvFile := "queries.csv"; output := "out"; column := Some "query";
     engine := engine; delay := JsNumber.of_Z 1; mode := "desktop";
     useChrome := useChrome; compareMode := false; quality := JsNumber.of_Z 80 |}.

(** The settlement of a call by rejection. *)
Definition is_rejection (e : Event) : bool :=
  match e with
  | ESettle _ false => true
  | _ => false
  end.

(** A world in which the context cannot open a page for the first query. *)
Definition first_query_cannot_open (index attempt : nat) : PageEnv :=
  match index with
  | 0 => page_failing_open
  | _ => page_fine
  end.

(** The closing calls that are made once the batches are done. *)
Definition teardown_events (env : RunEnv) (a : Args) : list Event :=
  if run_throws env ContextCloseOp then [EContextClose]
  else if useChrome a then [EContextClose]
       else [EContextClose; EBrowserClose].

(** A world in which the context cannot open a page at all. *)
Definition no_page_opens (index attempt : nat) : PageEnv := page_failing_open.

(** The last character of a string, and the string without it. *)
Fixpoint last_char (s : string) : option ascii :=
  match s with
  | EmptyString => None
  | String c EmptyString => Some c
  | String _ s' => last_char s'
  end.

Fixpoint remove_last (s : string) : string :=
  match s with
  | EmptyString => EmptyString
  | String c EmptyString => EmptyString
  | String c s' => String c (remove_last s')
  end.

(** The engines the command line accepts. *)
Definition engine_choices : list string := ["google"; "bing"; "duckduckgo"; "yahoo"].

(** ** Further observations *)

(** The characters a percent-encoded component is made of: the unreserved
    characters and the percent sign. *)
Definition is_uri_char (c : ascii) : bool := is_unreserved c || (c =? "%")%char.

(** Reading one character back from the front of an encoded component: an
    unreserved character stands for itself, an escape for its byte, two escapes
    for the code unit of a two-byte UTF-8 sequence. *)
Definition unescape_byte (s : string) : option (N * string) :=
  match s with
  | String "%" (String h (String l r)) =>
      match JsNumber.radix_digit 16 h, JsNumber.radix_digit 16 l with
      | Some a, Some b => Some (16 * a + b, r)%N
      | _, _ => None
      end
  | _ => None
  end.

Definition unescape_first (s : string) : option (ascii * string) :=
  match s with
  | EmptyString => None
  | String "%" _ =>
      match unescape_byte s with
      | Some (b, r) =>
          if (b <? 128)%N then Some (ascii_of_N b, r)
          else
            match unescape_byte r with
            | Some (b2, r2) => Some (ascii_of_N ((b - 192) * 64 + (b2 - 128)), r2)
            | None => None
            end
      | None => None
      end
  | String c r => Some (c, r)
  end.

(** A string without the character [a]. *)
Definition no_char (a : ascii) (s : string) : bool :=
  JsString.forallb (fun c => negb (c =? a)%char) s.

(** A field of an ISO 8601 timestamp as [toISOString] prints it: digits, and
    the sign of the year and the hyphens of the date. *)
Definition is_iso_field_char (c : ascii) : bool :=
  JsNumber.is_digit c || (c =? "-")%char || (c =? "+")%char.

Definition iso_field (s : string) : bool := JsString.forallb is_iso_field_char s.

(** [toISOString] of a date, from its fields. *)
Definition iso_string (date hh mm ss ms : string) : string :=
  date ++ "T" ++ hh ++ ":" ++ mm ++ ":" ++ ss ++ "." ++ ms ++ "Z".

Definition is_saved (e : Event) : bool :=
  match e with
  | ESaved _ _ => true
  | _ => false
  end.

Definition is_warnCaptcha (e : Event) : bool :=
  match e with
  | EWarnCaptcha _ => true
  | _ => false
  end.

(** The opening and the closing of a page. *)
Definition is_page_event (e : Event) : bool :=
  match e with
  | ENewPage _ | EPageClose _ => true
  | _ => false
  end.

(** Every event of the kind [p] in the trace comes directly after an event
    [e0]. *)
Definition preceded_by (p : Event -> bool) (e0 : Event) (tr : list Event) : Prop :=
  forall a e b, tr = (a ++ e :: b)%list -> p e = true -> exists a', a = (a' ++ [e0])%list.

(** The state in which the loop body is entered for the first time after
    [r] retries, with an empty trace. *)
Definition entered (r : nat) : PQState :=
  {| retries := r; success := false; trace := [] |}.

(** The events of one pass through the loop body of processQuery that is
    entered after [r] retries. *)
Definition attempt_events (path_join : string -> string -> string)
           (query : string) (index : nat) (engine deviceName output : string)
           (delay : JsNumber.t) (useChrome : bool) (quality : JsNumber.t)
           (env : PageEnv) (r : nat) : list Event :=
  trace (snd (attempt path_join query index engine deviceName output delay useChrome
                      quality env (entered r))).

(** A page on which nothing fails. *)
Definition page_works (env : PageEnv) : Prop := forall op, page_throws env op = false.

(** The same, read along the trace: [prev] is the event before the trace. *)
Fixpoint after_each (p : Event -> bool) (e0 : Event) (prev : option Event)
         (tr : list Event) : Prop :=
  match tr with
  | [] => True
  | e :: tr' => (p e = true -> prev = Some e0) /\ after_each p e0 (Some e) tr'
  end.

(** The launch of the system Chrome with its persistent profile. *)
Definition is_persistent_launch (e : Event) : bool :=
  match e with
  | ELaunchPersistentContext _ _ => true
  | _ => false
  end.

Definition is_browserClose (e : Event) : bool :=
  match e with
  | EBrowserClose => true
  | _ => false
  end.

(** * Properties *)

(** ** Strings *)

Module JsStringFacts.
Import JsString.


Lemma trimStart_length (s : string) : String.length (trimStart s) <= String.length s.
Proof.
    induction s as [|c s IH]; simpl; [lia|].
    destruct (is_whitespace c); simpl; lia.
Qed.

Lemma trimEnd_length (s : string) : String.length (trimEnd s) <= String.length s.
Proof.
    induction s as [|c s IH]; simpl; [lia|].
    destruct (trimEnd s); [destruct (is_whitespace c)|]; simpl in *; lia.
Qed.

Lemma trim_length (s : string) : String.length (trim s) <= String.length s.
Proof.
    unfold trim. pose proof (trimEnd_length (trimStart s)).
    pose proof (trimStart_length s). lia.
Qed.

Lemma substring_0_length (n : nat) (s : string) :
    String.length (substring 0 n s) <= n.
Proof.
    revert s; induction n as [|n IH]; intros [|c s]; simpl; try lia.
    specialize (IH s). lia.
Qed.



Lemma forallb_map (p : ascii -> bool) (f : ascii -> ascii) (s : string) :
    (forall c, p (f c) = true) -> forallb p (map f s) = true.
Proof.
    intros H; induction s; simpl; [reflexivity|]. now rewrite H.
Qed.

Lemma forallb_substring_0 (p : ascii -> bool) (n : nat) (s : string) :
    forallb p s = true -> forallb p (substring 0 n s) = true.
Proof.
    revert s; induction n as [|n IH]; intros [|c s]; simpl; auto.
    intros H; apply andb_prop in H as [Hc Hs]. rewrite Hc. now apply IH.
Qed.

Lemma forallb_trimStart (p : ascii -> bool) (s : string) :
    forallb p s = true -> forallb p (trimStart s) = true.
Proof.
    induction s as [|c s IH]; simpl; auto.
    intros H. destruct (is_whitespace c); [|exact H].
    apply andb_prop in H as [_ Hs]. now apply IH.
Qed.

Lemma forallb_trimEnd (p : ascii -> bool) (s : string) :
    forallb p s = true -> forallb p (trimEnd s) = true.
Proof.
    induction s as [|c s IH]; simpl; auto.
    intros H; apply andb_prop in H as [Hc Hs]. specialize (IH Hs).
    destruct (trimEnd s); [destruct (is_whitespace c)|]; simpl in *;
      rewrite ?Hc; auto.
Qed.

Lemma forallb_trim (p : ascii -> bool) (s : string) :
    forallb p s = true -> forallb p (trim s) = true.
Proof. intros; unfold trim; now apply forallb_trimEnd, forallb_trimStart. Qed.

Lemma trimStart_id (s : string) : starts_with_space s = false -> trimStart s = s.
Proof. destruct s as [|c s]; simpl; [reflexivity|]. now intros ->. Qed.

Lemma trimEnd_id (s : string) : ends_with_space s = false -> trimEnd s = s.
Proof.
    induction s as [|c s IH]; simpl; [reflexivity|].
    destruct s as [|d s].
    - simpl. now intros ->.
    - intros H. rewrite (IH H). reflexivity.
Qed.

  (** What [trim] returns has no white space at either end. *)
Lemma trimStart_starts (s : string) : starts_with_space (trimStart s) = false.
Proof.
    induction s as [|c s IH]; simpl; [reflexivity|].
    destruct (is_whitespace c) eqn:E; [exact IH|]. simpl. exact E.
Qed.

Lemma trimEnd_ends (s : string) : ends_with_space (trimEnd s) = false.
Proof.
    induction s as [|c s IH]; simpl; [reflexivity|].
    destruct (trimEnd s) as [|d t] eqn:E.
    - destruct (is_whitespace c) eqn:Ec; simpl; auto.
    - exact IH.
Qed.

Lemma trimEnd_starts (s : string) :
    starts_with_space s = false -> starts_with_space (trimEnd s) = false.
Proof.
    destruct s as [|c s]; simpl; [reflexivity|]. intros H.
    destruct (trimEnd s); [rewrite H|]; simpl; auto.
Qed.

Lemma trim_idempotent (s : string) : trim (trim s) = trim s.
Proof.
    unfold trim at 1.
    rewrite trimStart_id.
    - apply trimEnd_id, trimEnd_ends.
    - apply trimEnd_starts, trimStart_starts.
Qed.

End JsStringFacts.

(** ** The filename builder *)

Lemma sanitize_char_safe (c : ascii) : is_safe_char (sanitize_char c) = true.
Proof.
  unfold sanitize_char. destruct (is_safe_char c) eqn:E; [exact E|reflexivity].
Qed.

Lemma safeQuery_length (query : string) : String.length (safeQuery query) <= 40.
Proof.
  unfold safeQuery, JsString.slice.
  pose proof (JsStringFacts.trim_length (substring 0 (40 - 0) (sanitize query))).
  pose proof (JsStringFacts.substring_0_length (40 - 0) (sanitize query)).
  simpl in *. lia.
Qed.

Lemma safeQuery_safe (query : string) :
  JsString.forallb is_safe_char (safeQuery query) = true.
Proof.
  unfold safeQuery, JsString.slice, sanitize.
  apply JsStringFacts.forallb_trim, JsStringFacts.forallb_substring_0,
    JsStringFacts.forallb_map, sanitize_char_safe.
Qed.




(** ** Arrays *)

Lemma findIndex_from_spec {A : Type} (p : A -> bool) (arr : list A) (k : Z) :
  (JsArray.findIndex_from p arr k = (-1)%Z /\ no_index p arr) \/
  (exists i, JsArray.findIndex_from p arr k = (k + Z.of_nat i)%Z /\ first_index p arr i)
  \/ (k < 0)%Z.
Proof.
  destruct (Z.ltb_spec k 0) as [Hk|Hk]; [now right; right|].
  revert k Hk; induction arr as [|x arr IH]; intros k Hk; simpl.
  - left. split; [reflexivity|]. intros x [].
  - destruct (p x) eqn:Hp.
    + right; left. exists 0. split; [lia|]. split.
      * exists x. now split.
      * intros j y Hj. lia.
    + destruct (IH (k + 1)%Z ltac:(lia)) as [[He Hn]|[(i & He & (y & Hy & Hpy) & Hmin)|Hneg]];
        [| |lia].
      * left. split; [exact He|]. intros y [<-|Hy]; auto.
      * right; left. exists (S i). split; [lia|]. split.
        -- exists y. now split.
        -- intros [|j] z Hj Hz; simpl in Hz.
           ++ now inversion Hz; subst.
           ++ apply (Hmin j); [lia|exact Hz].
Qed.

Lemma findIndex_spec {A : Type} (p : A -> bool) (arr : list A) :
  (JsArray.findIndex p arr = (-1)%Z /\ no_index p arr) \/
  (exists i, JsArray.findIndex p arr = Z.of_nat i /\ first_index p arr i).
Proof.
  unfold JsArray.findIndex.
  destruct (findIndex_from_spec p arr 0) as [H|[(i & He & Hi)|H]]; [now left| |lia].
  right. exists i. now split.
Qed.

(** ** Column resolution *)

Lemma resolve_queryColIndex_spec (hdrs : list string) (column : string) :
  column <> "" ->
  ColumnResolution hdrs column (resolve_queryColIndex hdrs (Some column)).
Proof.
  intros Hne. destruct column as [|c0 crest]; [congruence|].
  unfold resolve_queryColIndex.
  set (column := String c0 crest).
  destruct (JsNumber.isNaN (JsNumber.Number column)) eqn:Hnan; simpl.
  2: now apply by_number.
  destruct (findIndex_spec (same_name column) hdrs) as [[He Hno]|(i & He & Hi)].
  - unfold same_name in He. rewrite He. simpl.
    destruct (findIndex_spec (contains_name column) hdrs) as [[Hp Hnop]|(i & Hp & Hi)].
    + unfold contains_name in Hp. rewrite Hp. simpl. now apply by_default.
    + unfold contains_name in Hp. rewrite Hp.
      replace (Z.of_nat i >=? 0)%Z with true by (symmetry; apply Z.geb_le; lia).
      now apply by_partial_name.
  - unfold same_name in He. rewrite He.
    replace (Z.of_nat i >=? 0)%Z with true by (symmetry; apply Z.geb_le; lia).
    now apply by_exact_name.
Qed.

(** C8. A selector that parses as a number is the column index as it is; one
    that does not is looked up among the headers, first for an equal name, then
    for a name that contains it, letter case aside, and column 0 is the
    fallback.  For the headers notes, query, date the selectors "query" and
    "1" resolve to index 1 and "doesnotexist" to index 0. *)
Theorem column_resolution (hdrs : list string) (column : string) :
  column <> "" ->
  ColumnResolution hdrs column (resolve_queryColIndex hdrs (Some column))
  /\ resolve_queryColIndex ["notes"; "query"; "date"] (Some "query") = JsNumber.of_nat 1
  /\ resolve_queryColIndex ["notes"; "query"; "date"] (Some "1") = JsNumber.of_nat 1
  /\ resolve_queryColIndex ["notes"; "query"; "date"] (Some "doesnotexist")
     = JsNumber.of_nat 0
  /\ JsArray.get ["notes"; "query"; "date"]
       (resolve_queryColIndex ["notes"; "query"; "date"] (Some "query")) = Some "query"
  /\ JsArray.get ["notes"; "query"; "date"]
       (resolve_queryColIndex ["notes"; "query"; "date"] (Some "1")) = Some "query"
  /\ JsArray.get ["notes"; "query"; "date"]
       (resolve_queryColIndex ["notes"; "query"; "date"] (Some "doesnotexist"))
     = Some "notes".
Proof.
  intros Hne. split; [now apply resolve_queryColIndex_spec|].
  repeat split; vm_compute; reflexivity.
Qed.

Lemma column_resolution_witness :
  ColumnResolution ["notes"; "Query"; "date"] "QUERY" (JsNumber.of_nat 1).
Proof.
  assert (Hne : "QUERY" <> "") by discriminate.
  exact (proj1 (column_resolution ["notes"; "Query"; "date"] "QUERY" Hne)).
Defined.

(** ** Query extraction *)

Lemma collect_row_row_queries (x : JsNumber.t) (queries : list string) (row : Row) :
  collect_row x queries row = (queries ++ row_queries x row)%list.
Proof.
  unfold collect_row, row_queries.
  destruct (JsArray.get (Object_values row) x) as [cell|]; [|now rewrite app_nil_r].
  destruct (truthy (JsString.trim cell)); [reflexivity|now rewrite app_nil_r].
Qed.

Lemma fold_collect_row (x : JsNumber.t) (rows : list Row) (queries : list string) :
  fold_left (collect_row x) rows queries
  = (queries ++ flat_map (row_queries x) rows)%list.
Proof.
  revert queries; induction rows as [|row rows IH]; intros queries; simpl.
  - now rewrite app_nil_r.
  - rewrite IH, collect_row_row_queries, <- app_assoc. reflexivity.
Qed.

Lemma collect_queries_flat_map (x : JsNumber.t) (rows : list Row) :
  collect_queries x rows = flat_map (row_queries x) rows.
Proof. unfold collect_queries. now rewrite fold_collect_row. Qed.

Lemma collect_queries_app (x : JsNumber.t) (rows rows' : list Row) :
  collect_queries x (rows ++ rows')
  = (collect_queries x rows ++ collect_queries x rows')%list.
Proof. rewrite !collect_queries_flat_map. apply flat_map_app. Qed.

Lemma truthy_nonempty (s : string) : truthy s = true <-> s <> "".
Proof.
  unfold truthy. rewrite negb_true_iff. apply String.eqb_neq.
Qed.

Lemma row_queries_sound (x : JsNumber.t) (row : Row) (q : string) :
  In q (row_queries x row) ->
  q <> "" /\ JsString.trim q = q /\
  exists cell, JsArray.get (Object_values row) x = Some cell /\ q = JsString.trim cell.
Proof.
  unfold row_queries.
  destruct (JsArray.get (Object_values row) x) as [cell|]; [|intros []].
  destruct (truthy (JsString.trim cell)) eqn:Ht; [|intros []].
  intros [<-|[]]. split; [now apply truthy_nonempty|].
  split; [apply JsStringFacts.trim_idempotent|]. now exists cell.
Qed.

Lemma collect_queries_length (x : JsNumber.t) (rows : list Row) :
  length (collect_queries x rows) = length (filter (has_query x) rows).
Proof.
  rewrite collect_queries_flat_map.
  induction rows as [|row rows IH]; simpl; [reflexivity|].
  rewrite length_app, IH. unfold row_queries, has_query.
  destruct (JsArray.get (Object_values row) x) as [cell|]; [|reflexivity].
  destruct (truthy (JsString.trim cell)); reflexivity.
Qed.

(** C9. Extraction goes through the rows in order and appends, for every row
    whose selected cell is not blank, that cell trimmed: what it returns are
    trimmed, non-empty strings in row order, one per such row (equal cells are
    all kept), a row with a blank cell adds nothing, and no data rows give no
    queries.  It is a total function: nothing is thrown. *)
Theorem query_extraction (x : JsNumber.t) (rows rows' : list Row) (row : Row) :
  collect_queries x (rows ++ rows')
  = (collect_queries x rows ++ collect_queries x rows')%list
  /\ collect_queries x rows = flat_map (row_queries x) rows
  /\ length (collect_queries x rows) = length (filter (has_query x) rows)
  /\ (forall q, In q (collect_queries x rows) ->
        q <> "" /\ JsString.trim q = q /\
        exists r cell, In r rows /\ JsArray.get (Object_values r) x = Some cell /\
                       q = JsString.trim cell)
  /\ collect_queries x [row; row]
     = (collect_queries x [row] ++ collect_queries x [row])%list
  /\ (forall cell, JsArray.get (Object_values row) x = Some cell ->
        JsString.trim cell = "" -> collect_queries x [row] = [])
  /\ (forall cell, JsArray.get (Object_values row) x = Some cell ->
        JsString.trim cell <> "" -> collect_queries x [row] = [JsString.trim cell])
  /\ collect_queries x [] = []
  /\ (forall hdrs column, extract_queries hdrs column [] = []).
Proof.
  split; [apply collect_queries_app|].
  split; [apply collect_queries_flat_map|].
  split; [apply collect_queries_length|].
  split.
  { intros q Hq. rewrite collect_queries_flat_map in Hq.
    apply in_flat_map in Hq as (r & Hr & Hq).
    destruct (row_queries_sound x r q Hq) as (Hne & Htrim & cell & Hcell & ->).
    split; [exact Hne|]. split; [exact Htrim|]. now exists r, cell. }
  split; [apply (collect_queries_app x [row] [row])|].
  split.
  { intros cell Hcell Hblank. rewrite collect_queries_flat_map. simpl.
    unfold row_queries. rewrite Hcell, Hblank. reflexivity. }
  split.
  { intros cell Hcell Hne. rewrite collect_queries_flat_map. simpl.
    unfold row_queries. rewrite Hcell.
    apply truthy_nonempty in Hne. rewrite Hne. reflexivity. }
  split; reflexivity.
Qed.

Lemma query_extraction_witness :
  extract_queries ["query"; "date"] (Some "query")
    [[("query", "foo"); ("date", "2024")];
     [("query", "   "); ("date", "2024")];
     [("query", " bar "); ("date", "2025")];
     [("query", "foo"); ("date", "2026")]]
  = ["foo"; "bar"; "foo"]
  /\ collect_queries (JsNumber.of_nat 0) [[("query", "   "); ("date", "2024")]] = [].
Proof.
  split; [reflexivity|].
  pose proof (query_extraction (JsNumber.of_nat 0) [] []
                [("query", "   "); ("date", "2024")]) as H.
  destruct H as (_ & _ & _ & _ & _ & Hblank & _).
  apply (Hblank "   "); reflexivity.
Defined.

(** ** Numeric selectors out of bounds *)

Lemma get_out_of_bounds {A : Type} (arr : list A) (x : JsNumber.t) (n : nat) :
  length arr <= n -> is_negative x = true \/ at_least x n ->
  JsArray.get arr x = None.
Proof.
  intros Hlen Hx. unfold JsArray.get.
  destruct (JsNumber.to_index x) as [z|] eqn:Hz; [|reflexivity].
  assert (Hge : (Z.of_nat n <= z)%Z).
  { unfold JsNumber.to_index in Hz. unfold is_negative, at_least in Hx.
    destruct x as [s|s| |s m e]; try discriminate.
    - inversion Hz; subst. destruct Hx as [Hx|Hx]; [discriminate|lia].
    - destruct s; [discriminate|].
      destruct Hx as [Hx|Hx]; [discriminate|].
      destruct e as [|k|k].
      + inversion Hz; subst. exact Hx.
      + inversion Hz; subst. exact Hx.
      + destruct (Zpos m mod 2 ^ Zpos k =? 0)%Z; [|discriminate].
        injection Hz as <-.
        assert (Hpow : (0 < 2 ^ Zpos k)%Z) by (apply Z.pow_pos_nonneg; lia).
        apply Z.div_le_lower_bound; [exact Hpow|lia]. }
  destruct (Z.ltb_spec z (Z.of_nat (length arr))); [lia|reflexivity].
Qed.

Lemma Object_values_length (row : Row) : length (Object_values row) = length row.
Proof. apply length_map. Qed.

(** C10 (amended). A selector that parses as a number is the column index,
    unchecked: when the number is negative, or at least the number of cells of
    every row (a row can hold more cells than the header has columns), the
    selected cell of every row is undefined and extraction returns no queries;
    nothing is thrown, and column 0 is not used in its place. *)
Theorem numeric_selector_out_of_bounds
        (hdrs : list string) (column : string) (rows : list Row) (ncols : nat) :
  column <> "" ->
  JsNumber.isNaN (JsNumber.Number column) = false ->
  is_negative (JsNumber.Number column) = true \/ at_least (JsNumber.Number column) ncols ->
  Forall (fun row => length row <= ncols) rows ->
  resolve_queryColIndex hdrs (Some column) = JsNumber.Number column
  /\ Forall (fun row => JsArray.get (Object_values row)
                          (resolve_queryColIndex hdrs (Some column)) = None) rows
  /\ extract_queries hdrs (Some column) rows = [].
Proof.
  intros Hne Hnum Hout Hrows.
  assert (Hres : resolve_queryColIndex hdrs (Some column) = JsNumber.Number column).
  { destruct column as [|c0 crest]; [congruence|].
    unfold resolve_queryColIndex. now rewrite Hnum. }
  assert (Hcells : Forall (fun row => JsArray.get (Object_values row)
                                        (JsNumber.Number column) = None) rows).
  { eapply Forall_impl; [|exact Hrows]. intros row Hrow.
    apply get_out_of_bounds with (n := ncols); [|exact Hout].
    now rewrite Object_values_length. }
  split; [exact Hres|]. rewrite Hres. split; [exact Hcells|].
  unfold extract_queries. rewrite Hres, collect_queries_flat_map.
  induction Hcells as [|row rows Hrow _ IH]; simpl; [reflexivity|].
  inversion Hrows; subst.
  unfold row_queries at 1. rewrite Hrow. simpl. now apply IH.
Qed.

Lemma numeric_selector_out_of_bounds_witness :
  extract_queries ["notes"; "query"; "date"] (Some "3")
    [[("notes", "n"); ("query", "foo"); ("date", "2024")];
     [("notes", "m"); ("query", "bar"); ("date", "2025")]] = []
  /\ extract_queries ["notes"; "query"; "date"] (Some "-1")
    [[("notes", "n"); ("query", "foo"); ("date", "2024")]] = [].
Proof.
  split.
  - refine (proj2 (proj2 (numeric_selector_out_of_bounds
      ["notes"; "query"; "date"] "3"
      [[("notes", "n"); ("query", "foo"); ("date", "2024")];
       [("notes", "m"); ("query", "bar"); ("date", "2025")]] 3 _ _ _ _)));
      [discriminate | reflexivity | right; vm_compute; discriminate
      | repeat constructor].
  - refine (proj2 (proj2 (numeric_selector_out_of_bounds
      ["notes"; "query"; "date"] "-1"
      [[("notes", "n"); ("query", "foo"); ("date", "2024")]] 3 _ _ _ _)));
      [discriminate | reflexivity | left; reflexivity | repeat constructor].
Defined.

(** The header has two columns and the row has three cells; csv-parser delivers
    the third under the key [_2].  The selector 2 is not below the number of
    columns, and yet it selects that cell. *)
Lemma surplus_cell_is_selected :
  let hdrs := ["notes"; "query"] in
  let rows := [[("notes", "x"); ("query", "y"); ("_2", "z")]] in
  JsNumber.isNaN (JsNumber.Number "2") = false
  /\ at_least (JsNumber.Number "2") (length hdrs)
  /\ resolve_queryColIndex hdrs (Some "2") = JsNumber.Number "2"
  /\ extract_queries hdrs (Some "2") rows = ["z"].
Proof.
  vm_compute. split; [reflexivity|]. split; [discriminate|]. split; reflexivity.
Qed.

(** ** The attempt loop of processQuery *)

Section ProcessQueryFacts.

Variable path_join : string -> string -> string.
Variables (query : string) (index : nat) (engine deviceName output : string)
            (delay : JsNumber.t) (useChrome : bool) (quality : JsNumber.t).

Local Abbreviation attempt' :=
    (attempt path_join query index engine deviceName output delay useChrome quality).
Local Abbreviation try_block' :=
    (try_block path_join query index engine deviceName output delay useChrome quality).
Local Abbreviation attempt_loop' :=
    (attempt_loop path_join query index engine deviceName output delay useChrome quality).
Local Abbreviation processQuery' :=
    (processQuery path_join query index engine deviceName output delay useChrome quality).

  (** The loop, unfolded once. *)
Lemma attempt_loop_eq (pages : nat -> PageEnv) (s : PQState) :
    attempt_loop' pages s =
    if loop_guard s then
      match attempt' (pages 0) s with
      | (Throw err, s') => (Throw err, s')
      | (_, s') => attempt_loop' (fun k => pages (S k)) s'
      end
    else (Normal tt, s).
Proof.
    funelim (attempt_loop' pages s);
      repeat match goal with
        | H : loop_guard _ = _ |- context [loop_guard _] => rewrite H
        | H : attempt _ _ _ _ _ _ _ _ _ _ _ = _ |- context [attempt _ _ _ _ _ _ _ _ _ _ _] =>
            rewrite H
        end; reflexivity.
Qed.

Ltac run_attempt :=
    cbv beta iota zeta delta
      [attempt try_catch_finally try_block catch_block finally_block await bind
       emit ret throw incr_retries set_success get_retries continue_
       retries success trace fst snd];
    repeat match goal with
      | |- context [if ?c then _ else _] => destruct c eqn:?; cbv beta iota
      end.

  (** What one pass through the loop body does to the state: it opens a page,
      then either the opening or the closing of the page throws, or the
      screenshot is taken, or the attempt is given up and [retries] grows by
      one. *)
Lemma attempt_outcome (env : PageEnv) (s : PQState) :
    exists evs,
      trace (snd (attempt' env s)) = (trace s ++ ENewPage index :: evs)%list
      /\ forallb is_attempt_event evs = true
      /\ match fst (attempt' env s) with
         | Throw err =>
             (err = PageError NewPageOp /\ page_throws env NewPageOp = true /\ evs = [])
             \/ (err = PageError PageCloseOp /\ page_throws env NewPageOp = false
                 /\ page_throws env PageCloseOp = true)
         | _ =>
             page_opens_and_closes env = true
             /\ ((success (snd (attempt' env s)) = true
                  /\ retries (snd (attempt' env s)) = retries s)
                 \/ (success (snd (attempt' env s)) = success s
                     /\ retries (snd (attempt' env s)) = S (retries s)))
         end.
Proof.
    destruct s as [r b t]. unfold page_opens_and_closes.
    run_attempt;
      (eexists; split; [rewrite <- ?app_assoc; reflexivity|]; split; [reflexivity|]);
      repeat match goal with H : page_throws _ _ = _ |- _ => rewrite H end;
      cbn; auto.
Qed.

  (** Induction along the runs of the loop. *)
Lemma attempt_loop_induction
        (P : (nat -> PageEnv) -> PQState -> Completion unit * PQState -> Prop) :
    (forall pages s, loop_guard s = false -> P pages s (Normal tt, s)) ->
    (forall pages s err s',
        loop_guard s = true -> attempt' (pages 0) s = (Throw err, s') ->
        P pages s (Throw err, s')) ->
    (forall pages s c s',
        loop_guard s = true -> attempt' (pages 0) s = (c, s') ->
        (forall err, c <> Throw err) ->
        P (fun k => pages (S k)) s' (attempt_loop' (fun k => pages (S k)) s') ->
        P pages s (attempt_loop' (fun k => pages (S k)) s')) ->
    forall pages s, P pages s (attempt_loop' pages s).
Proof.
    intros Hexit Hthrow Hnext pages s.
    funelim (attempt_loop' pages s).
    - now apply Hexit.
    - eapply Hnext; [eassumption | eassumption | discriminate | now apply H].
    - eapply Hnext; [eassumption | eassumption | discriminate | now apply H].
    - now apply Hthrow.
Qed.

Lemma budget_after_attempt (env : PageEnv) (s : PQState) :
    loop_guard s = true ->
    (forall err, fst (attempt' env s) <> Throw err) ->
    budget (snd (attempt' env s)) < budget s.
Proof.
    intros Hg Hc. unfold loop_guard in Hg. apply andb_prop in Hg as [Hle Hns].
    apply Nat.leb_le in Hle. apply negb_true_iff in Hns.
    destruct (attempt_outcome env s) as (evs & _ & _ & Hout).
    destruct (fst (attempt' env s)) as [[]| |err];
      [| |now exfalso; apply (Hc err)];
      destruct Hout as [_ [[Hs Hr]|[Hs Hr]]]; unfold budget;
      rewrite Hs, ?Hns, ?Hr; unfold maxRetries in *; lia.
Qed.

  (** The loop only adds events to the trace; the pages it opens are at least
      one when it is entered and never more than what is left of the budget. *)
Lemma attempt_loop_trace (pages : nat -> PageEnv) (s : PQState) :
    exists evs,
      trace (snd (attempt_loop' pages s)) = (trace s ++ evs)%list
      /\ forallb (fun e => is_newPage e || is_attempt_event e) evs = true
      /\ attempts evs <= budget s
      /\ (loop_guard s = true -> 1 <= attempts evs).
Proof.
    apply (attempt_loop_induction
             (fun pages s r =>
                exists evs,
                  trace (snd r) = (trace s ++ evs)%list
                  /\ forallb (fun e => is_newPage e || is_attempt_event e) evs = true
                  /\ attempts evs <= budget s
                  /\ (loop_guard s = true -> 1 <= attempts evs))).
    - intros ps st Hg. exists []. simpl. rewrite app_nil_r.
      split; [reflexivity|]. split; [reflexivity|].
      split; [unfold attempts; simpl; lia|congruence].
    - intros ps st err st' Hg Hatt.
      destruct (attempt_outcome (ps 0) st) as (evs & Htr & Hev & _).
      rewrite Hatt in Htr. simpl in Htr.
      exists (ENewPage index :: evs). simpl. split; [exact Htr|].
      assert (Hno : attempts evs = 0).
      { unfold attempts. clear - Hev. induction evs as [|e evs IH]; [reflexivity|].
        simpl in Hev. apply andb_prop in Hev as [He Hev]. simpl.
        destruct e; try discriminate; simpl; auto. }
      split; [rewrite forallb_forall in *; intros e He;
              rewrite (Hev e He); apply orb_true_r|].
      unfold attempts in *. simpl. rewrite Hno.
      unfold loop_guard in Hg. apply andb_prop in Hg as [Hle Hns].
      apply Nat.leb_le in Hle. apply negb_true_iff in Hns.
      unfold budget. rewrite Hns. unfold maxRetries in *. split; [lia|]. intros; lia.
    - intros ps st c st' Hg Hatt Hc (evs' & Htr' & Hev' & Hn' & _).
      destruct (attempt_outcome (ps 0) st) as (evs & Htr & Hev & _).
      pose proof (budget_after_attempt (ps 0) st Hg) as Hb.
      rewrite Hatt in Htr, Hb. simpl in Htr, Hb. specialize (Hb Hc).
      exists (ENewPage index :: evs ++ evs')%list.
      split; [rewrite Htr', Htr, <- app_assoc; reflexivity|].
      assert (Hno : attempts evs = 0).
      { unfold attempts. clear - Hev. induction evs as [|e evs IH]; [reflexivity|].
        simpl in Hev. apply andb_prop in Hev as [He Hev]. simpl.
        destruct e; try discriminate; simpl; auto. }
      split.
      { simpl. rewrite forallb_app, Hev'. rewrite andb_true_r.
        rewrite forallb_forall in *; intros e He. rewrite (Hev e He). apply orb_true_r. }
      unfold attempts in *. simpl. rewrite filter_app, length_app, Hno.
      split; [lia|]. intros; lia.
Qed.

Lemma opens_and_closes_iff (env : PageEnv) :
    page_opens_and_closes env = true <->
    page_throws env NewPageOp = false /\ page_throws env PageCloseOp = false.
Proof.
    unfold page_opens_and_closes.
    rewrite andb_true_iff, !negb_true_iff. reflexivity.
Qed.

  (** When the pages open and close, the loop completes normally: whatever
      else throws is caught. *)
Lemma attempt_loop_normal (pages : nat -> PageEnv) (s : PQState) :
    (forall k, page_opens_and_closes (pages k) = true) ->
    fst (attempt_loop' pages s) = Normal tt.
Proof.
    revert pages s.
    apply (attempt_loop_induction
             (fun pages s r =>
                (forall k, page_opens_and_closes (pages k) = true) ->
                fst r = Normal tt)).
    - reflexivity.
    - intros ps st err st' _ Hatt Hok. exfalso.
      destruct (attempt_outcome (ps 0) st) as (evs & _ & _ & Hout).
      rewrite Hatt in Hout. simpl in Hout.
      destruct (proj1 (opens_and_closes_iff (ps 0)) (Hok 0)) as [Ho Hc].
      destruct Hout as [(_ & H & _)|(_ & _ & H)]; congruence.
    - intros ps st c st' _ _ _ IH Hok. apply IH. intros k. apply Hok.
Qed.

Local Abbreviation try_events' :=
    (try_events path_join query index engine deviceName output delay useChrome quality).

Lemma try_events_kind (env : PageEnv) : forallb is_try_event (try_events' env) = true.
Proof.
    cbv beta iota zeta delta
      [try_events try_block await bind emit ret throw incr_retries set_success
       continue_ retries success trace fst snd].
    repeat match goal with
      | |- context [if ?c then _ else _] => destruct c eqn:?; cbv beta iota
      end; reflexivity.
Qed.

  (** An attempt whose [try] block throws, on a page that opens and closes:
      the [catch] block counts the retry, and either warns and backs off for a
      second or, the budget spent, reports the failure; then the page is
      closed and the attempt completes normally. *)
Lemma attempt_caught (env : PageEnv) (s : PQState) (err : Error) :
    page_opens_and_closes env = true ->
    fst (try_block' env s) = Throw err ->
    attempt' env s
    = (Normal tt,
       {| retries := S (retries s); success := success s;
          trace := (trace s ++ ENewPage index :: try_events' env
                      ++ (if (S (retries s) <=? maxRetries)%nat
                          then [EWarnRetry index (S (retries s));
                                ESetTimeout index 1000]
                          else [EErrorFailed index err])
                      ++ [EPageClose index])%list |}).
Proof.
    intros Hok. apply opens_and_closes_iff in Hok as [Hopen Hclose].
    destruct s as [r b t].
    cbv beta iota zeta delta
      [attempt try_catch_finally try_block catch_block finally_block await bind
       emit ret throw incr_retries set_success get_retries continue_ try_events
       retries success trace fst snd].
    rewrite Hopen, Hclose. cbv beta iota.
    repeat match goal with
      | |- context [if ?c then _ else _] => destruct c eqn:?; cbv beta iota
      end;
      intros Herr; try discriminate; injection Herr as <-;
      rewrite <- ?app_assoc; cbn [app]; reflexivity.
Qed.

Lemma count_app (p : Event -> bool) (a b : list Event) :
    count p (a ++ b) = count p a + count p b.
Proof. unfold count. now rewrite filter_app, length_app. Qed.

Lemma count_none (p q : Event -> bool) (evs : list Event) :
    forallb q evs = true -> (forall e, q e = true -> p e = false) -> count p evs = 0.
Proof.
    intros Hq Hpq. unfold count. induction evs as [|e evs IH]; [reflexivity|].
    simpl in *. apply andb_prop in Hq as [He Hq]. rewrite (Hpq e He). now apply IH.
Qed.

Lemma try_events_count (p : Event -> bool) (env : PageEnv) :
    (forall e, is_try_event e = true -> p e = false) ->
    count p (try_events' env) = 0.
Proof. intros H. eapply count_none; [apply try_events_kind|exact H]. Qed.

  (** The whole loop when every attempt is caught: from [retries = r] it
      makes [maxRetries + 1 - r] attempts, warns and backs off after each but
      the last, and reports the failure after the last. *)
Lemma attempt_loop_all_caught (n : nat) :
    forall (pages : nat -> PageEnv) (s : PQState),
      success s = false -> retries s + n = S maxRetries ->
      (forall k, page_opens_and_closes (pages k) = true
                 /\ exists err, forall s', fst (try_block' (pages k) s') = Throw err) ->
      exists evs,
        attempt_loop' pages s
        = (Normal tt, {| retries := S maxRetries; success := false;
                         trace := (trace s ++ evs)%list |})
        /\ attempts evs = n
        /\ count is_warnRetry evs = n - 1
        /\ count is_setTimeout evs = n - 1
        /\ count is_errorFailed evs = Nat.min n 1
        /\ (1 <= n -> exists pre err,
               evs = (pre ++ [EErrorFailed index err; EPageClose index])%list).
Proof.
    induction n as [|n IH]; intros pages s Hs Hr Hall.
    - exists []. assert (Hr' : retries s = S maxRetries) by lia.
      rewrite attempt_loop_eq. unfold loop_guard. rewrite Hr'. simpl.
      destruct s as [r b t]; simpl in *. subst. rewrite app_nil_r.
      repeat split. intros; lia.
    - destruct (Hall 0) as [Hok [err Herr]].
      rewrite attempt_loop_eq. unfold loop_guard. rewrite Hs.
      replace (retries s <=? maxRetries)%nat with true
        by (symmetry; apply Nat.leb_le; lia).
      simpl andb. cbv iota.
      rewrite (attempt_caught (pages 0) s err Hok (Herr s)).
      set (s1 := {| retries := S (retries s); success := success s; trace := _ |}).
      destruct (IH (fun k => pages (S k)) s1)
        as (evs & Hloop & Hatt & Hwarn & Hset & Hfail & Hlast).
      { exact Hs. }
      { simpl. lia. }
      { intros k. apply Hall. }
      rewrite Hloop. subst s1. cbn [trace retries].
      eexists. split; [rewrite <- app_assoc; reflexivity|].
      assert (Hnp : count is_newPage (try_events' (pages 0)) = 0)
        by (apply try_events_count; intros []; simpl; congruence).
      assert (Hwr : count is_warnRetry (try_events' (pages 0)) = 0)
        by (apply try_events_count; intros []; simpl; congruence).
      assert (Hst : count is_setTimeout (try_events' (pages 0)) = 0)
        by (apply try_events_count; intros []; simpl; congruence).
      assert (Hef : count is_errorFailed (try_events' (pages 0)) = 0)
        by (apply try_events_count; intros []; simpl; congruence).
      change attempts with (count is_newPage) in *.
      change (ENewPage index :: ?l) with ([ENewPage index] ++ l)%list.
      rewrite !count_app, Hnp, Hwr, Hst, Hef, Hatt, Hwarn, Hset, Hfail.
      destruct (S (retries s) <=? maxRetries)%nat eqn:Hle;
        [apply Nat.leb_le in Hle|apply Nat.leb_gt in Hle];
        unfold count; simpl; unfold maxRetries in *;
        (destruct n; [|simpl]; (split; [lia|]); (split; [lia|]); (split; [lia|]);
         (split; [lia|]); intros _); try lia.
      + destruct (Hlast ltac:(lia)) as (pre & err' & ->).
        exists (ENewPage index
                  :: (try_events' (pages 0)
                        ++ [EWarnRetry index (S (retries s)); ESetTimeout index 1000;
                            EPageClose index]) ++ pre)%list, err'.
        cbn [app]. rewrite <- !app_assoc. reflexivity.
      + assert (Hevs : evs = []).
        { destruct evs as [|e evs]; [reflexivity|].
          unfold count in Hatt. simpl in Hatt. destruct (is_newPage e); simpl in Hatt.
          - discriminate.
          - exfalso. rewrite attempt_loop_eq in Hloop. unfold loop_guard in Hloop.
            cbn [retries] in Hloop.
            assert (Hf : (S (retries s) <=? maxRetries)%nat = false)
              by (apply Nat.leb_gt; unfold maxRetries; lia).
            rewrite Hf in Hloop.
            cbn [andb] in Hloop. injection Hloop as _ _ Htr.
            rewrite <- (app_nil_r (_ ++ _ :: _)) in Htr at 1.
            apply app_inv_head in Htr. discriminate. }
        subst evs. exists (ENewPage index :: try_events' (pages 0)), err.
        cbn [app]. rewrite app_nil_r. reflexivity.
Qed.

  (** An attempt on which a CAPTCHA is detected while [useChrome] is off: the
      page is opened, navigated and probed, the warning is printed, [retries]
      grows by one, and the page is closed; there is no wait of the
      pre-capture delay, no screenshot and no backoff. *)
Lemma attempt_captcha (env : PageEnv) (s : PQState) :
    useChrome = false -> hasCaptcha env = true ->
    page_throws env NewPageOp = false -> page_throws env GotoOp = false ->
    page_throws env JitterWaitOp = false -> page_throws env LoadStateOp = false ->
    page_throws env EvaluateOp = false ->
    attempt' env s
    = ((if page_throws env PageCloseOp then Throw (PageError PageCloseOp) else Continue),
       {| retries := S (retries s); success := success s;
          trace := (trace s ++
                    [ENewPage index; EGoto index (url_of engine query);
                     EWaitForTimeout index (JsNumber.of_Z (500 + jitter env));
                     EWaitForLoadState index; EEvaluate index;
                     EWarnCaptcha index; EPageClose index])%list |}).
Proof.
    intros Hu Hcap H1 H2 H3 H4 H5. destruct s as [r b t].
    cbv beta iota zeta delta
      [attempt try_catch_finally try_block catch_block finally_block await bind
       emit ret throw incr_retries set_success get_retries continue_
       retries success trace fst snd].
    rewrite Hu, Hcap, H1, H2, H3, H4, H5. cbv beta iota.
    destruct (page_throws env PageCloseOp); cbv beta iota;
      rewrite <- ?app_assoc; reflexivity.
Qed.

  (** ** processQuery as a whole *)

Lemma processQuery_trace (pages : nat -> PageEnv) :
    exists evs b,
      snd (processQuery' pages) = (ECall index query :: evs ++ [ESettle index b])%list
      /\ forallb (fun e => is_newPage e || is_attempt_event e) evs = true
      /\ 1 <= attempts evs <= S maxRetries
      /\ fst (processQuery' pages) = (if b then Normal tt
                                      else fst (attempt_loop' pages
                                                  {| retries := 0; success := false;
                                                     trace := [ECall index query] |}))
      /\ (b = false -> exists err, fst (processQuery' pages) = Throw err).
Proof.
    unfold processQuery.
    set (s0 := {| retries := 0; success := false; trace := [ECall index query] |}).
    destruct (attempt_loop_trace pages s0) as (evs & Htr & Hev & Hle & Hge).
    specialize (Hge eq_refl). change (budget s0) with (S maxRetries) in Hle.
    destruct (attempt_loop' pages s0) as [c s] eqn:Hloop. simpl in Htr.
    destruct c as [[]| |err]; [exists evs, true|exists evs, true|exists evs, false];
      simpl; rewrite Htr; (split; [reflexivity|]); (split; [exact Hev|]);
      (split; [lia|]); (split; [reflexivity|]); try discriminate.
    intros _. now exists err.
Qed.

End ProcessQueryFacts.

(** ** The retry budget *)

(** C1 (amended). The attempt loop of processQuery ends after at most
    maxRetries + 1 = 3 attempts, and makes at least one.  A query whose every
    attempt throws inside the [try] block, on pages that open and close, is
    retried exactly maxRetries = 2 more times, with a warning and a backoff
    before each retry, and is then reported as failed; processQuery itself
    completes normally. *)
Theorem retry_budget
        (path_join : string -> string -> string) (query : string) (index : nat)
        (engine deviceName output : string) (delay : JsNumber.t) (useChrome : bool)
        (quality : JsNumber.t) (pages : nat -> PageEnv) :
  let r := processQuery path_join query index engine deviceName output delay
                        useChrome quality pages in
  1 <= attempts (snd r) <= maxRetries + 1
  /\ ((forall k,
          page_opens_and_closes (pages k) = true
          /\ exists err, forall s,
              fst (try_block path_join query index engine deviceName output delay
                             useChrome quality (pages k) s) = Throw err) ->
      fst r = Normal tt
      /\ attempts (snd r) = maxRetries + 1
      /\ count is_warnRetry (snd r) = maxRetries
      /\ count is_setTimeout (snd r) = maxRetries
      /\ count is_errorFailed (snd r) = 1
      /\ exists pre err,
          snd r = (pre ++ [EErrorFailed index err; EPageClose index;
                           ESettle index true])%list).
Proof.
  intros r. split.
  - destruct (processQuery_trace path_join query index engine deviceName output delay
                                 useChrome quality pages)
      as (evs & b & Htr & _ & Hatt & _).
    subst r. rewrite Htr. unfold attempts in *. simpl.
    rewrite filter_app, length_app. simpl. unfold maxRetries in *. lia.
  - intros Hall.
    destruct (attempt_loop_all_caught path_join query index engine deviceName output
                delay useChrome quality (S maxRetries) pages
                {| retries := 0; success := false; trace := [ECall index query] |}
                eq_refl eq_refl Hall)
      as (evs & Hloop & Hatt & Hwarn & Hset & Hfail & Hlast).
    destruct (Hlast ltac:(unfold maxRetries; lia)) as (pre & err & Hevs).
    subst r. unfold processQuery. rewrite Hloop. cbn [fst snd trace].
    change attempts with (count is_newPage) in *.
    change (ECall index query :: evs) with ([ECall index query] ++ evs)%list.
    rewrite !count_app, Hatt, Hwarn, Hset, Hfail. unfold count, maxRetries. simpl.
    repeat (split; [reflexivity|]).
    exists (ECall index query :: pre), err. rewrite Hevs.
    cbn [app]. rewrite <- app_assoc. reflexivity.
Qed.

Lemma retry_budget_witness :
  let r := processQuery posix_join "foo" 0 "yahoo" "desktop" "out" (JsNumber.of_Z 1)
                        false (JsNumber.of_Z 80) (fun _ => page_failing_goto) in
  fst r = Normal tt /\ attempts (snd r) = 3 /\ count is_errorFailed (snd r) = 1.
Proof.
  intros r.
  destruct (retry_budget posix_join "foo" 0 "yahoo" "desktop" "out" (JsNumber.of_Z 1)
                         false (JsNumber.of_Z 80) (fun _ => page_failing_goto))
    as [_ H].
  destruct H as (Hn & Ha & _ & _ & Hf & _).
  - intros k. split; [reflexivity|].
    exists (PageError GotoOp). intros s. reflexivity.
  - repeat split; assumption.
Defined.

(** A context that cannot open a page: the one attempt throws, processQuery
    rejects, there is no retry and no report of the failure. *)
Lemma page_open_failure_is_not_retried :
  let r := processQuery posix_join "foo" 0 "yahoo" "desktop" "out" (JsNumber.of_Z 1)
                        false (JsNumber.of_Z 80) (fun _ => page_failing_open) in
  page_throws page_failing_open NewPageOp = true
  /\ r = (Throw (PageError NewPageOp), [ECall 0 "foo"; ENewPage 0; ESettle 0 false])
  /\ attempts (snd r) = 1
  /\ attempts (snd r) <> maxRetries + 1
  /\ count is_errorFailed (snd r) = 0.
Proof.
  vm_compute. repeat split; discriminate.
Qed.

(** ** CAPTCHA on a headless attempt *)





(** ** The batches *)

Lemma map_from_combine {A B : Type} (g : A -> nat -> B) (i : nat) (arr : list A) (k : nat) :
  JsArray.map_from (fun x j => g x (i + j)) arr k
  = List.map (fun p => g (snd p) (fst p)) (combine (seq (i + k) (length arr)) arr).
Proof.
  revert k; induction arr as [|x arr IH]; intros k; simpl; [reflexivity|].
  f_equal. rewrite IH. now rewrite Nat.add_succ_r.
Qed.

Lemma skipn_indexed_from {A : Type} (l : list A) (s i : nat) :
  skipn i (combine (seq s (length l)) l)
  = combine (seq (s + i) (length (skipn i l))) (skipn i l).
Proof.
  revert s i; induction l as [|x l IH]; intros s [|i]; simpl;
    rewrite ?Nat.add_0_r; try reflexivity.
  rewrite IH. now rewrite Nat.add_succ_r.
Qed.

Lemma firstn_indexed_from {A : Type} (l : list A) (s m : nat) :
  firstn m (combine (seq s (length l)) l)
  = combine (seq s (length (firstn m l))) (firstn m l).
Proof.
  revert s m; induction l as [|x l IH]; intros s [|m]; simpl; try reflexivity.
  now rewrite IH.
Qed.

Lemma slice_indexed (queries : list string) (i j : nat) :
  JsArray.slice (indexed queries) i j
  = combine (seq i (length (JsArray.slice queries i j))) (JsArray.slice queries i j).
Proof.
  unfold JsArray.slice, indexed.
  rewrite skipn_indexed_from, firstn_indexed_from. reflexivity.
Qed.

Section BatchFacts.

Variable path_join : string -> string -> string.
Variables (env : RunEnv) (queries : list string) (engine deviceName outputDir : string)
            (delay : JsNumber.t) (useChrome : bool) (quality : JsNumber.t).

Local Abbreviation bs := (batchSize useChrome).
Local Abbreviation bp :=
    (batchPromises path_join env queries engine deviceName outputDir delay useChrome quality).
Local Abbreviation pb :=
    (process_batches path_join env queries engine deviceName outputDir delay useChrome
                     quality).

Local Abbreviation task :=
    (call_task path_join env engine deviceName outputDir delay useChrome quality).

Lemma batchSize_bounds : 1 <= bs <= 3.
Proof. unfold batchSize. destruct useChrome; lia. Qed.

Lemma batchPromises_map (i : nat) :
    bp i = List.map task (JsArray.slice (indexed queries) i (i + bs)).
Proof.
    unfold batchPromises, JsArray.map.
    rewrite (map_from_combine
               (fun q j => processQuery path_join q j engine deviceName outputDir delay
                                        useChrome quality (pages_of env j)) i).
    rewrite Nat.add_0_r, slice_indexed. reflexivity.
Qed.

Lemma batchPromises_length (i : nat) :
    length (bp i) = Nat.min bs (length queries - i).
Proof.
    rewrite batchPromises_map, length_map. unfold JsArray.slice, indexed.
    rewrite length_firstn, length_skipn, length_combine, length_seq.
    replace (i + bs - i) with bs by lia. lia.
Qed.

Lemma calls_no_attempt_events (evs : list Event) :
    forallb (fun e => is_newPage e || is_attempt_event e) evs = true ->
    calls evs = [] /\ forall j, settled j evs = false.
Proof.
    induction evs as [|e evs IH]; simpl; [auto|].
    intros H; apply andb_prop in H as [He Hevs]. destruct (IH Hevs) as [Hc Hs].
    unfold calls in *. simpl. rewrite Hc. split.
    - destruct e; simpl in *; try discriminate; reflexivity.
    - intros j. unfold settled in *. simpl. rewrite Hs.
      destruct e; simpl in *; try discriminate; reflexivity.
Qed.

Lemma task_calls (p : nat * string) :
    calls (snd (task p)) = [p]
    /\ settled (fst p) (snd (task p)) = true
    /\ (forall j, settled j (snd (task p)) = true -> j = fst p).
Proof.
    destruct p as [j q]. unfold task. simpl fst; simpl snd.
    destruct (processQuery_trace path_join q j engine deviceName outputDir delay
                                 useChrome quality (pages_of env j))
      as (evs & b & Htr & Hev & _).
    rewrite Htr. destruct (calls_no_attempt_events evs Hev) as [Hc Hs].
    unfold calls, settled in *. simpl.
    rewrite flat_map_app, existsb_app, Hc. simpl. rewrite Nat.eqb_refl, orb_true_r.
    repeat split. intros j'. rewrite existsb_app, (Hs j'). simpl.
    rewrite orb_false_r. intros H. now apply Nat.eqb_eq in H.
Qed.

  (** The calls of the batch that starts at [i] are the indexed queries from
      [i] on, at most [batchSize] of them, in order. *)
Lemma batch_calls (i : nat) :
    flat_map calls (List.map snd (bp i)) = JsArray.slice (indexed queries) i (i + bs).
Proof.
    rewrite batchPromises_map, map_map.
    induction (JsArray.slice (indexed queries) i (i + bs)) as [|p l IH]; simpl;
      [reflexivity|].
    rewrite IH. now destruct (task_calls p) as [-> _].
Qed.

  (** The loop over the batches, unfolded once. *)
Lemma process_batches_eq (i : nat) (tr : list Item) :
    pb i tr =
    if (i <? length queries)%nat then
      match Promise_all (List.map fst (bp i)) with
      | Throw err => (Throw err, (tr ++ [Concurrent (List.map snd (bp i))])%list)
      | _ => pb (i + bs) (tr ++ [Concurrent (List.map snd (bp i))])%list
      end
    else (Normal tt, tr).
Proof.
    funelim (pb i tr);
      repeat match goal with
        | H : (_ <? _)%nat = _ |- context [(_ <? _)%nat] => rewrite H
        | H : Promise_all _ = _ |- context [Promise_all _] => rewrite H
        end; reflexivity.
Qed.

Lemma Promise_all_cases (results : list (Completion unit)) :
    Promise_all results = Normal tt \/ exists err, Promise_all results = Throw err.
Proof.
    induction results as [|[[]| |err] results IH]; simpl; auto. right. now exists err.
Qed.

Local Abbreviation nth_batch' :=
    (nth_batch path_join env queries engine deviceName outputDir delay useChrome quality).

  (** The loop runs some number [k] of batches, each starting below the number
      of queries; all but the last are fulfilled; it completes normally when
      the last is fulfilled too and the queries are used up, and throws when a
      call of the last batch rejects. *)
Lemma process_batches_shape (i : nat) (tr : list Item) :
    exists k,
      snd (pb i tr) = (tr ++ List.map (nth_batch' i) (seq 0 k))%list
      /\ (forall m, m < k -> i + m * bs < length queries)
      /\ (forall m, S m < k -> Promise_all (List.map fst (bp (i + m * bs))) = Normal tt)
      /\ match fst (pb i tr) with
         | Normal _ =>
             length queries <= i + k * bs
             /\ forall m, m < k -> Promise_all (List.map fst (bp (i + m * bs))) = Normal tt
         | Throw err =>
             1 <= k /\ Promise_all (List.map fst (bp (i + (k - 1) * bs))) = Throw err
         | Continue => False
         end.
Proof.
    remember (length queries - i) as d eqn:Hd.
    revert i tr Hd. induction d as [d IH] using lt_wf_ind. intros i tr Hd.
    rewrite process_batches_eq.
    destruct (Nat.ltb_spec i (length queries)) as [Hlt|Hge].
    2:{ exists 0. simpl. rewrite app_nil_r.
        split; [reflexivity|]. split; [intros; lia|]. split; [intros; lia|].
        split; [lia|intros; lia]. }
    pose proof batchSize_bounds as Hbs.
    destruct (Promise_all_cases (List.map fst (bp i))) as [Hall|[err Hall]].
    - rewrite Hall.
      destruct (IH (length queries - (i + bs)) ltac:(lia) (i + bs)
                   (tr ++ [Concurrent (List.map snd (bp i))])%list eq_refl)
        as (k & Htr & Hlo & Hbefore & Hend).
      exists (S k).
      assert (Hshift : forall m, i + bs + m * bs = i + S m * bs) by (intros; simpl; lia).
      split.
      { rewrite Htr, <- app_assoc. f_equal. simpl. unfold nth_batch at 2.
        simpl. rewrite Nat.add_0_r. f_equal.
        rewrite <- seq_shift, map_map. apply map_ext. intros m.
        unfold nth_batch. now rewrite Hshift. }
      split.
      { intros [|m] Hm; [simpl; lia|]. rewrite <- Hshift. apply Hlo. lia. }
      split.
      { intros [|m] Hm; [simpl; rewrite Nat.add_0_r; exact Hall|].
        rewrite <- Hshift. apply Hbefore. lia. }
      destruct (fst (pb (i + bs) _)) as [[]| |err].
      + destruct Hend as [Hn Hok]. split; [simpl; lia|].
        intros [|m] Hm; [simpl; rewrite Nat.add_0_r; exact Hall|].
        rewrite <- Hshift. apply Hok. lia.
      + exact Hend.
      + destruct Hend as [Hk Herr]. split; [lia|].
        replace (S k - 1) with (S (k - 1)) by lia. now rewrite <- Hshift.
    - rewrite Hall. exists 1. simpl. unfold nth_batch. simpl.
      rewrite Nat.add_0_r.
      split; [reflexivity|]. split; [intros; lia|]. split; [intros; lia|].
      split; [lia|exact Hall].
Qed.

End BatchFacts.

(** ** generateSearchScreenshots as a whole *)

Section RunFacts.

Variable path_join : string -> string -> string.

Local Abbreviation gen := (generateSearchScreenshots path_join).
Local Abbreviation setup_events' := (setup_events path_join).
Local Abbreviation run_batches' := (run_batches path_join).

  (** The loop over the batches only appends to the trace it is given. *)
Lemma process_batches_frame
        (env : RunEnv) (queries : list string) (engine deviceName outputDir : string)
        (delay : JsNumber.t) (useChrome : bool) (quality : JsNumber.t)
        (i : nat) (tr0 tr : list Item) :
    process_batches path_join env queries engine deviceName outputDir delay useChrome
                    quality i (tr0 ++ tr)
    = (fst (process_batches path_join env queries engine deviceName outputDir delay
                            useChrome quality i tr),
       (tr0 ++ snd (process_batches path_join env queries engine deviceName outputDir
                                    delay useChrome quality i tr))%list).
Proof.
    remember (length queries - i) as d eqn:Hd.
    revert i tr Hd. induction d as [d IH] using lt_wf_ind. intros i tr Hd.
    rewrite (process_batches_eq _ _ _ _ _ _ _ _ _ i (tr0 ++ tr)).
    rewrite (process_batches_eq _ _ _ _ _ _ _ _ _ i tr).
    destruct (Nat.ltb_spec i (length queries)) as [Hlt|Hge]; [|reflexivity].
    assert (Hbs : 1 <= batchSize useChrome <= 3)
      by (unfold batchSize; destruct useChrome; lia).
    destruct (Promise_all _) as [[]| |err]; simpl;
      rewrite <- ?app_assoc; try reflexivity;
      apply (IH (length queries - (i + batchSize useChrome))); lia.
Qed.

Lemma process_batches_from_empty (env : RunEnv) (a : Args) (tr : list Item) :
    process_batches path_join env (queries_of env a) (engine a) (deviceName_of (mode a))
                    (outputDir_of path_join env a) (delay a) (useChrome a) (quality a)
                    0 tr
    = (fst (run_batches' env a), (tr ++ snd (run_batches' env a))%list).
Proof.
    unfold run_batches. rewrite <- (app_nil_r tr) at 1. apply process_batches_frame.
Qed.

Lemma teardown_frame (env : RunEnv) (a : Args) (tr : list Item) :
    teardown env a tr
    = (fst (teardown env a []), (tr ++ snd (teardown env a []))%list).
Proof.
    unfold teardown, bind, run_await, ret.
    destruct (run_throws env ContextCloseOp); simpl; [reflexivity|].
    destruct (negb (useChrome a)); simpl; [|reflexivity].
    destruct (run_throws env BrowserCloseOp); simpl; rewrite <- app_assoc; reflexivity.
Qed.

  (** The closing statements: the context is closed first; the browser is
      closed after it when the flag is off. *)
Lemma teardown_cases (env : RunEnv) (a : Args) :
    (run_throws env ContextCloseOp = true
     /\ teardown env a [] = (Throw (RunError ContextCloseOp), [Step EContextClose]))
    \/ (run_throws env ContextCloseOp = false /\ useChrome a = true
        /\ teardown env a [] = (Normal tt, [Step EContextClose]))
    \/ (run_throws env ContextCloseOp = false /\ useChrome a = false
        /\ snd (teardown env a []) = [Step EContextClose; Step EBrowserClose]
        /\ fst (teardown env a [])
           = if run_throws env BrowserCloseOp then Throw (RunError BrowserCloseOp)
             else Normal tt).
Proof.
    unfold teardown, bind, run_await, ret.
    destruct (run_throws env ContextCloseOp); simpl; [now left|].
    destruct (useChrome a); simpl; [right; left; auto|].
    right; right. destruct (run_throws env BrowserCloseOp); simpl; auto.
Qed.

  (** A run whose session is created: the set-up steps, then the batches,
      then, if no call of a batch rejected, the closing steps. *)
Lemma gen_eq (env : RunEnv) (a : Args) (tr : list Item) :
    setup_ok env a = true ->
    gen env a tr
    = match run_batches' env a with
      | (Normal _, items) =>
          (fst (teardown env a []),
           (tr ++ List.map Step (setup_events' env a) ++ items
               ++ snd (teardown env a []))%list)
      | (c, items) => (c, (tr ++ List.map Step (setup_events' env a) ++ items)%list)
      end.
Proof.
    unfold setup_ok, setup_ops, setup_events, generateSearchScreenshots,
      acquire_context.
    destruct (shouldUseChrome a); cbn [forallb app];
      rewrite !andb_true_iff, !negb_true_iff;
      intros (H1 & H2 & H3 & H4 & H5 & _);
      unfold bind, run_await; rewrite H1, H2, H3, H4, H5; cbv beta iota;
      change (collect_queries (resolve_queryColIndex (csv_headers env) (column a))
                              (csv_rows env)) with (queries_of env a);
      rewrite process_batches_from_empty;
      destruct (run_batches' env a) as [[[]| |err] items]; cbn [fst snd];
      try match goal with
        | |- context [teardown env a ?t] => rewrite (teardown_frame env a t)
        end;
      cbn [List.map app]; rewrite <- ?app_assoc; reflexivity.
Qed.

  (** A run whose session cannot be created throws before any batch, and
      without closing anything. *)
Lemma gen_setup_fails (env : RunEnv) (a : Args) :
    setup_ok env a = false ->
    exists j op,
      In op (setup_ops a) /\ 1 <= j
      /\ forall tr,
          gen env a tr
          = (Throw (RunError op),
             (tr ++ List.map Step (firstn j (setup_events' env a)))%list).
Proof.
    unfold setup_ok, setup_ops, setup_events, generateSearchScreenshots,
      acquire_context.
    destruct (shouldUseChrome a); cbn [forallb app]; intros Hfail.
    - destruct (run_throws env MkdirOutputOp) eqn:H1;
        [exists 1, MkdirOutputOp; split; [cbn; tauto|]; split; [lia|];
         intros tr; unfold bind, run_await; rewrite H1; reflexivity|].
      destruct (run_throws env ReadHeadersOp) eqn:H2;
        [exists 2, ReadHeadersOp; split; [cbn; tauto|]; split; [lia|];
         intros tr; unfold bind, run_await; rewrite H1, H2; cbn [firstn List.map];
         rewrite <- !app_assoc; reflexivity|].
      destruct (run_throws env ReadRowsOp) eqn:H3;
        [exists 3, ReadRowsOp; split; [cbn; tauto|]; split; [lia|];
         intros tr; unfold bind, run_await; rewrite H1, H2, H3; cbn [firstn List.map];
         rewrite <- !app_assoc; reflexivity|].
      destruct (run_throws env MkdirProfileOp) eqn:H4;
        [exists 4, MkdirProfileOp; split; [cbn; tauto|]; split; [lia|];
         intros tr; unfold bind, run_await; rewrite H1, H2, H3, H4;
         cbn [firstn List.map]; rewrite <- !app_assoc; reflexivity|].
      destruct (run_throws env LaunchPersistentOp) eqn:H5;
        [exists 5, LaunchPersistentOp; split; [cbn; tauto|]; split; [lia|];
         intros tr; unfold bind, run_await; rewrite H1, H2, H3, H4, H5;
         cbn [firstn List.map]; rewrite <- !app_assoc; reflexivity|].
      discriminate Hfail.
    - destruct (run_throws env MkdirOutputOp) eqn:H1;
        [exists 1, MkdirOutputOp; split; [cbn; tauto|]; split; [lia|];
         intros tr; unfold bind, run_await; rewrite H1; reflexivity|].
      destruct (run_throws env ReadHeadersOp) eqn:H2;
        [exists 2, ReadHeadersOp; split; [cbn; tauto|]; split; [lia|];
         intros tr; unfold bind, run_await; rewrite H1, H2; cbn [firstn List.map];
         rewrite <- !app_assoc; reflexivity|].
      destruct (run_throws env ReadRowsOp) eqn:H3;
        [exists 3, ReadRowsOp; split; [cbn; tauto|]; split; [lia|];
         intros tr; unfold bind, run_await; rewrite H1, H2, H3; cbn [firstn List.map];
         rewrite <- !app_assoc; reflexivity|].
      destruct (run_throws env LaunchOp) eqn:H4;
        [exists 4, LaunchOp; split; [cbn; tauto|]; split; [lia|];
         intros tr; unfold bind, run_await; rewrite H1, H2, H3, H4;
         cbn [firstn List.map]; rewrite <- !app_assoc; reflexivity|].
      destruct (run_throws env NewContextOp) eqn:H5;
        [exists 5, NewContextOp; split; [cbn; tauto|]; split; [lia|];
         intros tr; unfold bind, run_await; rewrite H1, H2, H3, H4, H5;
         cbn [firstn List.map]; rewrite <- !app_assoc; reflexivity|].
      discriminate Hfail.
Qed.

  (** The first thing a run does is to make its output directory. *)
Lemma gen_first_step (env : RunEnv) (a : Args) :
    exists rest,
      snd (gen env a []) = Step (EMkdir (outputDir_of path_join env a)) :: rest.
Proof.
    destruct (setup_ok env a) eqn:Hsetup.
    - rewrite (gen_eq env a [] Hsetup).
      destruct (run_batches' env a) as [[[]| |err] items]; cbn [snd app];
        unfold setup_events; cbn [List.map app]; eexists; reflexivity.
    - destruct (gen_setup_fails env a Hsetup) as (j & op & _ & Hj & Hrun).
      rewrite (Hrun []). destruct j as [|j]; [lia|].
      unfold setup_events. cbn [snd app firstn List.map]. eexists; reflexivity.
Qed.

  (** A run only appends to the trace it is given. *)
Lemma gen_frame (env : RunEnv) (a : Args) (tr : list Item) :
    gen env a tr = (fst (gen env a []), (tr ++ snd (gen env a []))%list).
Proof.
    destruct (setup_ok env a) eqn:Hsetup.
    - rewrite (gen_eq env a tr Hsetup), (gen_eq env a [] Hsetup).
      destruct (run_batches' env a) as [[[]| |err] items]; reflexivity.
    - destruct (gen_setup_fails env a Hsetup) as (j & op & _ & _ & Hrun).
      rewrite (Hrun tr), (Hrun []). reflexivity.
Qed.

End RunFacts.

(** ** The shape of the trace of a run *)

Lemma batches_app (items1 items2 : list Item) :
  batches (items1 ++ items2) = (batches items1 ++ batches items2)%list.
Proof. apply flat_map_app. Qed.

Lemma batches_steps (evs : list Event) : batches (List.map Step evs) = [].
Proof. induction evs; simpl; auto. Qed.

Lemma firstn_add {A : Type} (a b : nat) (l : list A) :
  firstn (a + b) l = (firstn a l ++ firstn b (skipn a l))%list.
Proof.
  revert l; induction a as [|a IH]; intros [|x l]; simpl; auto.
  - now rewrite firstn_nil.
  - now rewrite IH.
Qed.

Lemma in_firstn {A : Type} (n : nat) (l : list A) (x : A) :
  In x (firstn n l) -> In x l.
Proof.
  intros H. rewrite <- (firstn_skipn n l). apply in_or_app. now left.
Qed.

(** Consecutive slices of a fixed width make up a prefix of the array. *)
Lemma slices_concat {A : Type} (l : list A) (w k : nat) :
  flat_map (fun m => JsArray.slice l (m * w) (m * w + w)) (seq 0 k) = firstn (k * w) l.
Proof.
  induction k as [|k IH]; [reflexivity|].
  rewrite seq_S, flat_map_app, IH. simpl. rewrite app_nil_r.
  unfold JsArray.slice. replace (k * w + w - k * w) with w by lia.
  replace (w + k * w) with (k * w + w) by lia. now rewrite firstn_add.
Qed.

Section RunShape.

Variable path_join : string -> string -> string.
Variables (env : RunEnv) (a : Args).

Local Abbreviation run := (generateSearchScreenshots path_join env a []).
Local Abbreviation setup := (setup_events path_join env a).
Local Abbreviation queries := (queries_of env a).
Local Abbreviation size := (batchSize (useChrome a)).
Local Abbreviation promises :=
    (batchPromises path_join env (queries_of env a) (engine a) (deviceName_of (mode a))
                   (outputDir_of path_join env a) (delay a) (useChrome a) (quality a)).
Local Abbreviation batch :=
    (nth_batch path_join env (queries_of env a) (engine a) (deviceName_of (mode a))
               (outputDir_of path_join env a) (delay a) (useChrome a) (quality a) 0).

  (** The trace of a run: set-up steps, then batches, then closing steps. *)
Lemma run_shape :
    exists j k tail,
      snd run = (List.map Step (firstn j setup) ++ List.map batch (seq 0 k)
                   ++ List.map Step tail)%list
      /\ (forall m, m < k -> m * size < length queries)
      /\ (forall m, S m < k -> Promise_all (List.map fst (promises (m * size))) = Normal tt)
      /\ ((setup_ok env a = false /\ k = 0 /\ tail = []
           /\ exists op, fst run = Throw (RunError op) /\ In op (setup_ops a))
          \/ (setup_ok env a = true /\ firstn j setup = setup
              /\ ((exists err,
                      fst run = Throw err /\ tail = [] /\ 1 <= k
                      /\ Promise_all (List.map fst (promises ((k - 1) * size))) = Throw err)
                  \/ (length queries <= k * size
                      /\ (forall m, m < k ->
                            Promise_all (List.map fst (promises (m * size))) = Normal tt)
                      /\ snd (teardown env a []) = List.map Step tail
                      /\ fst run = fst (teardown env a []))))).
Proof.
    destruct (setup_ok env a) eqn:Hsetup.
    - rewrite (gen_eq path_join env a [] Hsetup).
      destruct (process_batches_shape path_join env queries (engine a)
                  (deviceName_of (mode a)) (outputDir_of path_join env a) (delay a)
                  (useChrome a) (quality a) 0 []) as (k & Htr & Hlo & Hbefore & Hend).
      fold (run_batches path_join env a) in Htr, Hend.
      destruct (run_batches path_join env a) as [c items]. simpl in Htr, Hend. subst items.
      exists (length setup), k.
      destruct c as [[]| |err].
      + destruct Hend as [Hn Hok].
        destruct (teardown_cases env a) as [[_ Htd]|[(_ & _ & Htd)|(_ & _ & Htd & Hc)]].
        * exists [EContextClose]. rewrite Htd. cbn [fst snd app]. rewrite firstn_all.
          split; [reflexivity|]. split; [exact Hlo|]. split; [exact Hbefore|].
          right. split; [reflexivity|]. split; [reflexivity|]. right. auto.
        * exists [EContextClose]. rewrite Htd. cbn [fst snd app]. rewrite firstn_all.
          split; [reflexivity|]. split; [exact Hlo|]. split; [exact Hbefore|].
          right. split; [reflexivity|]. split; [reflexivity|]. right. auto.
        * exists [EContextClose; EBrowserClose]. rewrite Htd. cbn [fst snd app].
          rewrite firstn_all.
          split; [reflexivity|]. split; [exact Hlo|]. split; [exact Hbefore|].
          right. split; [reflexivity|]. split; [reflexivity|]. right. auto.
      + contradiction.
      + destruct Hend as [Hk Herr]. exists []. cbn [fst snd app List.map].
        rewrite firstn_all, app_nil_r.
        split; [reflexivity|]. split; [exact Hlo|]. split; [exact Hbefore|].
        right. split; [reflexivity|]. split; [reflexivity|]. left. exists err. auto.
    - destruct (gen_setup_fails path_join env a Hsetup) as (j & op & Hop & _ & Hrun).
      exists j, 0, []. rewrite (Hrun []). cbn [fst snd app List.map seq]. rewrite app_nil_r.
      split; [reflexivity|]. split; [intros; lia|]. split; [intros; lia|].
      left. split; [reflexivity|]. split; [reflexivity|]. split; [reflexivity|].
      now exists op.
Qed.

Lemma setup_events_not_requests :
    forallb (fun e => negb (is_request_event e)) setup = true.
Proof. unfold setup_events. destruct (shouldUseChrome a); reflexivity. Qed.

Lemma batch_ok (m : nat) : item_ok size (batch m).
Proof.
    unfold nth_batch. simpl. split.
    - rewrite length_map, batchPromises_length. lia.
    - rewrite batchPromises_map, map_map. apply Forall_map, Forall_forall.
      intros p _. exists p.
      destruct (task_calls path_join env (engine a) (deviceName_of (mode a))
                           (outputDir_of path_join env a) (delay a) (useChrome a)
                           (quality a) p) as (Hc & Hs & _).
      now split.
Qed.

  (** Every item of the trace of a run is sound for the batch size. *)
Lemma run_items_ok : Forall (item_ok size) (snd run).
Proof.
    destruct run_shape as (j & k & tail & Htr & _ & _ & Hcases).
    rewrite Htr. apply Forall_app. split; [|apply Forall_app; split].
    - apply Forall_map, Forall_forall. intros e He. simpl.
      pose proof setup_events_not_requests as Hs. rewrite forallb_forall in Hs.
      apply negb_true_iff, Hs. eapply in_firstn; exact He.
    - apply Forall_map, Forall_forall. intros m _. apply batch_ok.
    - apply Forall_map, Forall_forall. intros e He. simpl.
      destruct Hcases as [(_ & _ & -> & _)|(_ & _ & [(err & _ & -> & _)|(_ & _ & Htd & _)])];
        try contradiction.
      destruct (teardown_cases env a) as [[_ H]|[(_ & _ & H)|(_ & _ & H & _)]];
        rewrite H in Htd; simpl in Htd.
      + destruct tail as [|e1 [|e2 tail]]; try discriminate. injection Htd as <-.
        destruct He as [<-|[]]. reflexivity.
      + destruct tail as [|e1 [|e2 tail]]; try discriminate. injection Htd as <-.
        destruct He as [<-|[]]. reflexivity.
      + destruct tail as [|e1 [|e2 [|e3 tail]]]; try discriminate.
        injection Htd as <- <-. destruct He as [<-|[<-|[]]]; reflexivity.
Qed.

  (** The batches of the trace of a run. *)
Lemma run_batches_of_trace :
    exists k,
      batches (snd run) = List.map (fun m => List.map snd (promises (m * size))) (seq 0 k)
      /\ (forall m, m < k -> m * size < length queries)
      /\ (fst run = Normal tt -> length queries <= k * size).
Proof.
    destruct run_shape as (j & k & tail & Htr & Hlo & _ & Hcases).
    exists k. rewrite Htr, !batches_app, !batches_steps, app_nil_r. simpl.
    split.
    { clear. induction (seq 0 k) as [|m l IH]; [reflexivity|]. simpl. now rewrite IH. }
    split; [exact Hlo|]. intros Hnormal.
    destruct Hcases as [(_ & _ & _ & op & Hop & _)|(_ & _ & [(err & Herr & _)|(Hn & _)])];
      [congruence|congruence|exact Hn].
Qed.

End RunShape.

(** ** Interleavings and calls in flight *)

Lemma interleaving_in (tasks : list (list Event)) (tr : list Event) :
  Interleaving tasks tr ->
  forall e, In e tr <-> exists t, In t tasks /\ In e t.
Proof.
  induction 1 as [tasks Hnil|before e0 t after tr _ IH]; intros e.
  - split; [intros []|]. intros (t & Ht & He).
    rewrite Forall_forall in Hnil. rewrite (Hnil t Ht) in He. destruct He.
  - simpl. rewrite IH. split.
    + intros [<-|(t' & Ht' & He)].
      * exists (e0 :: t). split; [apply in_elt|now left].
      * apply in_app_or in Ht' as [Hb|[<-|Ha]].
        -- exists t'. split; [apply in_or_app; now left|exact He].
        -- exists (e0 :: t). split; [apply in_elt|now right].
        -- exists t'. split; [apply in_or_app; right; now right|exact He].
    + intros (t' & Ht' & He).
      apply in_app_or in Ht' as [Hb|[<-|Ha]].
      * right. exists t'. split; [apply in_or_app; now left|exact He].
      * destruct He as [<-|He]; [now left|].
        right. exists t. split; [apply in_elt|exact He].
      * right. exists t'. split; [apply in_or_app; right; now right|exact He].
Qed.

Lemma calls_app (a b : list Event) : calls (a ++ b) = (calls a ++ calls b)%list.
Proof. apply flat_map_app. Qed.

Lemma calls_cons (e : Event) (tr : list Event) :
  calls (e :: tr) = (call_of e ++ calls tr)%list.
Proof. reflexivity. Qed.

Lemma settled_app (i : nat) (a b : list Event) :
  settled i (a ++ b) = settled i a || settled i b.
Proof. apply existsb_app. Qed.

Lemma in_calls (c : nat * string) (tr : list Event) :
  In c (calls tr) <-> In (ECall (fst c) (snd c)) tr.
Proof.
  unfold calls. rewrite in_flat_map. split.
  - intros (e & He & Hc). destruct e; simpl in Hc; try contradiction.
    destruct Hc as [<-|[]]. exact He.
  - intros H. exists (ECall (fst c) (snd c)). split; [exact H|].
    simpl. left. now destruct c.
Qed.

Lemma settled_in (i : nat) (tr : list Event) :
  settled i tr = true <-> exists b, In (ESettle i b) tr.
Proof.
  unfold settled. rewrite existsb_exists. split.
  - intros (e & He & Hs). destruct e; simpl in Hs; try discriminate.
    apply Nat.eqb_eq in Hs. subst. now exists fulfilled.
  - intros (b & Hb). exists (ESettle i b). split; [exact Hb|]. simpl.
    apply Nat.eqb_refl.
Qed.

(** The calls of an interleaving are as many as the calls of its tasks. *)
Lemma interleaving_calls_length (tasks : list (list Event)) (tr : list Event) :
  Interleaving tasks tr -> length (calls tr) = length (flat_map calls tasks).
Proof.
  induction 1 as [tasks Hnil|before e0 t after tr _ IH].
  - simpl. induction Hnil as [|t tasks Ht _ IH]; [reflexivity|].
    simpl. subst t. simpl. exact IH.
  - rewrite calls_cons, length_app, IH.
    rewrite !flat_map_app, !length_app. cbn [flat_map].
    rewrite !length_app, calls_cons, length_app. lia.
Qed.

Lemma tasks_calls_length (tasks : list (list Event)) :
  Forall task_ok tasks -> length (flat_map calls tasks) = length tasks.
Proof.
  induction 1 as [|t tasks (c & Hc & _) _ IH]; [reflexivity|].
  simpl. rewrite length_app, Hc, IH. reflexivity.
Qed.

(** When every task opens with its one call and settles it, every
    interleaving of the tasks has all its calls settled. *)
Lemma interleaving_all_settled (tasks : list (list Event)) (tr : list Event) :
  Forall task_ok tasks -> Interleaving tasks tr -> all_settled tr.
Proof.
  intros Hok Hint c Hc.
  apply in_calls in Hc. apply (interleaving_in _ _ Hint) in Hc as (t & Ht & Hc).
  rewrite Forall_forall in Hok. destruct (Hok t Ht) as (c' & Hcalls & Hset).
  apply in_calls in Hc. rewrite Hcalls in Hc. destruct Hc as [<-|[]].
  apply settled_in in Hset as (b & Hb). apply settled_in. exists b.
  apply (interleaving_in _ _ Hint). now exists t.
Qed.

Lemma filter_length_le {A : Type} (p : A -> bool) (l : list A) :
  length (filter p l) <= length l.
Proof. induction l as [|x l IH]; simpl; [lia|]. destruct (p x); simpl; lia. Qed.

Lemma filter_length_mono {A : Type} (p q : A -> bool) (l : list A) :
  (forall x, p x = true -> q x = true) ->
  length (filter p l) <= length (filter q l).
Proof.
  intros H. induction l as [|x l IH]; simpl; [lia|].
  destruct (p x) eqn:Hp.
  - rewrite (H x Hp). simpl. lia.
  - destruct (q x); simpl; lia.
Qed.

Lemma filter_none {A : Type} (p : A -> bool) (l : list A) :
  (forall x, In x l -> p x = false) -> filter p l = [].
Proof.
  intros H. induction l as [|x l IH]; simpl; [reflexivity|].
  rewrite (H x (or_introl eq_refl)). apply IH. intros y Hy. apply H. now right.
Qed.

Lemma in_flight_le_calls (tr : list Event) : in_flight tr <= length (calls tr).
Proof. apply filter_length_le. Qed.

Lemma all_settled_in_flight (tr : list Event) : all_settled tr -> in_flight tr = 0.
Proof.
  intros H. unfold in_flight. rewrite filter_none; [reflexivity|].
  intros c Hc. now rewrite (H c Hc).
Qed.

(** What follows a trace with all calls settled has in flight only its own
    calls. *)
Lemma in_flight_after_settled (tr1 tr2 : list Event) :
  all_settled tr1 -> in_flight (tr1 ++ tr2) <= in_flight tr2.
Proof.
  intros H. unfold in_flight. rewrite calls_app, filter_app, length_app.
  rewrite filter_none.
  - simpl. apply filter_length_mono. intros c. rewrite settled_app.
    destruct (settled (fst c) tr2); [rewrite orb_true_r; discriminate|reflexivity].
  - intros c Hc. rewrite settled_app, (H c Hc). reflexivity.
Qed.

Lemma all_settled_app (tr1 tr2 : list Event) :
  all_settled tr1 -> all_settled tr2 -> all_settled (tr1 ++ tr2).
Proof.
  intros H1 H2 c Hc. rewrite calls_app in Hc. rewrite settled_app.
  apply in_app_or in Hc as [Hc|Hc]; [rewrite (H1 c Hc)|rewrite (H2 c Hc)];
    auto using orb_true_r.
Qed.

Lemma in_flight_step (e : Event) (tr : list Event) :
  is_request_event e = false -> in_flight (e :: tr) = in_flight tr.
Proof.
  intros He. unfold in_flight.
  assert (Hc : calls (e :: tr) = calls tr) by (destruct e; try discriminate; reflexivity).
  rewrite Hc. f_equal. apply filter_ext. intros c. f_equal.
  unfold settled. simpl. destruct e; try discriminate; reflexivity.
Qed.

Lemma all_settled_step (e : Event) (tr : list Event) :
  is_request_event e = false -> all_settled tr -> all_settled (e :: tr).
Proof.
  intros He H c Hc.
  assert (Hcalls : calls (e :: tr) = calls tr)
    by (destruct e; try discriminate; reflexivity).
  rewrite Hcalls in Hc. change (e :: tr) with ([e] ++ tr)%list.
  rewrite settled_app, (H c Hc). apply orb_true_r.
Qed.

(** Every linearisation of a run of sound items has all its calls settled
    at its end. *)
Lemma linearises_all_settled (n : nat) (items : list Item) (tr : list Event) :
  Forall (item_ok n) items -> Linearises items tr -> all_settled tr.
Proof.
  intros Hok Hlin. induction Hlin as [|e items tr _ IH|tasks items tr1 tr2 Hint _ IH].
  - intros c [].
  - inversion Hok; subst. apply all_settled_step; auto.
  - inversion Hok as [|? ? Hit Hrest]; subst. destruct Hit as [_ Htasks].
    apply all_settled_app; [eapply interleaving_all_settled; eauto|auto].
Qed.

(** At no point of a linearisation are more than [n] calls in flight. *)
Lemma linearises_in_flight (n : nat) (items : list Item) (tr : list Event) :
  Forall (item_ok n) items -> Linearises items tr ->
  forall p s, tr = (p ++ s)%list -> in_flight p <= n.
Proof.
  intros Hok Hlin. induction Hlin as [|e items tr _ IH|tasks items tr1 tr2 Hint _ IH];
    intros p s Hps.
  - symmetry in Hps. apply app_eq_nil in Hps as [-> _]. unfold in_flight. simpl. lia.
  - inversion Hok as [|? ? He Hrest]; subst. destruct p as [|e' p].
    + unfold in_flight. simpl. lia.
    + simpl in Hps. injection Hps as <- Hps. simpl in He.
      rewrite in_flight_step by exact He. now apply (IH Hrest p s).
  - inversion Hok as [|? ? Hit Hrest]; subst. destruct Hit as [Hlen Htasks].
    symmetry in Hps. apply app_eq_app in Hps as (r & [[-> ->]|[-> ->]]).
    + etransitivity; [apply in_flight_after_settled|].
      * eapply interleaving_all_settled; eauto.
      * now apply (IH Hrest r s).
    + etransitivity; [apply in_flight_le_calls|].
      assert (Hle : length (calls p) <= length (calls (p ++ r)))
        by (rewrite calls_app, length_app; lia).
      rewrite (interleaving_calls_length _ _ Hint), (tasks_calls_length _ Htasks) in Hle.
      lia.
Qed.

Lemma linearises_app (items1 items2 : list Item) (tr : list Event) :
  Linearises (items1 ++ items2) tr <->
  exists tr1 tr2, tr = (tr1 ++ tr2)%list /\ Linearises items1 tr1 /\ Linearises items2 tr2.
Proof.
  split.
  - revert tr; induction items1 as [|it items1 IH]; intros tr H; simpl in H.
    + exists [], tr. repeat split; [constructor|exact H].
    + inversion H as [|e its tr' Hrest|tasks its tr1 tr2 Hint Hrest]; subst.
      * destruct (IH _ Hrest) as (l1 & l2 & -> & H1 & H2).
        exists (e :: l1), l2. repeat split; [now constructor|exact H2].
      * destruct (IH _ Hrest) as (l1 & l2 & -> & H1 & H2).
        exists (tr1 ++ l1)%list, l2. rewrite app_assoc.
        repeat split; [now constructor|exact H2].
  - intros (tr1 & tr2 & -> & H1 & H2).
    induction H1 as [|e its tr' _ IH|tasks its l1 l2 Hint _ IH]; simpl.
    + exact H2.
    + now constructor.
    + rewrite <- app_assoc. now constructor.
Qed.

(** The run in program order, one call after the other, is one of the
    linearisations. *)
Lemma interleaving_concat (tasks : list (list Event)) : Interleaving tasks (concat tasks).
Proof.
  induction tasks as [|t tasks IH]; simpl.
  - constructor. constructor.
  - induction t as [|e t IHt]; simpl.
    + clear - IH. remember (concat tasks) as tr eqn:Htr. clear Htr.
      induction IH as [ts Hnil|before e t after tr _ IHi].
      * constructor. now constructor.
      * apply (interleaving_step ([] :: before)). exact IHi.
    + apply (interleaving_step [] e t tasks). exact IHt.
Qed.

Lemma linearises_sequential (items : list Item) : Linearises items (sequential items).
Proof.
  induction items as [|[e|tasks] items IH]; simpl.
  - constructor.
  - now constructor.
  - constructor; [apply interleaving_concat|exact IH].
Qed.

(** ** The batch scheduler *)

(** X27. The scheduler cuts the ordered queries into batches of a fixed size
    between 1 and 3: 1 when the session is in the visible, persistent mode, 3
    when the useChrome flag is off.  The m-th batch holds the calls for the
    queries m*size .. m*size+size-1, each call with its own query and sequence
    index, and a run that completes has called every query.  However the calls
    of a batch interleave, no more calls than the batch size are ever in
    flight, and when a batch starts every call of the batches before it has
    settled.  The calls of a batch have all settled when the batch is followed
    by another step, or when the run does not reject with the error of a
    call. *)
Theorem batch_scheduler
        (path_join : string -> string -> string) (env : RunEnv) (a : Args) :
  let queries := queries_of env a in
  let size := batchSize (useChrome a) in
  let run := generateSearchScreenshots path_join env a [] in
  1 <= size <= 3
  /\ (shouldUseChrome a = true -> size = 1)
  /\ (useChrome a = false -> size = 3)
  /\ (forall m tasks,
         nth_error (batches (snd run)) m = Some tasks ->
         flat_map calls tasks = JsArray.slice (indexed queries) (m * size) (m * size + size)
         /\ 1 <= length tasks <= size
         /\ ((forall op, fst run <> Throw (PageError op))
             \/ S m < length (batches (snd run)) ->
             Forall task_ok tasks))
  /\ (fst run = Normal tt ->
      flat_map (flat_map calls) (batches (snd run)) = indexed queries)
  /\ (forall tr, Linearises (snd run) tr ->
        forall p s, tr = (p ++ s)%list -> in_flight p <= size)
  /\ (forall items1 tasks items2 tr,
         snd run = (items1 ++ Concurrent tasks :: items2)%list ->
         Linearises (snd run) tr ->
         exists tr1 tr2 tr3,
           tr = (tr1 ++ tr2 ++ tr3)%list
           /\ Linearises items1 tr1 /\ Interleaving tasks tr2 /\ Linearises items2 tr3
           /\ in_flight tr1 = 0
           /\ ((forall op, fst run <> Throw (PageError op)) \/ items2 <> [] ->
               in_flight (tr1 ++ tr2) = 0)).
Proof.
  intros queries size run.
  pose proof (run_items_ok path_join env a) as Hok. fold run in Hok. fold size in Hok.
  destruct (run_batches_of_trace path_join env a) as (k & Hb & Hlo & Hn).
  fold run in Hb, Hn. fold size in Hb, Hlo, Hn. fold queries in Hlo, Hn.
  split; [unfold size, batchSize; destruct (useChrome a); lia|].
  split.
  { unfold shouldUseChrome, size, batchSize. destruct (useChrome a); [reflexivity|].
    discriminate. }
  split; [unfold size, batchSize; now intros ->|].
  split.
  { intros m tasks Hm. rewrite Hb, nth_error_map in Hm.
    destruct (nth_error (seq 0 k) m) as [m'|] eqn:Hseq; [|discriminate].
    assert (Hmk : m < k)
      by (rewrite <- (length_seq k 0); apply nth_error_Some; congruence).
    rewrite nth_error_seq in Hseq.
    destruct (Nat.ltb_spec m k); [|lia]. injection Hseq as <-.
    simpl in Hm. injection Hm as <-.
    split; [apply batch_calls|].
    split.
    - rewrite length_map, batchPromises_length. specialize (Hlo m Hmk).
      fold queries. unfold size, batchSize in *. destruct (useChrome a); lia.
    - intros _. pose proof (batch_ok path_join env a m) as [_ Htasks]. exact Htasks. }
  split.
  { intros Hnormal. specialize (Hn Hnormal). rewrite Hb.
    rewrite flat_map_concat_map, map_map, <- flat_map_concat_map.
    erewrite flat_map_ext; [|intros m; apply batch_calls].
    subst size queries.
    rewrite (slices_concat (indexed (queries_of env a)) (batchSize (useChrome a)) k).
    apply firstn_all2. unfold indexed. rewrite length_combine, length_seq. lia. }
  split.
  { intros tr Hlin. now apply (linearises_in_flight size (snd run)). }
  intros items1 tasks items2 tr Hitems Hlin.
  rewrite Hitems in Hlin, Hok.
  apply linearises_app in Hlin as (tr1 & tr' & -> & H1 & H').
  inversion H' as [| |? ? tr2 tr3 Hint H3]; subst.
  apply Forall_app in Hok as [Hok1 Hok2].
  inversion Hok2 as [|? ? Hit _]; subst. destruct Hit as [_ Htasks].
  pose proof (linearises_all_settled _ _ _ Hok1 H1) as Hs1.
  pose proof (interleaving_all_settled _ _ Htasks Hint) as Hs2.
  exists tr1, tr2, tr3.
  split; [reflexivity|]. split; [exact H1|]. split; [exact Hint|]. split; [exact H3|].
  split.
  - now apply all_settled_in_flight.
  - intros _. apply all_settled_in_flight. now apply all_settled_app.
Qed.

Lemma batch_scheduler_witness :
  flat_map calls
    [snd (processQuery posix_join "qux" 3 "yahoo" "desktop"
            (outputDir_of posix_join (world (fun _ _ => page_fine)) (args_of "yahoo" false))
            (JsNumber.of_Z 1) false (JsNumber.of_Z 80) (fun _ => page_fine))]
  = [(3, "qux")].
Proof.
  destruct (batch_scheduler posix_join (world (fun _ _ => page_fine)) (args_of "yahoo" false))
    as (_ & _ & _ & Hbatch & _).
  destruct (Hbatch 1 _ eq_refl) as (Hcalls & _).
  exact Hcalls.
Defined.

(** C3. The code at the input on which it leaves the claim: with the
    useChrome flag set and the engine yahoo the session is headless
    ([shouldUseChrome] is false and [chromium.launch] is called), so that the
    batch size is to be 3; the batch size, which line 201 takes from the flag
    as it was given, is 1, and the four queries run in four batches of one. *)
Lemma headless_batches_of_one :
  let a := args_of "yahoo" true in
  let run := generateSearchScreenshots posix_join (world (fun _ _ => page_fine)) a [] in
  shouldUseChrome a = false
  /\ batchSize (useChrome a) = 1
  /\ batchSize (useChrome a) <> 3
  /\ List.map (@length _) (batches (snd run)) = [1; 1; 1; 1]
  /\ In (Step ELaunch) (snd run).
Proof.
  vm_compute. repeat split; try discriminate. tauto.
Qed.

(** ** Failures of a query and the run *)

Lemma processQuery_normal
      (path_join : string -> string -> string) (query : string) (index : nat)
      (engine deviceName output : string) (delay : JsNumber.t) (useChrome : bool)
      (quality : JsNumber.t) (pages : nat -> PageEnv) :
  (forall k, page_opens_and_closes (pages k) = true) ->
  exists evs,
    processQuery path_join query index engine deviceName output delay useChrome quality
                 pages
    = (Normal tt, (ECall index query :: evs ++ [ESettle index true])%list)
    /\ forallb (fun e => is_newPage e || is_attempt_event e) evs = true.
Proof.
  intros Hok.
  pose proof (attempt_loop_normal path_join query index engine deviceName output delay
                useChrome quality pages
                {| retries := 0; success := false; trace := [ECall index query] |} Hok)
    as Hnormal.
  destruct (attempt_loop_trace path_join query index engine deviceName output delay
              useChrome quality pages
              {| retries := 0; success := false; trace := [ECall index query] |})
    as (evs & Htr & Hev & _).
  unfold processQuery.
  destruct (attempt_loop _ _ _ _ _ _ _ _ _ _ _) as [c s]. simpl in *. subst c.
  exists evs. rewrite Htr. split; [reflexivity|exact Hev].
Qed.

Lemma Promise_all_normal (results : list (Completion unit)) :
  Forall (fun c => c = Normal tt) results -> Promise_all results = Normal tt.
Proof. induction 1 as [|c results -> _ IH]; simpl; auto. Qed.

Lemma count_rejection_attempt_events (evs : list Event) :
  forallb (fun e => is_newPage e || is_attempt_event e) evs = true ->
  count is_rejection evs = 0.
Proof.
  intros H. eapply count_none; [exact H|].
  intros [] He; simpl in *; try reflexivity; discriminate.
Qed.

(** C2 (amended). Whatever throws inside the try block of an attempt
    (navigation, the waits, the CAPTCHA probe, the screenshot) is caught inside
    processQuery: when the pages of a query open and close, processQuery
    completes normally, and a query all of whose attempts throw there is
    reported as failed, once.  A page that cannot be opened for the first
    attempt makes processQuery reject at once.  When the pages open and close
    for every query of a run whose session was created, every query is called,
    in order, no call rejects; the run goes on to close the context, and
    completes normally if closing works. *)
Theorem failures_stay_in_the_query
        (path_join : string -> string -> string) (env : RunEnv) (a : Args)
        (query : string) (index : nat) (pages : nat -> PageEnv) :
  let processQuery' :=
    processQuery path_join query index (engine a) (deviceName_of (mode a))
                 (outputDir_of path_join env a) (delay a) (useChrome a) (quality a) in
  let run := generateSearchScreenshots path_join env a [] in
  ((forall k, page_opens_and_closes (pages k) = true) ->
   exists evs,
     processQuery' pages = (Normal tt, (ECall index query :: evs ++ [ESettle index true])%list))
  /\ ((forall k,
          page_opens_and_closes (pages k) = true
          /\ exists err, forall s,
              fst (try_block path_join query index (engine a) (deviceName_of (mode a))
                             (outputDir_of path_join env a) (delay a) (useChrome a)
                             (quality a) (pages k) s) = Throw err) ->
      fst (processQuery' pages) = Normal tt
      /\ count is_errorFailed (snd (processQuery' pages)) = 1)
  /\ (page_throws (pages 0) NewPageOp = true ->
      processQuery' pages
      = (Throw (PageError NewPageOp), [ECall index query; ENewPage index;
                                       ESettle index false]))
  /\ (setup_ok env a = true ->
      (forall i k, page_opens_and_closes (pages_of env i k) = true) ->
      flat_map (flat_map calls) (batches (snd run)) = indexed (queries_of env a)
      /\ Forall (Forall (fun t => count is_rejection t = 0)) (batches (snd run))
      /\ In (Step EContextClose) (snd run)
      /\ (run_throws env ContextCloseOp = false ->
          useChrome a = true \/ run_throws env BrowserCloseOp = false ->
          fst run = Normal tt)).
Proof.
  intros processQuery' run.
  split.
  { intros Hok.
    destruct (processQuery_normal path_join query index (engine a) (deviceName_of (mode a))
                (outputDir_of path_join env a) (delay a) (useChrome a) (quality a)
                pages Hok) as (evs & Hrun & _).
    now exists evs. }
  split.
  { intros Hall.
    destruct (attempt_loop_all_caught path_join query index (engine a)
                (deviceName_of (mode a)) (outputDir_of path_join env a) (delay a)
                (useChrome a) (quality a) (S maxRetries) pages
                {| retries := 0; success := false; trace := [ECall index query] |}
                eq_refl eq_refl Hall)
      as (evs & Hloop & _ & _ & _ & Hfail & _).
    subst processQuery'. unfold processQuery. rewrite Hloop. cbn [fst snd trace].
    split; [reflexivity|].
    change (ECall index query :: evs) with ([ECall index query] ++ evs)%list.
    rewrite !count_app, Hfail. reflexivity. }
  split.
  { intros Hopen. subst processQuery'. unfold processQuery.
    rewrite attempt_loop_eq. cbn [loop_guard retries success Nat.leb maxRetries andb negb].
    unfold attempt, bind, await, emit, throw. cbn [retries success trace].
    rewrite Hopen. reflexivity. }
  intros Hsetup Hpages.
  assert (Htask : forall p,
             exists evs,
               processQuery path_join (snd p) (fst p) (engine a) (deviceName_of (mode a))
                            (outputDir_of path_join env a) (delay a) (useChrome a)
                            (quality a) (pages_of env (fst p))
               = (Normal tt, (ECall (fst p) (snd p) :: evs ++ [ESettle (fst p) true])%list)
               /\ forallb (fun e => is_newPage e || is_attempt_event e) evs = true).
  { intros p. apply processQuery_normal. intros k. apply Hpages. }
  assert (Hall : forall i,
             Promise_all
               (List.map fst
                  (batchPromises path_join env (queries_of env a) (engine a)
                                 (deviceName_of (mode a)) (outputDir_of path_join env a)
                                 (delay a) (useChrome a) (quality a) i)) = Normal tt).
  { intros i. apply Promise_all_normal. rewrite batchPromises_map, map_map.
    apply Forall_map, Forall_forall. intros p _.
    unfold call_task. destruct (Htask p) as (evs & Hp & _). now rewrite Hp. }
  destruct (run_shape path_join env a) as (j & k & tail & Htr & Hlo & _ & Hcases).
  fold run in Htr, Hcases.
  destruct Hcases as [(Hno & _)|(_ & Hj & [(err & _ & _ & _ & Herr)|(Hn & _ & Htd & Hc)])];
    [congruence|rewrite Hall in Herr; discriminate|].
  assert (Hb : batches (snd run)
               = List.map (fun m => List.map snd
                   (batchPromises path_join env (queries_of env a) (engine a)
                      (deviceName_of (mode a)) (outputDir_of path_join env a)
                      (delay a) (useChrome a) (quality a)
                      (m * batchSize (useChrome a)))) (seq 0 k)).
  { rewrite Htr, !batches_app, !batches_steps, app_nil_r. simpl.
    clear. induction (seq 0 k) as [|m l IH]; [reflexivity|]. simpl. now rewrite IH. }
  split.
  { rewrite Hb, flat_map_concat_map, map_map, <- flat_map_concat_map.
    erewrite flat_map_ext; [|intros m; apply batch_calls].
    rewrite (slices_concat (indexed (queries_of env a)) (batchSize (useChrome a)) k).
    apply firstn_all2. unfold indexed. rewrite length_combine, length_seq. lia. }
  split.
  { rewrite Hb. apply Forall_map, Forall_forall. intros m _.
    rewrite batchPromises_map, map_map. apply Forall_map, Forall_forall. intros p _.
    unfold call_task. destruct (Htask p) as (evs & Hp & Hev). rewrite Hp. cbn [snd].
    change (ECall (fst p) (snd p) :: evs ++ [ESettle (fst p) true])%list
      with ([ECall (fst p) (snd p)] ++ evs ++ [ESettle (fst p) true])%list.
    rewrite !count_app, (count_rejection_attempt_events evs Hev). reflexivity. }
  assert (Hcc : In EContextClose tail).
  { destruct (teardown_cases env a) as [[_ H]|[(_ & _ & H)|(_ & _ & H & _)]];
      rewrite H in Htd; simpl in Htd;
      destruct tail as [|e1 tail]; try discriminate;
      injection Htd as <- _; now left. }
  split.
  { rewrite Htr. apply in_or_app; right. apply in_or_app; right.
    now apply in_map. }
  intros Hclose Hbrowser. rewrite Hc.
  destruct (teardown_cases env a) as [[H _]|[(_ & _ & H)|(_ & Hu & _ & H)]].
  - congruence.
  - now rewrite H.
  - rewrite H. destruct Hbrowser as [Hb'|Hb']; [congruence|now rewrite Hb'].
Qed.

Lemma failures_stay_in_the_query_witness :
  let env := world (fun _ _ => page_failing_goto) in
  let run := generateSearchScreenshots posix_join env (args_of "yahoo" false) [] in
  fst run = Normal tt
  /\ flat_map (flat_map calls) (batches (snd run))
     = indexed (queries_of env (args_of "yahoo" false)).
Proof.
  intros env run.
  destruct (failures_stay_in_the_query posix_join env (args_of "yahoo" false) "foo" 0
                                       (fun _ => page_failing_goto))
    as (_ & _ & _ & Hrun).
  destruct Hrun as (Hcalls & _ & _ & Hnormal);
    [vm_compute; reflexivity | intros i k; vm_compute; reflexivity |].
  split; [apply Hnormal; [reflexivity|right; reflexivity]|exact Hcalls].
Defined.

(** The context cannot open a page for the first of four queries: its call
    rejects, and with it the batch and the run; the fourth query is never
    called and nothing is closed. *)
Lemma page_open_failure_aborts_the_run :
  let run := generateSearchScreenshots posix_join (world first_query_cannot_open)
                                       (args_of "yahoo" false) [] in
  fst run = Throw (PageError NewPageOp)
  /\ flat_map (flat_map calls) (batches (snd run)) = [(0, "foo"); (1, "bar"); (2, "baz")]
  /\ indexed (queries_of (world first_query_cannot_open) (args_of "yahoo" false))
     = [(0, "foo"); (1, "bar"); (2, "baz"); (3, "qux")]
  /\ existsb (fun it => match it with Step EContextClose => true | _ => false end)
             (snd run) = false.
Proof.
  vm_compute. repeat split.
Qed.

(** ** The life of the session *)

Lemma teardown_trace (env : RunEnv) (a : Args) :
  snd (teardown env a []) = List.map Step (teardown_events env a).
Proof.
  unfold teardown_events.
  destruct (teardown_cases env a) as [[H1 H]|[(H1 & H2 & H)|(H1 & H2 & H & _)]];
    rewrite H, H1, ?H2; reflexivity.
Qed.

Lemma map_Step_inj (l l' : list Event) : List.map Step l = List.map Step l' -> l = l'.
Proof.
  revert l'; induction l as [|e l IH]; intros [|e' l'] H; simpl in H;
    try discriminate; [reflexivity|].
  injection H as -> H. f_equal. now apply IH.
Qed.

Lemma linearises_steps (evs tr : list Event) :
  Linearises (List.map Step evs) tr -> tr = evs.
Proof.
  revert tr; induction evs as [|e evs IH]; intros tr H; simpl in H;
    inversion H; subst; [reflexivity|]. f_equal. now apply IH.
Qed.

Lemma split_unique {A : Type} (x : A) (l1 l2 m n : list A) :
  (l1 ++ x :: l2 = m ++ x :: n)%list -> ~ In x m -> ~ In x n -> l1 = m /\ l2 = n.
Proof.
  revert m; induction l1 as [|y l1 IH]; intros [|z m] H Hm Hn; simpl in *.
  - injection H as ->. auto.
  - injection H as <- _. exfalso. apply Hm. now left.
  - injection H as -> H. exfalso. apply Hn. rewrite <- H. apply in_elt.
  - injection H as -> H. destruct (IH m H) as [-> ->]; auto.
Qed.

Lemma processQuery_events_requests
      (path_join : string -> string -> string) (query : string) (index : nat)
      (engine deviceName output : string) (delay : JsNumber.t) (useChrome : bool)
      (quality : JsNumber.t) (pages : nat -> PageEnv) :
  forallb is_request_event
          (snd (processQuery path_join query index engine deviceName output delay
                             useChrome quality pages)) = true.
Proof.
  destruct (processQuery_trace path_join query index engine deviceName output delay
                               useChrome quality pages) as (evs & b & Htr & Hev & _).
  rewrite Htr. simpl. rewrite forallb_app. simpl. rewrite andb_true_r.
  rewrite forallb_forall in *. intros e He. specialize (Hev e He).
  destruct e; simpl in *; try reflexivity; discriminate.
Qed.

Section Lifecycle.

Variable path_join : string -> string -> string.
Variables (env : RunEnv) (a : Args).

Local Abbreviation batch :=
    (nth_batch path_join env (queries_of env a) (engine a) (deviceName_of (mode a))
               (outputDir_of path_join env a) (delay a) (useChrome a) (quality a) 0).

Lemma linearises_batches_requests (ms : list nat) (tr : list Event) :
    Linearises (List.map batch ms) tr -> forallb is_request_event tr = true.
Proof.
    revert tr; induction ms as [|m ms IH]; intros tr H; simpl in H.
    - inversion H. reflexivity.
    - unfold nth_batch in H at 1. inversion H as [| |? ? tr1 tr2 Hint Hrest]; subst.
      rewrite forallb_app, (IH _ Hrest), andb_true_r.
      apply forallb_forall. intros e He.
      apply (interleaving_in _ _ Hint) in He as (t & Ht & He).
      apply in_map_iff in Ht as (r & <- & Hr).
      rewrite batchPromises_map in Hr. apply in_map_iff in Hr as (p & <- & _).
      unfold call_task in He.
      pose proof (processQuery_events_requests path_join (snd p) (fst p) (engine a)
                    (deviceName_of (mode a)) (outputDir_of path_join env a) (delay a)
                    (useChrome a) (quality a) (pages_of env (fst p))) as Hall.
      rewrite forallb_forall in Hall. now apply Hall.
Qed.

Lemma calls_of_batches (k : nat) :
    length (queries_of env a) <= k * batchSize (useChrome a) ->
    flat_map (flat_map calls) (batches (List.map batch (seq 0 k)))
    = indexed (queries_of env a).
Proof.
    intros Hn.
    assert (Hb : batches (List.map batch (seq 0 k))
                 = List.map (fun m => List.map snd
                     (batchPromises path_join env (queries_of env a) (engine a)
                        (deviceName_of (mode a)) (outputDir_of path_join env a)
                        (delay a) (useChrome a) (quality a)
                        (m * batchSize (useChrome a)))) (seq 0 k)).
    { induction (seq 0 k) as [|m l IH]; [reflexivity|]. simpl. now rewrite <- IH. }
    rewrite Hb, flat_map_concat_map, map_map, <- flat_map_concat_map.
    erewrite flat_map_ext; [|intros m; apply batch_calls].
    rewrite (slices_concat (indexed (queries_of env a)) (batchSize (useChrome a)) k).
    apply firstn_all2. unfold indexed. rewrite length_combine, length_seq. lia.
Qed.

End Lifecycle.

(** C5 (amended). The session is created once, by the one launch among the
    set-up steps, and before any request is processed: the trace of a run is
    set-up steps, then batches, then closing steps, and there are batches or
    closing steps only after the whole set-up.  Closing starts only when every
    query has been called and every call has settled, and after the context is
    closed nothing of a request happens.  When the session was created and the
    pages of every query open and close (so that no call rejects), the context
    is closed, whatever the attempts did otherwise; if that close succeeds and
    the useChrome flag is off, the browser is closed after it. *)
Theorem session_lifecycle
        (path_join : string -> string -> string) (env : RunEnv) (a : Args) :
  let run := generateSearchScreenshots path_join env a [] in
  let setup := setup_events path_join env a in
  let batch :=
    nth_batch path_join env (queries_of env a) (engine a) (deviceName_of (mode a))
              (outputDir_of path_join env a) (delay a) (useChrome a) (quality a) 0 in
  count is_launch setup = 1
  /\ exists j k tail,
      snd run = (List.map Step (firstn j setup) ++ List.map batch (seq 0 k)
                   ++ List.map Step tail)%list
      /\ (1 <= k \/ tail <> [] -> firstn j setup = setup /\ setup_ok env a = true)
      /\ (tail = []
          \/ exists rest, tail = EContextClose :: rest
                          /\ (rest = [] \/ rest = [EBrowserClose]))
      /\ (tail <> [] ->
          flat_map (flat_map calls) (batches (snd run)) = indexed (queries_of env a))
      /\ (setup_ok env a = true ->
          (forall i k', page_opens_and_closes (pages_of env i k') = true) ->
          hd_error tail = Some EContextClose
          /\ (run_throws env ContextCloseOp = false -> useChrome a = false ->
              tail = [EContextClose; EBrowserClose]))
      /\ (forall tr p s,
             Linearises (snd run) tr -> tr = (p ++ EContextClose :: s)%list ->
             all_settled p /\ in_flight p = 0
             /\ forallb (fun e => negb (is_request_event e)) s = true).
Proof.
  intros run setup batch.
  split.
  { unfold setup, setup_events. destruct (shouldUseChrome a); reflexivity. }
  destruct (run_shape path_join env a) as (j & k & tail & Htr & Hlo & _ & Hcases).
  fold run in Htr, Hcases. fold setup in Htr, Hcases. fold batch in Htr.
  exists j, k, tail.
  assert (Htail : tail = [] \/ tail = teardown_events env a).
  { destruct Hcases as [(_ & _ & -> & _)|(_ & _ & [(err & _ & -> & _)|(_ & _ & Htd & _)])];
      auto.
    right. rewrite teardown_trace in Htd. symmetry. now apply map_Step_inj. }
  assert (Hhd : forall t, t = teardown_events env a ->
                          exists rest, t = EContextClose :: rest
                                       /\ forallb is_close rest = true).
  { intros t ->. unfold teardown_events.
    destruct (run_throws env ContextCloseOp); [now exists []|].
    destruct (useChrome a); [now exists []|now exists [EBrowserClose]]. }
  split; [exact Htr|].
  split.
  { intros Hany.
    destruct Hcases as [(_ & -> & -> & _)|(Hok & Hj & _)]; [|auto].
    destruct Hany as [Hk|Ht]; [lia|congruence]. }
  split.
  { destruct Htail as [->|Ht]; [now left|right].
    rewrite Ht. unfold teardown_events.
    destruct (run_throws env ContextCloseOp); [exists []; auto|].
    destruct (useChrome a); [exists []; auto|exists [EBrowserClose]; auto]. }
  split.
  { intros Hne. rewrite Htr, !batches_app, !batches_steps, app_nil_r. simpl.
    apply calls_of_batches.
    destruct Hcases as [(_ & _ & -> & _)|(_ & _ & [(err & _ & -> & _)|(Hn & _)])];
      [congruence|congruence|exact Hn]. }
  split.
  { intros Hsetup Hpages.
    assert (Hall : forall i,
               Promise_all
                 (List.map fst
                    (batchPromises path_join env (queries_of env a) (engine a)
                       (deviceName_of (mode a)) (outputDir_of path_join env a)
                       (delay a) (useChrome a) (quality a) i)) = Normal tt).
    { intros i. apply Promise_all_normal. rewrite batchPromises_map, map_map.
      apply Forall_map, Forall_forall. intros p _.
      destruct (processQuery_normal path_join (snd p) (fst p) (engine a)
                  (deviceName_of (mode a)) (outputDir_of path_join env a) (delay a)
                  (useChrome a) (quality a) (pages_of env (fst p)))
        as (evs & Hp & _); [intros; apply Hpages|]. unfold call_task. now rewrite Hp. }
    assert (Ht : tail = teardown_events env a).
    { destruct Hcases as [(Hno & _)|(_ & _ & [(err & _ & _ & _ & Herr)|(_ & _ & Htd & _)])];
        [congruence|rewrite Hall in Herr; discriminate|].
      rewrite teardown_trace in Htd. symmetry. now apply map_Step_inj. }
    split.
    { destruct (Hhd tail Ht) as (rest & -> & _). reflexivity. }
    intros Hcc Hflag. rewrite Ht. unfold teardown_events. now rewrite Hcc, Hflag. }
  intros tr p s Hlin Hsplit.
  rewrite Htr in Hlin.
  apply linearises_app in Hlin as (trA & tr' & -> & HA & Hlin).
  apply linearises_app in Hlin as (trB & trT & -> & HB & HT).
  apply linearises_steps in HA, HT. subst trA trT.
  assert (HnoA : ~ In EContextClose (firstn j setup)).
  { intros Hin. apply in_firstn in Hin.
    pose proof (setup_events_not_requests path_join env a) as Hs.
    unfold setup, setup_events in Hin.
    destruct (shouldUseChrome a); simpl in Hin;
      repeat (destruct Hin as [Hin|Hin]; [discriminate|]); exact Hin. }
  assert (HnoB : ~ In EContextClose trB).
  { intros Hin. pose proof (linearises_batches_requests path_join env a _ _ HB) as Hreq.
    rewrite forallb_forall in Hreq. specialize (Hreq _ Hin). discriminate. }
  assert (Hsettled : all_settled (firstn j setup ++ trB)).
  { apply (linearises_all_settled (batchSize (useChrome a))
             (List.map Step (firstn j setup) ++ List.map batch (seq 0 k))).
    - pose proof (run_items_ok path_join env a) as Hok. fold run in Hok.
      rewrite Htr, app_assoc in Hok. now apply Forall_app in Hok as [Hok _].
    - apply linearises_app. exists (firstn j setup), trB.
      repeat split; [|exact HB].
      clear. induction (firstn j setup); simpl; now constructor. }
  destruct Htail as [->|Ht].
  { exfalso. rewrite app_nil_r in Hsplit.
    assert (Hin : In EContextClose (firstn j setup ++ trB))
      by (rewrite Hsplit; apply in_elt).
    apply in_app_or in Hin as [Hin|Hin]; auto. }
  destruct (Hhd tail Ht) as (rest & -> & Hrest).
  rewrite app_assoc in Hsplit. symmetry in Hsplit.
  assert (HnoR : ~ In EContextClose rest).
  { unfold teardown_events in Ht.
    destruct (run_throws env ContextCloseOp); [|destruct (useChrome a)];
      injection Ht as ->; simpl; intuition discriminate. }
  apply split_unique in Hsplit as [-> ->]; [|intros Hin; apply in_app_or in Hin as [Hin|Hin]; auto|exact HnoR].
  split; [exact Hsettled|]. split; [now apply all_settled_in_flight|].
  rewrite forallb_forall in *. intros e He. specialize (Hrest e He).
  destruct e; simpl in *; try discriminate; reflexivity.
Qed.

Lemma session_lifecycle_witness :
  let env := world (fun _ _ => page_failing_goto) in
  let run := generateSearchScreenshots posix_join env (args_of "yahoo" false) [] in
  exists pre,
    snd run = (pre ++ [Step EContextClose; Step EBrowserClose])%list.
Proof.
  intros env run.
  destruct (session_lifecycle posix_join env (args_of "yahoo" false))
    as (_ & j & k & tail & Htr & _ & _ & _ & Hclose & _).
  destruct Hclose as (_ & Htail);
    [vm_compute; reflexivity | intros i k'; vm_compute; reflexivity |].
  rewrite (Htail eq_refl eq_refl) in Htr.
  eexists. subst run. rewrite Htr, app_assoc. reflexivity.
Defined.

(** The context cannot open a page: the call of the one batch rejects, the
    run throws, and neither the context nor the browser is closed. *)
Lemma rejected_call_skips_teardown :
  let run := generateSearchScreenshots posix_join (world no_page_opens)
                                       (args_of "yahoo" false) [] in
  fst run = Throw (PageError NewPageOp)
  /\ In (Step ELaunch) (snd run)
  /\ existsb (fun it => match it with
                        | Step EContextClose | Step EBrowserClose => true
                        | _ => false
                        end) (snd run) = false.
Proof.
  vm_compute. repeat split. tauto.
Qed.

(** The flag set and the engine yahoo: the headless browser that was launched
    is left open when the run completes. *)
Lemma headless_browser_left_open :
  let run := generateSearchScreenshots posix_join (world (fun _ _ => page_fine))
                                       (args_of "yahoo" true) [] in
  fst run = Normal tt
  /\ In (Step ELaunch) (snd run)
  /\ In (Step EContextClose) (snd run)
  /\ existsb (fun it => match it with Step EBrowserClose => true | _ => false end)
             (snd run) = false.
Proof.
  vm_compute. repeat split; tauto.
Qed.

(** ** Compare mode *)

Lemma last_char_append (s t : string) :
  t <> "" -> last_char (s ++ t) = last_char t.
Proof.
  intros Ht. induction s as [|c s IH]; [reflexivity|].
  simpl. rewrite IH. destruct (s ++ t) eqn:E; [|reflexivity].
  destruct s; simpl in E; [congruence|discriminate].
Qed.

Lemma remove_last_append (s t : string) :
  t <> "" -> remove_last (s ++ t) = s ++ remove_last t.
Proof.
  intros Ht. induction s as [|c s IH]; [reflexivity|].
  simpl. rewrite IH. destruct (s ++ t) eqn:E; [|reflexivity].
  destruct s; simpl in E; [congruence|discriminate].
Qed.

(** The run directory of the baseline pass differs from the run directory of
    a pass for any other engine of the command line, whatever the clock says. *)
Lemma runDir_yahoo_distinct (iso1 iso2 engine : string) :
  In engine ["google"; "bing"; "duckduckgo"] ->
  runDir_of iso1 "yahoo" <> runDir_of iso2 engine.
Proof.
  unfold runDir_of. intros Hin Heq.
  assert (Hlast : last_char (timestamp_of iso1 ++ "--yahoo")
                  = last_char (timestamp_of iso2 ++ "--" ++ engine))
    by (simpl; simpl in Heq; now rewrite Heq).
  assert (Hprev : last_char (remove_last (timestamp_of iso1 ++ "--yahoo"))
                  = last_char (remove_last (timestamp_of iso2 ++ "--" ++ engine)))
    by (simpl; simpl in Heq; now rewrite Heq).
  destruct Hin as [<-|[<-|[<-|[]]]].
  - rewrite !last_char_append in Hlast by discriminate. discriminate.
  - rewrite !last_char_append in Hlast by discriminate. discriminate.
  - rewrite !remove_last_append in Hprev by discriminate.
    rewrite !last_char_append in Hprev by discriminate. discriminate.
Qed.

(** C4 (amended). Compare mode runs two passes of the capture pipeline one
    after the other: the second starts only when the first has completed, and
    in every order of observation all events of the first pass come before all
    events of the second, with nothing of the first in flight.  The first pass
    is for yahoo with useChrome off, so headless.  The second is for the
    requested engine, or for google when yahoo was requested; the useChrome
    flag of the user is kept for it only when that engine is google, and is
    off otherwise.  The passes make their own output subdirectories,
    timestamp--engine, which differ for every engine of the command line. *)
Theorem compare_mode
        (path_join : string -> string -> string) (env1 env2 : RunEnv) (args : Args) :
  let first := generateSearchScreenshots path_join env1 (yahooArgs args) [] in
  let second := generateSearchScreenshots path_join env2 (compareArgs args) [] in
  let both := runCompareMode path_join env1 env2 args [] in
  both = match fst first with
         | Normal _ => (fst second, (snd first ++ snd second)%list)
         | Continue => (Continue, snd first)
         | Throw err => (Throw err, snd first)
         end
  /\ (engine (yahooArgs args) = "yahoo" /\ useChrome (yahooArgs args) = false
      /\ shouldUseChrome (yahooArgs args) = false)
  /\ engine (compareArgs args) = (if engine args =? "yahoo" then "google" else engine args)
  /\ useChrome (compareArgs args)
     = (if engine (compareArgs args) =? "google" then useChrome args else false)
  /\ shouldUseChrome (compareArgs args)
     = useChrome args && (engine (compareArgs args) =? "google")
  /\ (forall a', a' = yahooArgs args \/ a' = compareArgs args ->
        csvFile a' = csvFile args /\ output a' = output args /\ column a' = column args
        /\ delay a' = delay args /\ mode a' = mode args /\ quality a' = quality args)
  /\ (exists rest,
        snd first
        = Step (EMkdir (path_join (output args) (runDir_of (now_iso env1) "yahoo")))
            :: rest)
  /\ (exists rest,
        snd second
        = Step (EMkdir (path_join (output args)
                                  (runDir_of (now_iso env2) (engine (compareArgs args)))))
            :: rest)
  /\ (In (engine args) engine_choices ->
      runDir_of (now_iso env1) "yahoo"
      <> runDir_of (now_iso env2) (engine (compareArgs args)))
  /\ (forall tr,
         fst first = Normal tt -> Linearises (snd both) tr ->
         exists tr1 tr2,
           tr = (tr1 ++ tr2)%list
           /\ Linearises (snd first) tr1 /\ Linearises (snd second) tr2
           /\ all_settled tr1 /\ in_flight tr1 = 0).
Proof.
  intros first second both.
  assert (Hboth : both = match fst first with
                         | Normal _ => (fst second, (snd first ++ snd second)%list)
                         | Continue => (Continue, snd first)
                         | Throw err => (Throw err, snd first)
                         end).
  { subst both. unfold runCompareMode, bind. fold first.
    destruct first as [[[]| |err] tr1] eqn:Hfirst; cbn [fst snd]; try reflexivity.
    rewrite gen_frame. reflexivity. }
  split; [exact Hboth|].
  split; [repeat split|].
  split; [reflexivity|].
  split; [reflexivity|].
  split.
  { unfold shouldUseChrome, compareArgs, with_engine. cbn [useChrome engine].
    destruct (compareEngine args =? "google"); destruct (useChrome args); reflexivity. }
  split; [intros a' [->| ->]; repeat split|].
  split; [apply (gen_first_step path_join env1 (yahooArgs args))|].
  split; [apply (gen_first_step path_join env2 (compareArgs args))|].
  split.
  { intros Hin. apply runDir_yahoo_distinct.
    unfold compareArgs, with_engine, compareEngine. cbn [engine].
    destruct (String.eqb_spec (engine args) "yahoo") as [Hy|Hy]; [simpl; tauto|].
    unfold engine_choices in Hin. simpl in *. intuition congruence. }
  intros tr Hnormal Hlin. rewrite Hboth, Hnormal in Hlin. cbn [snd] in Hlin.
  apply linearises_app in Hlin as (tr1 & tr2 & -> & H1 & H2).
  pose proof (linearises_all_settled _ _ _
                (run_items_ok path_join env1 (yahooArgs args)) H1) as Hsettled.
  exists tr1, tr2. repeat split; auto. now apply all_settled_in_flight.
Qed.

Lemma compare_mode_witness :
  runDir_of "2024-01-02T03:04:05.678Z" "yahoo"
  <> runDir_of "2024-01-02T03:04:05.678Z" "google"
  /\ useChrome (compareArgs (args_of "google" true)) = true.
Proof.
  destruct (compare_mode posix_join (world (fun _ _ => page_fine))
                         (world (fun _ _ => page_fine)) (args_of "google" true))
    as (_ & _ & _ & Hflag & _ & _ & _ & _ & Hdirs & _).
  split; [apply Hdirs; vm_compute; tauto | exact Hflag].
Defined.

(** Yahoo requested: the second pass is for google, not for the requested
    engine.  Bing requested with the flag set: the second pass has the flag
    off. *)
Lemma compare_mode_overrides_the_request :
  engine (args_of "yahoo" false) = "yahoo"
  /\ engine (compareArgs (args_of "yahoo" false)) = "google"
  /\ engine (compareArgs (args_of "yahoo" false)) <> engine (args_of "yahoo" false)
  /\ useChrome (args_of "bing" true) = true
  /\ useChrome (compareArgs (args_of "bing" true)) = false
  /\ useChrome (compareArgs (args_of "bing" true)) <> useChrome (args_of "bing" true).
Proof.
  split; [reflexivity|]. split; [reflexivity|]. split; [discriminate|].
  split; [reflexivity|]. split; [reflexivity|]. discriminate.
Qed.

(** * Further properties of the code *)

(** ** The request URL (processQuery, lines 231-248) *)

Lemma forallb_append (p : ascii -> bool) (s t : string) :
  JsString.forallb p (s ++ t) = JsString.forallb p s && JsString.forallb p t.
Proof.
  induction s as [|c s IH]; [reflexivity|].
  simpl. now rewrite IH, andb_assoc.
Qed.

Lemma encode_char_alphabet (c : ascii) :
  JsString.forallb is_uri_char (encode_char c) = true.
Proof. destruct c as [[] [] [] [] [] [] [] []]; reflexivity. Qed.

Lemma unescape_first_encode_char (c : ascii) (r : string) :
  unescape_first (encode_char c ++ r) = Some (c, r).
Proof. destruct c as [[] [] [] [] [] [] [] []]; reflexivity. Qed.

Lemma encode_char_unreserved (c : ascii) :
  is_unreserved c = true -> encode_char c = String c EmptyString.
Proof. unfold encode_char. now intros ->. Qed.

(** X1. Whatever the query, its encoding is made of unreserved characters and
    percent signs only: no space, no ampersand, no hash, no slash, nothing
    that could end the query parameter of the URL. *)
Theorem encodeURIComponent_alphabet (query : string) :
  JsString.forallb is_uri_char (encodeURIComponent query) = true.
Proof.
  induction query as [|c s IH]; [reflexivity|].
  simpl. now rewrite forallb_append, encode_char_alphabet, IH.
Qed.

Lemma encodeURIComponent_injective (s t : string) :
  encodeURIComponent s = encodeURIComponent t -> s = t.
Proof.
  revert t. induction s as [|c s IH]; intros [|d t] H; simpl in H.
  - reflexivity.
  - apply (f_equal unescape_first) in H.
    rewrite unescape_first_encode_char in H. discriminate.
  - apply (f_equal unescape_first) in H.
    rewrite unescape_first_encode_char in H. discriminate.
  - apply (f_equal unescape_first) in H.
    rewrite !unescape_first_encode_char in H.
    injection H as -> H. now rewrite (IH _ H).
Qed.

Lemma append_injective (p s t : string) : p ++ s = p ++ t -> s = t.
Proof.
  induction p as [|c p IH]; simpl; [auto|].
  intros H. injection H as H. auto.
Qed.

(** X2. The encoding loses nothing: two queries with the same encoding are the
    same query, so for one engine two different queries are never sent to the
    same URL. *)
Theorem url_of_injective (engine query query' : string) :
  (encodeURIComponent query = encodeURIComponent query' -> query = query')
  /\ (url_of engine query = url_of engine query' -> query = query').
Proof.
  split; [apply encodeURIComponent_injective|].
  unfold url_of.
  repeat match goal with
    | |- context [if ?c then _ else _] => destruct c
    end;
    intros H; apply append_injective in H; now apply encodeURIComponent_injective.
Qed.

(** X3. A query made of unreserved characters only (letters, digits and
    [-_.!~*'()]) is sent as it is. *)
Theorem encodeURIComponent_unreserved (query : string) :
  JsString.forallb is_unreserved query = true ->
  encodeURIComponent query = query.
Proof.
  induction query as [|c s IH]; [reflexivity|].
  simpl. intros H. apply andb_prop in H as [Hc Hs].
  now rewrite (encode_char_unreserved c Hc), (IH Hs).
Qed.

Lemma encodeURIComponent_unreserved_witness :
  encodeURIComponent "rocq-prover_9.3" = "rocq-prover_9.3"
  /\ encodeURIComponent "what's 2+2?" = "what's%202%2B2%3F".
Proof.
  split; [apply (encodeURIComponent_unreserved "rocq-prover_9.3"); reflexivity|reflexivity].
Defined.

(** ** The run directory (generateSearchScreenshots, lines 63-68) *)

Lemma no_char_append (a : ascii) (s t : string) :
  no_char a (s ++ t) = no_char a s && no_char a t.
Proof. apply forallb_append. Qed.

Lemma replace_first_absent (a b : ascii) (s : string) :
  no_char a s = true -> replace_first a b s = s.
Proof.
  induction s as [|c s IH]; [reflexivity|].
  unfold no_char. simpl. intros H. apply andb_prop in H as [Hc Hs].
  apply negb_true_iff in Hc. rewrite Hc. f_equal. now apply IH.
Qed.

Lemma replace_first_found (a b : ascii) (s t : string) :
  no_char a s = true ->
  replace_first a b (s ++ String a t) = s ++ String b t.
Proof.
  induction s as [|c s IH]; simpl.
  - now rewrite Ascii.eqb_refl.
  - unfold no_char. simpl. intros H. apply andb_prop in H as [Hc Hs].
    apply negb_true_iff in Hc. rewrite Hc. f_equal. now apply IH.
Qed.

Lemma remove_all_append (a : ascii) (s t : string) :
  remove_all a (s ++ t) = remove_all a s ++ remove_all a t.
Proof.
  induction s as [|c s IH]; [reflexivity|].
  simpl. destruct (c =? a)%char; simpl; now rewrite IH.
Qed.

Lemma remove_all_cons (a c : ascii) (s : string) :
  remove_all a (String c s)
  = if (c =? a)%char then remove_all a s else String c (remove_all a s).
Proof. reflexivity. Qed.

Lemma string_app_assoc (s t u : string) : s ++ (t ++ u) = (s ++ t) ++ u.
Proof. induction s as [|c s IH]; [reflexivity|]. simpl. now rewrite IH. Qed.

Lemma remove_all_absent (a : ascii) (s : string) :
  no_char a s = true -> remove_all a s = s.
Proof.
  induction s as [|c s IH]; [reflexivity|].
  unfold no_char. simpl. intros H. apply andb_prop in H as [Hc Hs].
  apply negb_true_iff in Hc. rewrite Hc. f_equal. now apply IH.
Qed.

Lemma remove_all_none (a : ascii) (s : string) : no_char a (remove_all a s) = true.
Proof.
  induction s as [|c s IH]; [reflexivity|].
  simpl. destruct (c =? a)%char eqn:E; [exact IH|].
  unfold no_char in *. simpl. now rewrite E, IH.
Qed.

Lemma drop_line_no_char (a : ascii) (s : string) :
  no_char a s = true -> no_char a (drop_line s) = true.
Proof.
  induction s as [|c s IH]; [reflexivity|].
  intros H. simpl. destruct (is_line_terminator c); [exact H|].
  unfold no_char in H. simpl in H. apply andb_prop in H as [_ Hs]. now apply IH.
Qed.

Lemma remove_dot_tail_no_char (a : ascii) (s : string) :
  no_char a s = true -> no_char a (remove_dot_tail s) = true.
Proof.
  induction s as [|c s IH]; [reflexivity|].
  intros H. pose proof H as H0.
  unfold no_char in H. simpl in H. apply andb_prop in H as [Hc Hs].
  simpl. destruct (c =? ".")%char.
  - destruct s as [|d s']; [exact H0|].
    destruct (is_line_terminator d).
    + unfold no_char. simpl JsString.forallb at 1. rewrite Hc. now apply IH.
    + now apply drop_line_no_char.
  - unfold no_char. simpl JsString.forallb at 1. rewrite Hc. now apply IH.
Qed.

Lemma drop_line_all (s : string) :
  JsString.forallb (fun c => negb (is_line_terminator c)) s = true ->
  drop_line s = "".
Proof.
  induction s as [|c s IH]; [reflexivity|].
  simpl. intros H. apply andb_prop in H as [Hc Hs].
  apply negb_true_iff in Hc. rewrite Hc. now apply IH.
Qed.

Lemma remove_dot_tail_found (s t : string) (d : ascii) :
  no_char "." s = true ->
  JsString.forallb (fun c => negb (is_line_terminator c)) (String d t) = true ->
  remove_dot_tail (s ++ String "." (String d t)) = s.
Proof.
  intros Hs Ht. induction s as [|c s IH].
  - simpl in Ht. apply andb_prop in Ht as [Hd Ht]. apply negb_true_iff in Hd.
    cbn [append remove_dot_tail]. rewrite Ascii.eqb_refl, Hd.
    simpl. rewrite Hd. now apply drop_line_all.
  - unfold no_char in Hs. simpl in Hs. apply andb_prop in Hs as [Hc Hs].
    apply negb_true_iff in Hc. cbn [append remove_dot_tail]. rewrite Hc.
    f_equal. now apply IH.
Qed.

Lemma iso_field_no_char (a : ascii) (s : string) :
  is_iso_field_char a = false -> iso_field s = true -> no_char a s = true.
Proof.
  intros Ha. induction s as [|c s IH]; [reflexivity|].
  unfold iso_field, no_char in *. simpl. intros H. apply andb_prop in H as [Hc Hs].
  rewrite (IH Hs), andb_true_r. apply negb_true_iff.
  destruct (c =? a)%char eqn:E; [|reflexivity].
  apply Ascii.eqb_eq in E. subst c. congruence.
Qed.

Lemma iso_field_no_terminator (s : string) :
  iso_field s = true ->
  JsString.forallb (fun c => negb (is_line_terminator c)) s = true.
Proof.
  induction s as [|c s IH]; [reflexivity|].
  unfold iso_field in *. simpl. intros H. apply andb_prop in H as [Hc Hs].
  rewrite (IH Hs), andb_true_r.
  destruct c as [[] [] [] [] [] [] [] []]; try reflexivity; discriminate.
Qed.

Lemma iso_field_append (s t : string) :
  iso_field (s ++ t) = iso_field s && iso_field t.
Proof. apply forallb_append. Qed.

(** X4. For a clock that reads [date]T[hh]:[mm]:[ss].[ms]Z the run directory
    is named [date]-[hh][mm][ss]--[engine]: the milliseconds and the zone are
    dropped, so that two runs for one engine that start within the same second
    are given the same directory. *)
Theorem runDir_of_iso (date hh mm ss ms ms' engine : string) :
  iso_field date = true -> iso_field hh = true -> iso_field mm = true ->
  iso_field ss = true -> iso_field ms = true -> iso_field ms' = true ->
  timestamp_of (iso_string date hh mm ss ms) = date ++ "-" ++ hh ++ mm ++ ss
  /\ runDir_of (iso_string date hh mm ss ms) engine
     = date ++ "-" ++ hh ++ mm ++ ss ++ "--" ++ engine
  /\ runDir_of (iso_string date hh mm ss ms) engine
     = runDir_of (iso_string date hh mm ss ms') engine.
Proof.
  intros Hd Hh Hm Hs Hms Hms'.
  assert (Hts : forall f, iso_field f = true ->
            timestamp_of (iso_string date hh mm ss f) = date ++ "-" ++ hh ++ mm ++ ss).
  { intros f Hf. unfold timestamp_of, iso_string. cbn [append].
    rewrite (replace_first_found "T" "-" date _ (iso_field_no_char "T" date eq_refl Hd)).
    rewrite remove_all_append, (remove_all_absent ":" date (iso_field_no_char ":" date eq_refl Hd)).
    rewrite (remove_all_cons ":" "-"), (remove_all_append ":" hh),
      (remove_all_absent ":" hh (iso_field_no_char ":" hh eq_refl Hh)).
    rewrite (remove_all_cons ":" ":"), (remove_all_append ":" mm),
      (remove_all_absent ":" mm (iso_field_no_char ":" mm eq_refl Hm)).
    rewrite (remove_all_cons ":" ":"), (remove_all_append ":" ss),
      (remove_all_absent ":" ss (iso_field_no_char ":" ss eq_refl Hs)).
    rewrite (remove_all_cons ":" "."), (remove_all_append ":" f),
      (remove_all_absent ":" f (iso_field_no_char ":" f eq_refl Hf)).
    cbv beta iota delta [Ascii.eqb Bool.eqb]. cbv beta iota.
    change (remove_all ":" "Z") with "Z".
    assert (Hre : date ++ String "-" (hh ++ mm ++ ss ++ String "." (f ++ "Z"))
                  = (date ++ String "-" (hh ++ mm ++ ss)) ++ String "." (f ++ "Z")).
    { rewrite <- ?string_app_assoc. cbn [append]. rewrite <- ?string_app_assoc. reflexivity. }
    rewrite Hre. clear Hre.
    destruct (f ++ "Z") as [|d t] eqn:Ef.
    { destruct f; discriminate. }
    apply remove_dot_tail_found.
    - rewrite no_char_append. unfold no_char at 2. cbn [JsString.forallb].
      fold (no_char "." (hh ++ mm ++ ss)). rewrite !no_char_append.
      rewrite (iso_field_no_char "." date eq_refl Hd), (iso_field_no_char "." hh eq_refl Hh),
        (iso_field_no_char "." mm eq_refl Hm), (iso_field_no_char "." ss eq_refl Hs).
      reflexivity.
    - rewrite <- Ef, forallb_append, (iso_field_no_terminator f Hf). reflexivity. }
  split; [now apply Hts|].
  unfold runDir_of. rewrite (Hts ms Hms), (Hts ms' Hms').
  split; [|reflexivity].
  rewrite <- ?string_app_assoc. cbn [append]. rewrite <- ?string_app_assoc. reflexivity.
Qed.

Lemma runDir_of_iso_witness :
  runDir_of "2024-01-02T03:04:05.678Z" "yahoo" = "2024-01-02-030405--yahoo"
  /\ runDir_of "2024-01-02T03:04:05.678Z" "yahoo"
     = runDir_of "2024-01-02T03:04:05.999Z" "yahoo".
Proof.
  destruct (runDir_of_iso "2024-01-02" "03" "04" "05" "678" "999" "yahoo"
              eq_refl eq_refl eq_refl eq_refl eq_refl eq_refl) as (_ & H1 & H2).
  split; [exact H1|exact H2].
Defined.

(** X5. Whatever the clock reads, the timestamp of the run directory holds no
    colon. *)
Theorem timestamp_of_no_colon (iso : string) :
  no_char ":" (timestamp_of iso) = true.
Proof.
  unfold timestamp_of. apply remove_dot_tail_no_char, remove_all_none.
Qed.



(** ** Column selectors (generateSearchScreenshots, lines 84-121) *)

(** X6. Without a selector, or with the empty selector, the column is the
    first header that reads "query", letter case aside, and the first column
    if there is none: a header that only contains "query" is not looked for. *)
Theorem default_column (hdrs : list string) :
  resolve_queryColIndex hdrs (Some "") = resolve_queryColIndex hdrs None
  /\ ((exists i, first_index (same_name "query") hdrs i
                 /\ resolve_queryColIndex hdrs None = JsNumber.of_nat i)
      \/ (no_index (same_name "query") hdrs
          /\ resolve_queryColIndex hdrs None = JsNumber.of_nat 0)).
Proof.
  split; [reflexivity|].
  unfold resolve_queryColIndex.
  destruct (findIndex_spec (fun h => JsString.toLowerCase h =? "query") hdrs)
    as [[Hnone Hno]|(i & Hi & Hfirst)].
  - right. split; [exact Hno|]. rewrite Hnone. reflexivity.
  - left. exists i. split; [exact Hfirst|]. rewrite Hi.
    destruct (Z.of_nat i >=? 0)%Z eqn:E; [reflexivity|].
    rewrite Z.geb_leb in E. apply Z.leb_gt in E. lia.
Qed.

Lemma trimStart_blank (s : string) :
  JsString.forallb JsString.is_whitespace s = true -> JsString.trimStart s = "".
Proof.
  induction s as [|c s IH]; [reflexivity|].
  simpl. intros H. apply andb_prop in H as [Hc Hs]. rewrite Hc. now apply IH.
Qed.

(** X7. A selector made of white space only is read as the number 0: it
    selects the first column, whatever the headers are. *)
Theorem blank_selector (hdrs : list string) (column : string) (rows : list Row) :
  column <> "" ->
  JsString.forallb JsString.is_whitespace column = true ->
  resolve_queryColIndex hdrs (Some column) = JsNumber.of_nat 0
  /\ extract_queries hdrs (Some column) rows = collect_queries (JsNumber.of_nat 0) rows.
Proof.
  intros Hne Hblank.
  assert (H : resolve_queryColIndex hdrs (Some column) = JsNumber.of_nat 0).
  { unfold resolve_queryColIndex. destruct column as [|c0 crest]; [congruence|].
    unfold JsNumber.Number, JsString.trim. rewrite (trimStart_blank _ Hblank).
    reflexivity. }
  split; [exact H|]. unfold extract_queries. now rewrite H.
Qed.

Lemma blank_selector_witness :
  extract_queries ["id"; "query"] (Some "  ")
    [[("id", "7"); ("query", "foo")]; [("id", "8"); ("query", "bar")]] = ["7"; "8"].
Proof.
  destruct (blank_selector ["id"; "query"] "  "
              [[("id", "7"); ("query", "foo")]; [("id", "8"); ("query", "bar")]])
    as [_ H]; [discriminate|reflexivity|].
  rewrite H. reflexivity.
Defined.

(** X8. A numeric selector that is not a non-negative integer (a fraction, a
    negative number, an infinity) selects no cell in any row: no query is
    extracted. *)
Theorem non_index_selector (hdrs : list string) (column : string) (rows : list Row) :
  column <> "" ->
  JsNumber.isNaN (JsNumber.Number column) = false ->
  JsNumber.to_index (JsNumber.Number column) = None ->
  extract_queries hdrs (Some column) rows = [].
Proof.
  intros Hne Hnum Hidx.
  assert (H : resolve_queryColIndex hdrs (Some column) = JsNumber.Number column).
  { unfold resolve_queryColIndex. destruct column as [|c0 crest]; [congruence|].
    now rewrite Hnum. }
  unfold extract_queries. rewrite H, collect_queries_flat_map.
  induction rows as [|row rows IH]; [reflexivity|].
  simpl. rewrite IH, app_nil_r.
  unfold row_queries, JsArray.get. now rewrite Hidx.
Qed.

Lemma non_index_selector_witness :
  extract_queries ["notes"; "query"] (Some "1.5")
    [[("notes", "n"); ("query", "foo")]; [("notes", "m"); ("query", "bar")]] = []
  /\ extract_queries ["notes"; "query"] (Some "Infinity")
       [[("notes", "n"); ("query", "foo")]] = [].
Proof.
  split.
  - apply (non_index_selector ["notes"; "query"] "1.5");
      [discriminate | vm_compute; reflexivity | vm_compute; reflexivity].
  - apply (non_index_selector ["notes"; "query"] "Infinity");
      [discriminate | vm_compute; reflexivity | vm_compute; reflexivity].
Defined.


Lemma lower_char_idempotent (c : ascii) :
  JsString.lower_char (JsString.lower_char c) = JsString.lower_char c.
Proof. destruct c as [[] [] [] [] [] [] [] []]; reflexivity. Qed.

Lemma toLowerCase_idempotent (s : string) :
  JsString.toLowerCase (JsString.toLowerCase s) = JsString.toLowerCase s.
Proof.
  unfold JsString.toLowerCase. induction s as [|c s IH]; [reflexivity|].
  simpl. now rewrite lower_char_idempotent, IH.
Qed.

Lemma findIndex_from_map {A B : Type} (p : B -> bool) (q : A -> bool) (f : A -> B)
      (l : list A) (k : Z) :
  (forall x, p (f x) = q x) ->
  JsArray.findIndex_from p (List.map f l) k = JsArray.findIndex_from q l k.
Proof.
  intros H. revert k. induction l as [|x l IH]; intros k; [reflexivity|].
  simpl. rewrite H. destruct (q x); [reflexivity|apply IH].
Qed.

(** X9. The letter case of the headers never matters to the choice of the
    column, and neither does the letter case of a selector that is a name. *)
Theorem column_case_irrelevant (hdrs : list string) (column : option string) :
  resolve_queryColIndex (List.map JsString.toLowerCase hdrs) column
  = resolve_queryColIndex hdrs column
  /\ forall c c',
      c <> "" -> c' <> "" ->
      JsString.toLowerCase c = JsString.toLowerCase c' ->
      JsNumber.isNaN (JsNumber.Number c) = true ->
      JsNumber.isNaN (JsNumber.Number c') = true ->
      resolve_queryColIndex hdrs (Some c) = resolve_queryColIndex hdrs (Some c').
Proof.
  split.
  - assert (Hq : forall (q : string -> bool),
               (forall h, q (JsString.toLowerCase h) = q h) ->
               JsArray.findIndex q (List.map JsString.toLowerCase hdrs)
               = JsArray.findIndex q hdrs).
    { intros q Hq. unfold JsArray.findIndex. now apply findIndex_from_map. }
    unfold resolve_queryColIndex. cbv zeta.
    destruct column as [[|c0 crest]|];
      rewrite !Hq by (intros h; now rewrite toLowerCase_idempotent); reflexivity.
  - intros c c' Hc Hc' Hlow Hn Hn'. unfold resolve_queryColIndex.
    destruct c as [|c0 crest]; [congruence|]. destruct c' as [|c0' crest']; [congruence|].
    rewrite Hn, Hn', Hlow. reflexivity.
Qed.

Lemma column_case_irrelevant_witness :
  resolve_queryColIndex ["Id"; "Search Term"] (Some "TERM")
  = resolve_queryColIndex ["Id"; "Search Term"] (Some "term").
Proof.
  destruct (column_case_irrelevant ["Id"; "Search Term"] None) as [_ H].
  apply H; try discriminate; reflexivity.
Defined.

(** ** Decimal indices ([String(n)], [Number], array access) *)

Lemma digits2_bounds (p : positive) :
  (2 ^ (Zpos (digits2_pos p) - 1) <= Zpos p < 2 ^ Zpos (digits2_pos p))%Z.
Proof.
  induction p as [p IH|p IH|]; cbn [digits2_pos].
  - rewrite Pos2Z.inj_succ.
    replace (Z.succ (Zpos (digits2_pos p)) - 1)%Z with (Z.succ (Zpos (digits2_pos p) - 1))%Z by lia.
    rewrite !Z.pow_succ_r by lia. lia.
  - rewrite Pos2Z.inj_succ.
    replace (Z.succ (Zpos (digits2_pos p)) - 1)%Z with (Z.succ (Zpos (digits2_pos p) - 1))%Z by lia.
    rewrite !Z.pow_succ_r by lia. lia.
  - simpl. lia.
Qed.

Lemma iter_xO_value (p d : positive) :
  Zpos (Pos.iter xO p d) = (Zpos p * 2 ^ Zpos d)%Z.
Proof.
  induction d as [|d IH] using Pos.peano_ind.
  - simpl. lia.
  - rewrite Pos.iter_succ, Pos2Z.inj_succ, Z.pow_succ_r by lia.
    rewrite Pos2Z.inj_xO, IH. lia.
Qed.

Lemma digits2_iter_xO (p d : positive) :
  digits2_pos (Pos.iter xO p d) = (digits2_pos p + d)%positive.
Proof.
  induction d as [|d IH] using Pos.peano_ind.
  - simpl. lia.
  - rewrite Pos.iter_succ. cbn [digits2_pos]. rewrite IH. lia.
Qed.

(** A positive integer below 2^53 is a number exactly: its mantissa is the
    integer shifted to 53 bits. *)
Lemma of_Z_exact (p : positive) :
  (Zpos p < 2 ^ 53)%Z ->
  JsNumber.of_Z (Zpos p) = S754_finite false p 0
  \/ exists d, JsNumber.of_Z (Zpos p) = S754_finite false (Pos.iter xO p d) (Zneg d).
Proof.
  intros Hlt.
  assert (Hdig : (Zpos (digits2_pos p) <= 53)%Z).
  { destruct (Z.le_gt_cases (Zpos (digits2_pos p)) 53) as [H|H]; [exact H|].
    pose proof (digits2_bounds p) as [Hlo _].
    assert (2 ^ 53 <= 2 ^ (Zpos (digits2_pos p) - 1))%Z by (apply Z.pow_le_mono_r; lia).
    lia. }
  unfold JsNumber.of_Z, binary_normalize, binary_round, JsNumber.prec, JsNumber.emax.
  assert (Hfexp : fexp 53 1024 (Zpos (digits2_pos p) + 0) = (Zpos (digits2_pos p) - 53)%Z).
  { unfold fexp, emin. lia. }
  rewrite Hfexp. unfold shl_align.
  destruct (Zpos (digits2_pos p) - 53 - 0)%Z as [|d|d] eqn:Ed.
  - left. unfold binary_round_aux, shr_fexp. cbn [Zdigits2 shr_record_of_loc].
    assert (Hf0 : (fexp 53 1024 (Zpos (digits2_pos p) + 0) - 0 = 0)%Z) by (rewrite Hfexp; lia).
    rewrite Hf0. cbn [shr shr_m shr_r shr_s loc_of_shr_record round_nearest_even
                      Zdigits2 shr_record_of_loc].
    rewrite Hf0. cbn [shr shr_m]. reflexivity.
  - lia.
  - right. exists d.
    unfold binary_round_aux, shr_fexp. cbn [Zdigits2 shr_record_of_loc].
    assert (Hf0 : (fexp 53 1024 (Zpos (digits2_pos (Pos.iter xO p d))
                                 + (Zpos (digits2_pos p) - 53))
                   - (Zpos (digits2_pos p) - 53) = 0)%Z).
    { rewrite digits2_iter_xO. unfold fexp, emin. lia. }
    rewrite Hf0. cbn [shr shr_m shr_r shr_s loc_of_shr_record round_nearest_even
                      Zdigits2 shr_record_of_loc].
    rewrite Hf0. cbn [shr shr_m].
    assert (He : (Zpos (digits2_pos p) - 53 = Zneg d)%Z) by lia.
    rewrite He.
    destruct (Zneg d <=? 1024 - 53)%Z eqn:El; [reflexivity|].
    apply Z.leb_gt in El. lia.
Qed.

Lemma to_index_of_nat (n : nat) :
  (Z.of_nat n < 2 ^ 53)%Z ->
  JsNumber.to_index (JsNumber.of_nat n) = Some (Z.of_nat n)
  /\ JsNumber.isNaN (JsNumber.of_nat n) = false.
Proof.
  intros Hlt. unfold JsNumber.of_nat.
  destruct (Z.of_nat n) as [|p|p] eqn:En; [split; reflexivity| |lia].
  destruct (of_Z_exact p Hlt) as [->|[d ->]].
  - split; [|reflexivity]. cbn [JsNumber.to_index]. f_equal. lia.
  - split; [|reflexivity]. cbn [JsNumber.to_index].
    rewrite iter_xO_value.
    assert (0 < 2 ^ Zpos d)%Z by (apply Z.pow_pos_nonneg; lia).
    rewrite Z.mod_mul by lia. cbn [Z.eqb]. rewrite Z.div_mul by lia. reflexivity.
Qed.

Lemma get_of_nat {A : Type} (arr : list A) (n : nat) :
  (Z.of_nat n < 2 ^ 53)%Z ->
  JsArray.get arr (JsNumber.of_nat n) = nth_error arr n.
Proof.
  intros Hlt. unfold JsArray.get.
  destruct (to_index_of_nat n Hlt) as [-> _].
  destruct (Z.of_nat n <? Z.of_nat (length arr))%Z eqn:E.
  - now rewrite Nat2Z.id.
  - apply Z.ltb_ge in E. symmetry. apply nth_error_None. lia.
Qed.

Lemma string_of_uint_digits (d : Decimal.uint) :
  JsString.forallb JsNumber.is_digit (NilEmpty.string_of_uint d) = true.
Proof. induction d; simpl; auto. Qed.

Lemma digits_value_uint (d : Decimal.uint) (acc : nat) :
  JsNumber.digits_value (N.of_nat acc) (NilEmpty.string_of_uint d)
  = N.of_nat (Nat.of_uint_acc d acc).
Proof.
  revert acc. induction d; intros acc; cbn [NilEmpty.string_of_uint Nat.of_uint_acc
                                            JsNumber.digits_value]; [reflexivity|..];
    rewrite <- IHd; f_equal; rewrite Nat.tail_mul_spec;
    unfold JsNumber.digit_value, JsString.code; cbn [N_of_ascii N_of_digits]; lia.
Qed.

Lemma digits_value_of_nat (n : nat) :
  JsNumber.digits_value 0 (JsString.of_nat n) = N.of_nat n.
Proof.
  unfold JsString.of_nat.
  pose proof (digits_value_uint (Nat.to_uint n) 0) as H.
  change (N.of_nat 0) with 0%N in H. rewrite H.
  fold (Nat.of_uint (Nat.to_uint n)). now rewrite DecimalNat.Unsigned.of_to.
Qed.

Lemma of_nat_digits (n : nat) :
  JsString.forallb JsNumber.is_digit (JsString.of_nat n) = true.
Proof. apply string_of_uint_digits. Qed.

Lemma of_nat_nonempty (n : nat) : JsString.of_nat n <> "".
Proof.
  unfold JsString.of_nat.
  assert (H : Nat.to_uint n <> Decimal.Nil).
  { rewrite <- (DecimalNat.Unsigned.of_to n) at 1.
    rewrite DecimalNat.Unsigned.to_of. apply DecimalFacts.unorm_nonnil. }
  destruct (Nat.to_uint n); [congruence|..]; discriminate.
Qed.

Lemma digit_not_space (c : ascii) :
  JsNumber.is_digit c = true -> JsString.is_whitespace c = false.
Proof. destruct c as [[] [] [] [] [] [] [] []]; try reflexivity; discriminate. Qed.

Lemma digits_ends (s : string) :
  JsString.forallb JsNumber.is_digit s = true -> JsString.ends_with_space s = false.
Proof.
  induction s as [|c s IH]; [reflexivity|].
  simpl. intros H. apply andb_prop in H as [Hc Hs].
  destruct s; [now apply digit_not_space|now apply IH].
Qed.

Lemma digits_starts (s : string) :
  JsString.forallb JsNumber.is_digit s = true -> JsString.starts_with_space s = false.
Proof.
  destruct s as [|c s]; [reflexivity|].
  simpl. intros H. apply andb_prop in H as [Hc _]. now apply digit_not_space.
Qed.

Lemma trim_digits (s : string) :
  JsString.forallb JsNumber.is_digit s = true -> JsString.trim s = s.
Proof.
  intros H. unfold JsString.trim.
  rewrite (JsStringFacts.trimStart_id s (digits_starts s H)).
  apply JsStringFacts.trimEnd_id, digits_ends, H.
Qed.

Lemma span_digits_all (s : string) :
  JsString.forallb JsNumber.is_digit s = true -> JsNumber.span_digits s = (s, "").
Proof.
  induction s as [|c s IH]; [reflexivity|].
  simpl. intros H. apply andb_prop in H as [Hc Hs]. now rewrite Hc, (IH Hs).
Qed.

Lemma non_decimal_digits (s : string) :
  JsString.forallb JsNumber.is_digit s = true -> JsNumber.non_decimal s = None.
Proof.
  intros H. unfold JsNumber.non_decimal.
  destruct s as [|c0 s]; [reflexivity|].
  destruct s as [|p s]; [destruct c0 as [[] [] [] [] [] [] [] []]; reflexivity|].
  destruct s as [|c d]; [destruct c0 as [[] [] [] [] [] [] [] []]; reflexivity|].
  cbn [JsString.forallb] in H.
  apply andb_prop in H as [_ H]. apply andb_prop in H as [Hp _].
  destruct c0 as [[] [] [] [] [] [] [] []]; try reflexivity;
    destruct p as [[] [] [] [] [] [] [] []]; try reflexivity; discriminate.
Qed.

Lemma unsigned_decimal_digits (neg : bool) (s : string) :
  s <> "" -> JsString.forallb JsNumber.is_digit s = true ->
  JsNumber.unsigned_decimal neg s = JsNumber.of_decimal neg (JsNumber.digits_value 0 s) 0.
Proof.
  intros Hne H. unfold JsNumber.unsigned_decimal.
  assert (Hinf : (s =? "Infinity") = false).
  { apply String.eqb_neq. intros ->. discriminate. }
  rewrite Hinf, (span_digits_all s H).
  destruct s; [congruence|reflexivity].
Qed.

(** [Number(String(n))] is the number of [n]. *)
Lemma Number_of_nat (n : nat) :
  JsNumber.Number (JsString.of_nat n) = JsNumber.of_nat n.
Proof.
  pose proof (of_nat_digits n) as Hd. pose proof (of_nat_nonempty n) as Hne.
  pose proof (digits_value_of_nat n) as Hv.
  unfold JsNumber.Number. rewrite (trim_digits _ Hd).
  destruct (JsString.of_nat n) as [|c s] eqn:Es; [congruence|].
  rewrite (non_decimal_digits _ Hd).
  assert (Hu : JsNumber.unsigned_decimal false (String c s) = JsNumber.of_nat n).
  { rewrite (unsigned_decimal_digits false _ Hne Hd), Hv.
    unfold JsNumber.of_decimal, JsNumber.of_nat, JsNumber.of_Z, binary_normalize.
    destruct n as [|n]; [reflexivity|].
    cbn [N.of_nat Z.of_nat].
    change (Z.to_pos (10 ^ 0)) with 1%positive. now rewrite Pos.mul_1_r. }
  cbn [JsString.forallb] in Hd. apply andb_prop in Hd as [Hc _].
  destruct c as [[] [] [] [] [] [] [] []]; try discriminate Hc; exact Hu.
Qed.

(** X10. A selector that is the decimal numeral of [n] selects the column with
    index [n], whatever the headers are called, and reads the [n]-th cell of
    every row. *)
Theorem decimal_index_selector {A : Type} (hdrs : list string) (n : nat) (cells : list A) :
  (Z.of_nat n < 2 ^ 53)%Z ->
  JsNumber.Number (JsString.of_nat n) = JsNumber.of_nat n
  /\ resolve_queryColIndex hdrs (Some (JsString.of_nat n)) = JsNumber.of_nat n
  /\ JsArray.get cells (JsNumber.of_nat n) = nth_error cells n.
Proof.
  intros Hlt. split; [apply Number_of_nat|]. split; [|now apply get_of_nat].
  unfold resolve_queryColIndex.
  destruct (JsString.of_nat n) as [|c0 crest] eqn:Es; [now destruct (of_nat_nonempty n)|].
  rewrite <- Es, Number_of_nat.
  destruct (to_index_of_nat n Hlt) as [_ ->]. reflexivity.
Qed.

Lemma decimal_index_selector_witness :
  resolve_queryColIndex ["2"; "1"; "0"] (Some "2") = JsNumber.of_nat 2
  /\ JsArray.get ["a"; "b"; "c"] (JsNumber.of_nat 2) = Some "c".
Proof.
  destruct (decimal_index_selector ["2"; "1"; "0"] 2 ["a"; "b"; "c"]) as (_ & H1 & H2);
    [vm_compute; reflexivity|].
  split; [exact H1|exact H2].
Defined.



(** ** File names (processQuery, lines 219-221) *)

Lemma sanitize_safe (s : string) :
  JsString.forallb is_safe_char s = true -> sanitize s = s.
Proof.
  induction s as [|c s IH]; [reflexivity|].
  unfold sanitize in *. simpl. intros H. apply andb_prop in H as [Hc Hs].
  rewrite (IH Hs). unfold sanitize_char. now rewrite Hc.
Qed.

Lemma substring_0_all (n : nat) (s : string) :
  String.length s <= n -> substring 0 n s = s.
Proof.
  revert n. induction s as [|c s IH]; intros [|n] H; simpl in *; try reflexivity; try lia.
  f_equal. apply IH. lia.
Qed.

(** X11. Sanitizing is idempotent: the sanitized part of a file name is left
    as it is when it is sanitized again. *)
Theorem safeQuery_idempotent (query : string) :
  safeQuery (safeQuery query) = safeQuery query.
Proof.
  unfold safeQuery at 1.
  rewrite (sanitize_safe _ (safeQuery_safe query)).
  unfold JsString.slice. change (40 - 0) with 40.
  rewrite (substring_0_all _ _ (safeQuery_length query)).
  unfold safeQuery. apply JsStringFacts.trim_idempotent.
Qed.

Lemma digits_value_zeros (k : nat) (s : string) :
  JsNumber.digits_value 0 (JsString.repeat "0" k ++ s) = JsNumber.digits_value 0 s.
Proof. induction k as [|k IH]; [reflexivity|exact IH]. Qed.

Lemma repeat_forallb (p : ascii -> bool) (c : ascii) (k : nat) :
  p c = true -> JsString.forallb p (JsString.repeat c k) = true.
Proof. intros H. induction k as [|k IH]; [reflexivity|]. simpl. now rewrite H, IH. Qed.

Lemma separator_unique (c : ascii) (a b x y : string) :
  no_char c a = true -> no_char c b = true ->
  a ++ String c x = b ++ String c y -> a = b.
Proof.
  revert b. induction a as [|a0 a IH]; intros [|b0 b] Ha Hb H;
    unfold no_char in *; simpl in *.
  - reflexivity.
  - injection H as <- _. apply andb_prop in Hb as [Hb _].
    now rewrite Ascii.eqb_refl in Hb.
  - injection H as -> _. apply andb_prop in Ha as [Ha _].
    now rewrite Ascii.eqb_refl in Ha.
  - injection H as -> H. apply andb_prop in Ha as [_ Ha]. apply andb_prop in Hb as [_ Hb].
    f_equal. now apply (IH b).
Qed.

Lemma digits_no_underscore (s : string) :
  JsString.forallb JsNumber.is_digit s = true -> no_char "_" s = true.
Proof.
  induction s as [|c s IH]; [reflexivity|].
  unfold no_char in *. simpl. intros H. apply andb_prop in H as [Hc Hs].
  rewrite (IH Hs), andb_true_r.
  destruct c as [[] [] [] [] [] [] [] []]; try reflexivity; discriminate.
Qed.

Lemma padded_index_digits (index : nat) :
  JsString.forallb JsNumber.is_digit
    (JsString.padStart (JsString.of_nat (index + 1)) 3 "0") = true.
Proof.
  unfold JsString.padStart.
  rewrite forallb_append, (of_nat_digits (index + 1)), andb_true_r.
  now apply repeat_forallb.
Qed.

Lemma filename_index (index index' : nat) (engine engine' deviceName deviceName'
                                                  query query' : string) :
  filename index engine deviceName query = filename index' engine' deviceName' query' ->
  index = index'.
Proof.
  unfold filename. intros H.
  apply separator_unique in H;
    [|apply digits_no_underscore, padded_index_digits
     |apply digits_no_underscore, padded_index_digits].
  apply (f_equal (JsNumber.digits_value 0)) in H.
  unfold JsString.padStart in H.
  rewrite !digits_value_zeros, !digits_value_of_nat in H. lia.
Qed.

Lemma map_fst_combine_seq {A : Type} (l : list A) (s : nat) :
  List.map fst (combine (seq s (length l)) l) = seq s (length l).
Proof.
  revert s. induction l as [|x l IH]; intros s; [reflexivity|].
  simpl. now rewrite IH.
Qed.

(** X12. The screenshots of one run all have different file names, also when
    queries repeat or are sanitized to the same text: the sequence number in
    front tells them apart. *)
Theorem filenames_distinct (queries : list string) (engine deviceName : string) :
  NoDup (List.map (fun p => filename (fst p) engine deviceName (snd p))
                  (indexed queries)).
Proof.
  assert (H : forall (l : list (nat * string)),
             NoDup (List.map fst l) ->
             NoDup (List.map (fun p => filename (fst p) engine deviceName (snd p)) l)).
  { induction l as [|p l IH]; simpl; intros Hnd; [constructor|].
    inversion Hnd as [|? ? Hnotin Hnd']. subst. constructor; [|now apply IH].
    intros Hin. apply in_map_iff in Hin as (p' & Heq & Hin').
    apply filename_index in Heq. apply Hnotin. rewrite <- Heq. now apply in_map. }
  apply H. unfold indexed.
  rewrite map_fst_combine_seq. apply seq_NoDup.
Qed.

Lemma trimmed_starts (q : string) :
  JsString.trim q = q -> JsString.starts_with_space q = false.
Proof.
  intros <-. unfold JsString.trim.
  apply JsStringFacts.trimEnd_starts, JsStringFacts.trimStart_starts.
Qed.

Lemma sanitize_char_not_space (c : ascii) :
  JsString.is_whitespace c = false -> JsString.is_whitespace (sanitize_char c) = false.
Proof.
  unfold sanitize_char. destruct (is_safe_char c); [auto|reflexivity].
Qed.

Lemma trimEnd_nonempty (c : ascii) (s : string) :
  JsString.is_whitespace c = false -> JsString.trimEnd (String c s) <> "".
Proof.
  intros Hc. simpl. destruct (JsString.trimEnd s); [rewrite Hc|]; discriminate.
Qed.

Lemma safeQuery_nonempty (q : string) :
  q <> "" -> JsString.trim q = q -> safeQuery q <> "".
Proof.
  intros Hne Htrim. pose proof (trimmed_starts q Htrim) as Hs.
  destruct q as [|c r]; [congruence|]. simpl in Hs.
  unfold safeQuery, sanitize, JsString.slice, JsString.trim.
  cbn [JsString.map Nat.sub substring JsString.trimStart].
  rewrite (sanitize_char_not_space c Hs).
  apply trimEnd_nonempty, sanitize_char_not_space, Hs.
Qed.

(** X13. Every query that is extracted from the CSV file has a sanitized part
    that is not empty: no screenshot is named after its number, engine and
    device alone. *)
Theorem extracted_query_named (hdrs : list string) (column : option string)
        (rows : list Row) (q : string) :
  In q (extract_queries hdrs column rows) -> safeQuery q <> "".
Proof.
  unfold extract_queries. rewrite collect_queries_flat_map.
  intros Hin. apply in_flat_map in Hin as (row & _ & Hq).
  apply row_queries_sound in Hq as (Hne & Htrim & _).
  now apply safeQuery_nonempty.
Qed.

Lemma extracted_query_named_witness :
  (safeQuery "???" =? "") = false.
Proof.
  apply String.eqb_neq.
  apply (extracted_query_named ["query"] None [[("query", " ??? ")]] "???").
  vm_compute. left. reflexivity.
Defined.

(** ** The attempts of processQuery (lines 226-314) *)

Section AttemptFacts.

Variable path_join : string -> string -> string.
Variables (query : string) (index : nat) (engine deviceName output : string)
            (delay : JsNumber.t) (useChrome : bool) (quality : JsNumber.t).

Local Abbreviation attempt' :=
    (attempt path_join query index engine deviceName output delay useChrome quality).
Local Abbreviation attempt_loop' :=
    (attempt_loop path_join query index engine deviceName output delay useChrome quality).
Local Abbreviation processQuery' :=
    (processQuery path_join query index engine deviceName output delay useChrome quality).
Local Abbreviation attempt_events' :=
    (attempt_events path_join query index engine deviceName output delay useChrome
                    quality).
Local Abbreviation filepath' :=
    (filepath path_join query index engine deviceName output).

Ltac step_attempt :=
    cbv beta iota zeta delta
      [attempt_events entered attempt try_catch_finally try_block catch_block
       finally_block await bind emit ret throw incr_retries set_success get_retries
       continue_ retries success trace fst snd];
    repeat match goal with
      | |- context [if ?c then _ else _] => destruct c eqn:?; cbv beta iota
      end.

  (** The pass through the loop body does not look at the trace so far. *)
Lemma attempt_frame (env : PageEnv) (s : PQState) :
    success s = false ->
    attempt' env s
    = (fst (attempt' env (entered (retries s))),
       {| retries := retries (snd (attempt' env (entered (retries s))));
          success := success (snd (attempt' env (entered (retries s))));
          trace := (trace s ++ attempt_events' env (retries s))%list |}).
Proof.
    destruct s as [r b t]. cbn [success retries trace]. intros ->.
    step_attempt; rewrite <- ?app_assoc; cbn [app]; reflexivity.
Qed.

  (** What a pass through the loop body leaves in the trace, by kind: one
      page is opened, and closed unless it could not be opened; a saved
      screenshot goes with success; a failure report needs the last retry; a
      backoff goes with a warning and needs a retry that is left. *)
Lemma attempt_events_counts (env : PageEnv) (r : nat) :
    let a := attempt' env (entered r) in
    let evs := attempt_events' env r in
    attempts evs = 1
    /\ filter is_page_event evs
       = (if page_throws env NewPageOp then [ENewPage index]
          else [ENewPage index; EPageClose index])
    /\ count is_saved evs = (if success (snd a) then 1 else 0)
    /\ count is_errorFailed evs <= (if success (snd a) then 0 else 1)
    /\ (S r <= maxRetries -> count is_errorFailed evs = 0)
    /\ count is_setTimeout evs = count is_warnRetry evs
    /\ count is_setTimeout evs <= (if success (snd a) then 0 else 1)
    /\ (maxRetries < S r -> count is_setTimeout evs = 0)
    /\ (retries (snd a) = r -> (forall err, fst a <> Throw err) -> success (snd a) = true).
Proof.
    cbv zeta.
    step_attempt;
      repeat match goal with
        | H : (_ <=? _)%nat = true |- _ => apply Nat.leb_le in H
        | H : (_ <=? _)%nat = false |- _ => apply Nat.leb_gt in H
        end;
      (split; [reflexivity|]); (split; [reflexivity|]); (split; [reflexivity|]);
      (split; [cbv; lia|]); (split; [intros; try reflexivity; lia|]);
      (split; [reflexivity|]); (split; [cbv; lia|]);
      (split; [intros; try reflexivity; lia|]);
      intros Hr Hc; try reflexivity; try lia; exfalso; eapply Hc; reflexivity.
Qed.

Lemma flat_map_seq_S {B : Type} (f : nat -> list B) (a n : nat) :
    flat_map f (seq (S a) n) = flat_map (fun k => f (S k)) (seq a n).
Proof.
    revert a. induction n as [|n IH]; intros a; [reflexivity|].
    simpl. now rewrite IH.
Qed.

Lemma guard_entered (s : PQState) :
    success s = false -> retries s <= maxRetries -> loop_guard s = true.
Proof.
    intros Hs Hr. unfold loop_guard. rewrite Hs.
    apply Nat.leb_le in Hr. now rewrite Hr.
Qed.

  (** The runs of the loop: [n] passes through the body, of which only the
      last can throw or succeed. *)
Lemma attempt_loop_structure (pages : nat -> PageEnv) (s : PQState) :
    success s = false -> retries s <= maxRetries ->
    exists n,
      1 <= n /\ retries s + n <= S maxRetries
      /\ trace (snd (attempt_loop' pages s))
         = (trace s ++ flat_map (fun k => attempt_events' (pages k) (retries s + k))
                                (seq 0 n))%list
      /\ (forall k, k < n - 1 ->
            (forall err, fst (attempt' (pages k) (entered (retries s + k))) <> Throw err)
            /\ success (snd (attempt' (pages k) (entered (retries s + k)))) = false)
      /\ fst (attempt_loop' pages s)
         = match fst (attempt' (pages (n - 1)) (entered (retries s + (n - 1)))) with
           | Throw err => Throw err
           | _ => Normal tt
           end
      /\ ((forall err,
              fst (attempt' (pages (n - 1)) (entered (retries s + (n - 1)))) <> Throw err) ->
          success (snd (attempt' (pages (n - 1)) (entered (retries s + (n - 1))))) = true
          \/ retries s + n = S maxRetries).
Proof.
    apply (attempt_loop_induction path_join query index engine deviceName output delay
             useChrome quality
             (fun pages s res =>
                success s = false -> retries s <= maxRetries ->
                exists n,
                  1 <= n /\ retries s + n <= S maxRetries
                  /\ trace (snd res)
                     = (trace s ++ flat_map (fun k => attempt_events' (pages k) (retries s + k))
                                            (seq 0 n))%list
                  /\ (forall k, k < n - 1 ->
                        (forall err, fst (attempt' (pages k) (entered (retries s + k)))
                                     <> Throw err)
                        /\ success (snd (attempt' (pages k) (entered (retries s + k)))) = false)
                  /\ fst res
                     = match fst (attempt' (pages (n - 1)) (entered (retries s + (n - 1)))) with
                       | Throw err => Throw err
                       | _ => Normal tt
                       end
                  /\ ((forall err,
                          fst (attempt' (pages (n - 1)) (entered (retries s + (n - 1))))
                          <> Throw err) ->
                      success (snd (attempt' (pages (n - 1))
                                             (entered (retries s + (n - 1))))) = true
                      \/ retries s + n = S maxRetries))).
    - (* the guard fails *)
      intros pgs st Hguard Hs Hr. rewrite (guard_entered st Hs Hr) in Hguard. discriminate.
    - (* the pass throws *)
      intros pgs st err st' Hguard Hatt Hs Hr.
      rewrite (attempt_frame (pgs 0) st Hs) in Hatt. injection Hatt as Hfst Hst'.
      exists 1. cbn [Nat.sub seq flat_map]. rewrite Nat.add_0_r, app_nil_r.
      split; [lia|]. split; [lia|].
      split; [subst st'; reflexivity|].
      split; [intros k Hk; lia|].
      split; [now rewrite Hfst|].
      intros Hno. now destruct (Hno err).
    - (* the pass completes, the loop goes on *)
      intros pgs st c st' Hguard Hatt Hc IH Hs Hr.
      rewrite (attempt_frame (pgs 0) st Hs) in Hatt. injection Hatt as Hfst Hst'.
      pose proof (attempt_outcome path_join query index engine deviceName output delay
                    useChrome quality (pgs 0) (entered (retries st))) as (evs & _ & _ & Hout).
      rewrite Hfst in Hout.
      assert (Hupd : (success st' = true /\ retries st' = retries st)
                     \/ (success st' = false /\ retries st' = S (retries st))).
      { subst st'. cbn [success retries].
        destruct c as [[]| |err]; [| |now destruct (Hc err)];
          destruct Hout as [_ [[H1 H2]|[H1 H2]]]; cbn [entered retries success] in *; auto. }
      assert (Htr : trace st' = (trace st ++ attempt_events' (pgs 0) (retries st))%list)
        by (subst st'; reflexivity).
      assert (Hnothrow : forall err,
                 fst (attempt' (pgs 0) (entered (retries st))) <> Throw err)
        by (rewrite Hfst; exact Hc).
      assert (Hone : forall b : bool,
                 success st' = b ->
                 success (snd (attempt' (pgs 0) (entered (retries st)))) = b)
        by (intros b <-; subst st'; reflexivity).
      assert (Hstop : loop_guard st' = false ->
                exists n,
                  1 <= n /\ retries st + n <= S maxRetries
                  /\ trace (snd (attempt_loop' (fun k => pgs (S k)) st'))
                     = (trace st ++ flat_map (fun k => attempt_events' (pgs k) (retries st + k))
                                             (seq 0 n))%list
                  /\ (forall k, k < n - 1 ->
                        (forall err, fst (attempt' (pgs k) (entered (retries st + k)))
                                     <> Throw err)
                        /\ success (snd (attempt' (pgs k) (entered (retries st + k)))) = false)
                  /\ fst (attempt_loop' (fun k => pgs (S k)) st')
                     = match fst (attempt' (pgs (n - 1)) (entered (retries st + (n - 1)))) with
                       | Throw err => Throw err
                       | _ => Normal tt
                       end
                  /\ ((forall err,
                          fst (attempt' (pgs (n - 1)) (entered (retries st + (n - 1))))
                          <> Throw err) ->
                      success (snd (attempt' (pgs (n - 1))
                                             (entered (retries st + (n - 1))))) = true
                      \/ retries st + n = S maxRetries)).
      { intros Hg. rewrite attempt_loop_eq, Hg. cbn [fst snd].
        exists 1. cbn [Nat.sub seq flat_map]. rewrite Nat.add_0_r, app_nil_r.
        split; [lia|]. split; [lia|]. split; [exact Htr|].
        split; [intros k Hk; lia|].
        split.
        { rewrite Hfst. destruct c as [[]| |err]; [reflexivity|reflexivity|now destruct (Hc err)]. }
        intros _. destruct Hupd as [[Hsucc _]|[Hsucc Hret]]; [left; now apply Hone|right].
        unfold loop_guard in Hg. rewrite Hsucc, Hret, andb_true_r in Hg.
        apply Nat.leb_gt in Hg. lia. }
      destruct (loop_guard st') eqn:Hg; [|now apply Hstop].
      unfold loop_guard in Hg. apply andb_prop in Hg as [Hle Hns].
      apply Nat.leb_le in Hle. apply negb_true_iff in Hns.
      destruct Hupd as [[Hsucc _]|[_ Hret]]; [congruence|].
      destruct (IH Hns Hle) as (n & Hn1 & Hn2 & Htrace & Hbefore & Hres & Hlast).
      exists (S n). rewrite Hret in *.
      replace (S n - 1) with (S (n - 1)) by lia.
      split; [lia|]. split; [lia|].
      split.
      { rewrite Htrace, Htr, <- app_assoc. f_equal.
        cbn [seq flat_map]. rewrite Nat.add_0_r. f_equal.
        rewrite flat_map_seq_S. apply flat_map_ext. intros k.
        now rewrite Nat.add_succ_r. }
      split.
      { intros [|k] Hk.
        - rewrite Nat.add_0_r. split; [exact Hnothrow|now apply Hone].
        - rewrite Nat.add_succ_r. apply Hbefore. lia. }
      rewrite Nat.add_succ_r. cbn [Nat.add] in Hres, Hlast.
      split; [exact Hres|].
      intros Hno. destruct (Hlast Hno) as [H|H]; [now left|right; lia].
Qed.

  (** How a pass that does not throw ends. *)
Lemma attempt_events_end (env : PageEnv) (r : nat) :
    let a := attempt' env (entered r) in
    let evs := attempt_events' env r in
    let pre := removelast (removelast evs) in
    (forall err, fst a <> Throw err) ->
    (success (snd a) = true
     /\ evs = (pre ++ [ESaved index filepath'; EPageClose index])%list)
    \/ (success (snd a) = false /\ useChrome = false
        /\ count is_errorFailed evs = 0
        /\ evs = (pre ++ [EWarnCaptcha index; EPageClose index])%list)
    \/ (success (snd a) = false /\ S r <= maxRetries
        /\ evs = (pre ++ [ESetTimeout index 1000; EPageClose index])%list)
    \/ (success (snd a) = false /\ maxRetries < S r
        /\ count is_errorFailed evs = 1
        /\ exists err, evs = (pre ++ [EErrorFailed index err; EPageClose index])%list).
Proof.
    cbv zeta.
    step_attempt;
      repeat match goal with
        | H : (_ <=? _)%nat = true |- _ => apply Nat.leb_le in H
        | H : (_ <=? _)%nat = false |- _ => apply Nat.leb_gt in H
        end;
      intros Hc; try (exfalso; eapply Hc; reflexivity);
      cbn [removelast app];
      first [ left; split; reflexivity
            | right; left; split; [reflexivity|split; [reflexivity|split; reflexivity]]
            | right; right; left; split; [reflexivity|split; [assumption|reflexivity]]
            | right; right; right;
              split; [reflexivity|split; [assumption|split; [reflexivity|]]];
              eexists; reflexivity ].
Qed.

  (** A pass rejects on the opening of its page exactly when the context
      refuses the page. *)
Lemma attempt_open_fails (env : PageEnv) (r : nat) :
    fst (attempt' env (entered r)) = Throw (PageError NewPageOp)
    <-> page_throws env NewPageOp = true.
Proof.
    step_attempt; split; intros H; try reflexivity; try discriminate H.
Qed.

  (** In a pass, the screenshot is taken directly after the configured delay
      was waited, into the file of the query, with the requested quality. *)
Lemma attempt_events_screenshot (env : PageEnv) (r : nat) :
    after_each is_screenshot
               (EWaitForTimeout index (JsNumber.mul delay (JsNumber.of_Z 1000)))
               None (attempt_events' env r)
    /\ Forall (fun e => is_screenshot e = true ->
                        exists w, e = EScreenshot index filepath' quality w)
              (attempt_events' env r)
    /\ Forall (fun e => is_setTimeout e = true -> e = ESetTimeout index 1000)
              (attempt_events' env r).
Proof.
    step_attempt; cbn [app]; (split; [cbn [after_each]|split]);
      repeat match goal with
        | |- _ /\ _ => split
        | |- True => exact I
        | |- _ = true -> _ => intros H; try discriminate H; try reflexivity
        | |- Forall _ _ => constructor
        | |- exists w, _ => eexists; reflexivity
        end.
Qed.

  (** processQuery: the call, [n] passes through the loop body of which only
      the last can throw or succeed, and the settlement. *)
Lemma processQuery_structure (pages : nat -> PageEnv) :
    exists n,
      1 <= n <= S maxRetries
      /\ snd (processQuery' pages)
         = (ECall index query
              :: flat_map (fun k => attempt_events' (pages k) k) (seq 0 (n - 1))
              ++ attempt_events' (pages (n - 1)) (n - 1)
              ++ [ESettle index
                    match fst (attempt' (pages (n - 1)) (entered (n - 1))) with
                    | Throw _ => false
                    | _ => true
                    end])%list
      /\ fst (processQuery' pages)
         = match fst (attempt' (pages (n - 1)) (entered (n - 1))) with
           | Throw err => Throw err
           | _ => Normal tt
           end
      /\ (forall k, k < n - 1 ->
            (forall err, fst (attempt' (pages k) (entered k)) <> Throw err)
            /\ success (snd (attempt' (pages k) (entered k))) = false
            /\ S k <= maxRetries)
      /\ ((forall err, fst (attempt' (pages (n - 1)) (entered (n - 1))) <> Throw err) ->
          success (snd (attempt' (pages (n - 1)) (entered (n - 1)))) = true
          \/ n = S maxRetries).
Proof.
    destruct (attempt_loop_structure pages
                {| retries := 0; success := false; trace := [ECall index query] |})
      as (n & Hn1 & Hn2 & Htrace & Hbefore & Hres & Hlast);
      [reflexivity | unfold maxRetries; cbn; lia |].
    cbn [retries trace Nat.add] in *.
    exists n. split; [lia|].
    assert (Hseq : seq 0 n = (seq 0 (n - 1) ++ [n - 1])%list).
    { replace n with (S (n - 1)) at 1 by lia. now rewrite seq_S. }
    rewrite Hseq, flat_map_app in Htrace. cbn [flat_map] in Htrace.
    rewrite app_nil_r in Htrace.
    unfold processQuery.
    destruct (attempt_loop' pages
                {| retries := 0; success := false; trace := [ECall index query] |})
      as [c sf] eqn:Eloop.
    cbn [fst snd] in *.
    split.
    { destruct (fst (attempt' (pages (n - 1)) (entered (n - 1)))) as [[]| |err];
        subst c; cbn [snd]; rewrite Htrace;
        cbn [app]; rewrite <- !app_assoc; reflexivity. }
    split.
    { destruct (fst (attempt' (pages (n - 1)) (entered (n - 1)))) as [[]| |err];
        subst c; reflexivity. }
    split.
    { intros k Hk. destruct (Hbefore k Hk) as [H1 H2].
      split; [exact H1|]. split; [exact H2|]. lia. }
    intros Hno. destruct (Hlast Hno) as [H|H]; [now left|right; lia].
Qed.

  (** The passes before the last one: neither saved nor reported as failed,
      each with one page that was opened and closed. *)
Lemma earlier_attempts (pages : nat -> PageEnv) (m : nat) :
    (forall k, k < m ->
       (forall err, fst (attempt' (pages k) (entered k)) <> Throw err)
       /\ success (snd (attempt' (pages k) (entered k))) = false
       /\ S k <= maxRetries) ->
    let earlier := flat_map (fun k => attempt_events' (pages k) k) (seq 0 m) in
    count is_saved earlier = 0
    /\ count is_errorFailed earlier = 0
    /\ attempts earlier = m
    /\ count is_setTimeout earlier = count is_warnRetry earlier
    /\ count is_setTimeout earlier <= m
    /\ filter is_page_event earlier
       = concat (repeat [ENewPage index; EPageClose index] m).
Proof.
    intros H. cbv zeta. induction m as [|m IH].
    - repeat split; auto.
    - rewrite seq_S, flat_map_app. cbn [flat_map Nat.add]. rewrite app_nil_r.
      destruct IH as (I1 & I2 & I3 & I4 & I5 & I6); [intros k Hk; apply H; lia|].
      destruct (H m (Nat.lt_succ_diag_r m)) as (Hno & Hsucc & Hle).
      pose proof (attempt_events_counts (pages m) m) as
        (C1 & C2 & C3 & C4 & C5 & C6 & C7 & C8 & C9).
      cbv zeta in *. rewrite Hsucc in *.
      assert (Hopen : page_throws (pages m) NewPageOp = false).
      { destruct (page_throws (pages m) NewPageOp) eqn:E; [|reflexivity].
        apply (attempt_open_fails (pages m) m) in E.
        now destruct (Hno (PageError NewPageOp)). }
      rewrite Hopen in C2.
      assert (Hatt : forall l, attempts l = count is_newPage l) by reflexivity.
      rewrite Hatt in *.
      rewrite !count_app, filter_app, I1, I2, I3, I4, I6, C1, C2, C3, (C5 Hle), C6.
      split; [reflexivity|]. split; [reflexivity|]. split; [lia|].
      split; [reflexivity|]. split; [lia|].
      replace (S m) with (m + 1) by lia.
      rewrite repeat_app, concat_app. reflexivity.
Qed.

End AttemptFacts.

Lemma after_each_preceded (p : Event -> bool) (e0 : Event) (tr : list Event) :
  forall prev a e b,
    after_each p e0 prev tr -> tr = (a ++ e :: b)%list -> p e = true ->
    (a = [] /\ prev = Some e0) \/ exists a', a = (a' ++ [e0])%list.
Proof.
  induction tr as [|x tr IH]; intros prev a e b Hafter Heq Hp.
  - destruct a; discriminate.
  - destruct Hafter as [Hx Hrest]. destruct a as [|y a].
    + injection Heq as -> _. left. auto.
    + injection Heq as Hxy Heq. subst y. right.
      destruct (IH _ _ _ _ Hrest Heq Hp) as [[-> Hprev]|[a' ->]].
      * injection Hprev as Hx0. subst x. now exists [].
      * now exists (x :: a').
Qed.

Lemma preceded_by_after_each (p : Event -> bool) (e0 : Event) (tr : list Event) :
  after_each p e0 None tr -> preceded_by p e0 tr.
Proof.
  intros Hafter a e b Heq Hp.
  destruct (after_each_preceded p e0 tr None a e b Hafter Heq Hp) as [[_ H]|H];
    [discriminate|exact H].
Qed.

Lemma preceded_by_app (p : Event -> bool) (e0 : Event) (x y : list Event) :
  preceded_by p e0 x -> preceded_by p e0 y -> preceded_by p e0 (x ++ y).
Proof.
  intros Hx Hy a e b Heq Hp.
  apply app_eq_app in Heq as (l & [[-> Hl]|[-> Hl]]).
  - destruct l as [|z l].
    + simpl in Hl. destruct (Hy [] e b (eq_sym Hl) Hp) as [a' Ha'].
      destruct a'; discriminate.
    + injection Hl as Hz Hb. subst z. now apply (Hx a e l).
  - destruct (Hy l e b Hl Hp) as [a' ->]. exists (x ++ a')%list. now rewrite app_assoc.
Qed.

Lemma preceded_by_single (p : Event -> bool) (e0 e : Event) :
  p e = false -> preceded_by p e0 [e].
Proof.
  intros He a x b Heq Hp. destruct a as [|y a].
  - injection Heq as <- _. congruence.
  - injection Heq as _ Heq. destruct a; discriminate.
Qed.

Lemma preceded_by_flat_map {K : Type} (p : Event -> bool) (e0 : Event)
      (f : K -> list Event) (l : list K) :
  (forall k, preceded_by p e0 (f k)) -> preceded_by p e0 (flat_map f l).
Proof.
  intros H. induction l as [|k l IH]; simpl.
  - intros a e b Heq. destruct a; discriminate.
  - now apply preceded_by_app.
Qed.

Lemma count_cons (p : Event -> bool) (e : Event) (tr : list Event) :
  count p (e :: tr) = (if p e then 1 else 0) + count p tr.
Proof. unfold count. simpl. now destruct (p e). Qed.

(** X14. A query is never both saved and reported as failed.  When
    processQuery fulfils, it ended in one of three ways: the screenshot was
    saved; or the last of three attempts threw and the query was reported as
    failed; or, with the useChrome flag off, the last of three attempts met a
    CAPTCHA and the query was dropped without a report. *)
Theorem processQuery_outcome
        (path_join : string -> string -> string) (query : string) (index : nat)
        (engine deviceName output : string) (delay : JsNumber.t) (useChrome : bool)
        (quality : JsNumber.t) (pages : nat -> PageEnv) :
  let r := processQuery path_join query index engine deviceName output delay
                        useChrome quality pages in
  let file := filepath path_join query index engine deviceName output in
  count is_saved (snd r) + count is_errorFailed (snd r) <= 1
  /\ (fst r = Normal tt ->
      exists pre,
        (snd r = (pre ++ [ESaved index file; EPageClose index; ESettle index true])%list
         /\ count is_saved (snd r) = 1)
        \/ ((exists err,
                snd r = (pre ++ [EErrorFailed index err; EPageClose index;
                                 ESettle index true])%list)
            /\ count is_errorFailed (snd r) = 1
            /\ attempts (snd r) = S maxRetries)
        \/ (useChrome = false
            /\ snd r = (pre ++ [EWarnCaptcha index; EPageClose index;
                                ESettle index true])%list
            /\ count is_saved (snd r) = 0 /\ count is_errorFailed (snd r) = 0
            /\ attempts (snd r) = S maxRetries)).
Proof.
  cbv zeta.
  destruct (processQuery_structure path_join query index engine deviceName output delay
              useChrome quality pages) as (n & Hn & Htrace & Hfst & Hbefore & Hlast).
  destruct (earlier_attempts path_join query index engine deviceName output delay
              useChrome quality pages (n - 1) Hbefore) as (E1 & E2 & E3 & _).
  pose proof (attempt_events_counts path_join query index engine deviceName output delay
                useChrome quality (pages (n - 1)) (n - 1))
    as (C1 & _ & C3 & C4 & _).
  cbv zeta in C1, C3, C4.
  assert (Hatt : forall l, attempts l = count is_newPage l) by reflexivity.
  rewrite Hatt in *.
  assert (Hcount : forall p : Event -> bool,
             p (ECall index query) = false ->
             (forall b, p (ESettle index b) = false) ->
             count p (snd (processQuery path_join query index engine deviceName output
                                        delay useChrome quality pages))
             = count p (flat_map (fun k => attempt_events path_join query index engine
                                             deviceName output delay useChrome quality
                                             (pages k) k) (seq 0 (n - 1)))
               + count p (attempt_events path_join query index engine deviceName output
                                         delay useChrome quality (pages (n - 1)) (n - 1))).
  { intros p Hcall Hsettle. rewrite Htrace, count_cons, Hcall, !count_app.
    rewrite (count_cons p (ESettle _ _)), Hsettle. cbn. lia. }
  rewrite !Hcount by (intros; reflexivity). rewrite E1, E2, E3, C1, C3.
  split.
  { destruct (success _); lia. }
  intros Hnormal. rewrite Hnormal in Hfst.
  assert (Hno : forall err,
             fst (attempt path_join query index engine deviceName output delay useChrome
                          quality (pages (n - 1)) (entered (n - 1))) <> Throw err).
  { intros err E. rewrite E in Hfst. discriminate. }
  assert (Hb : match fst (attempt path_join query index engine deviceName output delay
                               useChrome quality (pages (n - 1)) (entered (n - 1))) with
               | Throw _ => false
               | _ => true
               end = true).
  { destruct (fst (attempt _ _ _ _ _ _ _ _ _ _ _)) as [[]| |err];
      [reflexivity|reflexivity|now destruct (Hno err)]. }
  rewrite Hb in Htrace.
  pose proof (attempt_events_end path_join query index engine deviceName output delay
                useChrome quality (pages (n - 1)) (n - 1)) as Hend.
  cbv zeta in Hend.
  set (earlier := flat_map _ (seq 0 (n - 1))) in *.
  set (evs := attempt_events _ _ _ _ _ _ _ _ _ _ _) in *.
  exists (ECall index query :: earlier ++ removelast (removelast evs))%list.
  destruct (Hend Hno) as [[Hs He]|[(Hs & Hu & Hf & He)|[(Hs & Hr & He)|(Hs & Hr & Hf & err & He)]]].
  - left. rewrite Hs. split; [|reflexivity].
    rewrite Htrace. rewrite He at 1. cbn [app]. rewrite <- !app_assoc. reflexivity.
  - right. right. rewrite Hs, Hf.
    destruct (Hlast Hno) as [H|H]; [congruence|].
    split; [exact Hu|]. split.
    { rewrite Htrace. rewrite He at 1. cbn [app]. rewrite <- !app_assoc. reflexivity. }
    split; [reflexivity|]. split; [reflexivity|]. lia.
  - destruct (Hlast Hno) as [H|H]; [congruence|]. lia.
  - right. left. rewrite Hf.
    split.
    { exists err. rewrite Htrace. rewrite He at 1. cbn [app]. rewrite <- !app_assoc.
      reflexivity. }
    split; [reflexivity|]. lia.
Qed.

Lemma processQuery_outcome_witness :
  let r := processQuery posix_join "foo" 0 "yahoo" "desktop" "out" (JsNumber.of_Z 1)
                        false (JsNumber.of_Z 80) (fun _ => page_failing_goto) in
  let file := filepath posix_join "foo" 0 "yahoo" "desktop" "out" in
  exists pre,
    (snd r = (pre ++ [ESaved 0 file; EPageClose 0; ESettle 0 true])%list
     /\ count is_saved (snd r) = 1)
    \/ ((exists err,
            snd r = (pre ++ [EErrorFailed 0 err; EPageClose 0; ESettle 0 true])%list)
        /\ count is_errorFailed (snd r) = 1
        /\ attempts (snd r) = S maxRetries)
    \/ (false = false
        /\ snd r = (pre ++ [EWarnCaptcha 0; EPageClose 0; ESettle 0 true])%list
        /\ count is_saved (snd r) = 0 /\ count is_errorFailed (snd r) = 0
        /\ attempts (snd r) = S maxRetries).
Proof.
  apply (processQuery_outcome posix_join "foo" 0 "yahoo" "desktop" "out" (JsNumber.of_Z 1)
           false (JsNumber.of_Z 80) (fun _ => page_failing_goto)).
  vm_compute. reflexivity.
Defined.

Lemma processQuery_screenshot_events
      (path_join : string -> string -> string) (query : string) (index : nat)
      (engine deviceName output : string) (delay : JsNumber.t) (useChrome : bool)
      (quality : JsNumber.t) (pages : nat -> PageEnv) :
  Forall (fun e => is_screenshot e = true ->
                   exists w,
                     e = EScreenshot index
                           (filepath path_join query index engine deviceName output)
                           quality w)
         (snd (processQuery path_join query index engine deviceName output delay
                            useChrome quality pages)).
Proof.
  destruct (processQuery_structure path_join query index engine deviceName output delay
              useChrome quality pages) as (n & _ & Htrace & _).
  rewrite Htrace.
  constructor; [discriminate|].
  apply Forall_app. split.
  - apply Forall_flat_map, Forall_forall. intros k _.
    apply attempt_events_screenshot.
  - apply Forall_app. split; [apply attempt_events_screenshot|].
    constructor; [discriminate|constructor].
Qed.

(** X15. Whatever happens in the attempts of a query, a screenshot is only
    ever taken directly after the configured delay was waited on the page, and
    always into the file of the query, with the requested quality. *)
Theorem screenshot_after_delay
        (path_join : string -> string -> string) (query : string) (index : nat)
        (engine deviceName output : string) (delay : JsNumber.t) (useChrome : bool)
        (quality : JsNumber.t) (pages : nat -> PageEnv) :
  let r := processQuery path_join query index engine deviceName output delay
                        useChrome quality pages in
  preceded_by is_screenshot
              (EWaitForTimeout index (JsNumber.mul delay (JsNumber.of_Z 1000))) (snd r)
  /\ Forall (fun e => is_screenshot e = true ->
                      exists w,
                        e = EScreenshot index
                              (filepath path_join query index engine deviceName output)
                              quality w)
            (snd r).
Proof.
  cbv zeta.
  destruct (processQuery_structure path_join query index engine deviceName output delay
              useChrome quality pages) as (n & _ & Htrace & _).
  rewrite Htrace. split.
  - change (preceded_by is_screenshot
              (EWaitForTimeout index (JsNumber.mul delay (JsNumber.of_Z 1000)))
              ([ECall index query]
                 ++ flat_map (fun k => attempt_events path_join query index engine deviceName
                                         output delay useChrome quality (pages k) k)
                             (seq 0 (n - 1))
                 ++ attempt_events path_join query index engine deviceName output delay
                      useChrome quality (pages (n - 1)) (n - 1)
                 ++ [ESettle index
                       match fst (attempt path_join query index engine deviceName output
                                          delay useChrome quality (pages (n - 1))
                                          (entered (n - 1))) with
                       | Throw _ => false
                       | _ => true
                       end])).
    repeat apply preceded_by_app.
    + now apply preceded_by_single.
    + apply preceded_by_flat_map. intros k.
      apply preceded_by_after_each, attempt_events_screenshot.
    + apply preceded_by_after_each, attempt_events_screenshot.
    + now apply preceded_by_single.
  - rewrite <- Htrace. apply processQuery_screenshot_events.
Qed.

(** X16. The pages of a query are opened and closed in turn: a page is closed
    before the next one is opened, also after an attempt that threw or met a
    CAPTCHA, and the last page is left unclosed only when it could not be
    opened. *)
Theorem pages_open_and_close
        (path_join : string -> string -> string) (query : string) (index : nat)
        (engine deviceName output : string) (delay : JsNumber.t) (useChrome : bool)
        (quality : JsNumber.t) (pages : nat -> PageEnv) :
  let r := processQuery path_join query index engine deviceName output delay
                        useChrome quality pages in
  let n := attempts (snd r) in
  let turn := [ENewPage index; EPageClose index] in
  (fst r <> Throw (PageError NewPageOp)
   /\ filter is_page_event (snd r) = concat (repeat turn n))
  \/ (fst r = Throw (PageError NewPageOp)
      /\ filter is_page_event (snd r)
         = (concat (repeat turn (n - 1)) ++ [ENewPage index])%list).
Proof.
  cbv zeta.
  destruct (processQuery_structure path_join query index engine deviceName output delay
              useChrome quality pages) as (n & Hn & Htrace & Hfst & Hbefore & Hlast).
  destruct (earlier_attempts path_join query index engine deviceName output delay
              useChrome quality pages (n - 1) Hbefore) as (_ & _ & E3 & _ & _ & E6).
  pose proof (attempt_events_counts path_join query index engine deviceName output delay
                useChrome quality (pages (n - 1)) (n - 1)) as (C1 & C2 & _).
  cbv zeta in C1, C2.
  pose proof (attempt_open_fails path_join query index engine deviceName output delay
                useChrome quality (pages (n - 1)) (n - 1)) as Hopen.
  assert (Hatt : forall l, attempts l = count is_newPage l) by reflexivity.
  assert (Hn' : attempts (snd (processQuery path_join query index engine deviceName output
                                            delay useChrome quality pages)) = n).
  { rewrite Hatt in E3, C1. rewrite Htrace, Hatt, count_cons, !count_app, E3, C1.
    cbn. lia. }
  rewrite Hn'.
  assert (Hfilter : filter is_page_event
                      (snd (processQuery path_join query index engine deviceName output
                                         delay useChrome quality pages))
                    = (concat (repeat [ENewPage index; EPageClose index] (n - 1))
                         ++ (if page_throws (pages (n - 1)) NewPageOp
                             then [ENewPage index]
                             else [ENewPage index; EPageClose index]))%list).
  { rewrite Htrace. cbn [filter is_page_event]. rewrite !filter_app, E6, C2.
    cbn [filter is_page_event]. now rewrite app_nil_r. }
  rewrite Hfilter, Hfst.
  destruct (page_throws (pages (n - 1)) NewPageOp) eqn:E.
  - right. rewrite (proj2 Hopen eq_refl). split; reflexivity.
  - left. split.
    + intros H.
      destruct (fst (attempt _ _ _ _ _ _ _ _ _ _ _)) as [[]| |err] eqn:Ea;
        try discriminate H.
      injection H as ->. discriminate (proj1 Hopen eq_refl).
    + replace n with (n - 1 + 1) at 2 by lia.
      rewrite repeat_app, concat_app. cbn [repeat concat]. now rewrite app_nil_r.
Qed.

(** X17. The backoff before a retry is always one second and always comes
    with a warning; there are at most two backoffs for a query, and when
    processQuery fulfils there were fewer backoffs than attempts: every
    backoff was followed by another attempt. *)
Theorem backoff_bound
        (path_join : string -> string -> string) (query : string) (index : nat)
        (engine deviceName output : string) (delay : JsNumber.t) (useChrome : bool)
        (quality : JsNumber.t) (pages : nat -> PageEnv) :
  let r := processQuery path_join query index engine deviceName output delay
                        useChrome quality pages in
  count is_setTimeout (snd r) = count is_warnRetry (snd r)
  /\ count is_setTimeout (snd r) <= maxRetries
  /\ Forall (fun e => is_setTimeout e = true -> e = ESetTimeout index 1000) (snd r)
  /\ (fst r = Normal tt -> count is_setTimeout (snd r) < attempts (snd r)).
Proof.
  cbv zeta.
  destruct (processQuery_structure path_join query index engine deviceName output delay
              useChrome quality pages) as (n & Hn & Htrace & Hfst & Hbefore & Hlast).
  destruct (earlier_attempts path_join query index engine deviceName output delay
              useChrome quality pages (n - 1) Hbefore) as (_ & _ & E3 & E4 & E5 & _).
  pose proof (attempt_events_counts path_join query index engine deviceName output delay
                useChrome quality (pages (n - 1)) (n - 1))
    as (C1 & _ & _ & _ & _ & C6 & C7 & C8 & _).
  cbv zeta in C1, C6, C7, C8.
  assert (Hatt : forall l, attempts l = count is_newPage l) by reflexivity.
  rewrite Hatt in *.
  assert (Hcount : forall p : Event -> bool,
             p (ECall index query) = false ->
             (forall b, p (ESettle index b) = false) ->
             count p (snd (processQuery path_join query index engine deviceName output
                                        delay useChrome quality pages))
             = count p (flat_map (fun k => attempt_events path_join query index engine
                                             deviceName output delay useChrome quality
                                             (pages k) k) (seq 0 (n - 1)))
               + count p (attempt_events path_join query index engine deviceName output
                                         delay useChrome quality (pages (n - 1)) (n - 1))).
  { intros p Hcall Hsettle. rewrite Htrace, count_cons, Hcall, !count_app.
    rewrite (count_cons p (ESettle _ _)), Hsettle. cbn. lia. }
  rewrite !Hcount by (intros; reflexivity). rewrite E3, E4, C1, C6.
  split; [reflexivity|].
  rewrite <- E4, <- C6.
  split.
  { destruct (Nat.eq_dec n (S maxRetries)) as [En|En].
    - rewrite C8 by lia. lia.
    - destruct (success _); lia. }
  split.
  { rewrite Htrace. constructor; [discriminate|].
    apply Forall_app. split.
    - apply Forall_flat_map, Forall_forall. intros k _.
      apply attempt_events_screenshot.
    - apply Forall_app. split; [apply attempt_events_screenshot|].
      constructor; [discriminate|constructor]. }
  intros Hnormal. rewrite Hnormal in Hfst.
  assert (Hno : forall err,
             fst (attempt path_join query index engine deviceName output delay useChrome
                          quality (pages (n - 1)) (entered (n - 1))) <> Throw err).
  { intros err E. rewrite E in Hfst. discriminate. }
  destruct (Hlast Hno) as [H|H].
  - rewrite H in C7. lia.
  - rewrite C8 by lia. lia.
Qed.

Lemma backoff_bound_witness :
  let r := processQuery posix_join "foo" 0 "yahoo" "desktop" "out" (JsNumber.of_Z 1)
                        false (JsNumber.of_Z 80)
                        (fun k => match k with 0 => page_failing_goto | _ => page_fine end) in
  count is_setTimeout (snd r) = 1 /\ count is_setTimeout (snd r) < attempts (snd r).
Proof.
  intros r.
  destruct (backoff_bound posix_join "foo" 0 "yahoo" "desktop" "out" (JsNumber.of_Z 1)
              false (JsNumber.of_Z 80)
              (fun k => match k with 0 => page_failing_goto | _ => page_fine end))
    as (_ & _ & _ & H).
  split; [vm_compute; reflexivity|]. apply H. vm_compute. reflexivity.
Defined.

(** X18. With the useChrome flag set a CAPTCHA does not cost a retry: thirty
    seconds are waited on the page, then the delay, and the screenshot is taken
    in the same attempt. *)
Theorem captcha_with_chrome_waits
        (path_join : string -> string -> string) (query : string) (index : nat)
        (engine deviceName output : string) (delay : JsNumber.t)
        (quality : JsNumber.t) (pages : nat -> PageEnv) :
  hasCaptcha (pages 0) = true -> page_works (pages 0) ->
  let file := filepath path_join query index engine deviceName output in
  processQuery path_join query index engine deviceName output delay true quality pages
  = (Normal tt,
     [ECall index query; ENewPage index; EGoto index (url_of engine query);
      EWaitForTimeout index (JsNumber.of_Z (500 + jitter (pages 0)));
      EWaitForLoadState index; EEvaluate index;
      EWaitForTimeout index (JsNumber.of_Z 30000);
      EWaitForTimeout index (JsNumber.mul delay (JsNumber.of_Z 1000));
      EScreenshot index file quality (clip_width deviceName (pages 0));
      ESaved index file; EPageClose index; ESettle index true]).
Proof.
  intros Hcap Hworks. cbv zeta. unfold processQuery.
  rewrite attempt_loop_eq. cbn [loop_guard retries success Nat.leb maxRetries andb negb].
  cbv beta iota zeta delta
    [attempt try_catch_finally try_block catch_block finally_block await bind
     emit ret throw incr_retries set_success get_retries continue_
     retries success trace fst snd].
  rewrite !Hworks, Hcap. cbv beta iota.
  rewrite attempt_loop_eq. unfold loop_guard at 1. cbn [retries success negb].
  rewrite andb_false_r. reflexivity.
Qed.

Lemma captcha_with_chrome_waits_witness :
  count is_screenshot
    (snd (processQuery posix_join "foo" 0 "google" "desktop" "out" (JsNumber.of_Z 1)
                       true (JsNumber.of_Z 80) (fun _ => page_with_captcha))) = 1
  /\ attempts
       (snd (processQuery posix_join "foo" 0 "google" "desktop" "out" (JsNumber.of_Z 1)
                          true (JsNumber.of_Z 80) (fun _ => page_with_captcha))) = 1.
Proof.
  rewrite (captcha_with_chrome_waits posix_join "foo" 0 "google" "desktop" "out"
             (JsNumber.of_Z 1) (JsNumber.of_Z 80) (fun _ => page_with_captcha)
             eq_refl (fun op => eq_refl)).
  split; reflexivity.
Defined.

(** X19. With the useChrome flag off, a query whose three attempts all meet a
    CAPTCHA is dropped in silence: processQuery fulfils after three attempts
    with no screenshot, no backoff, no retry warning and no failure report. *)
Theorem captcha_three_times
        (path_join : string -> string -> string) (query : string) (index : nat)
        (engine deviceName output : string) (delay : JsNumber.t)
        (quality : JsNumber.t) (pages : nat -> PageEnv) :
  (forall k, hasCaptcha (pages k) = true /\ page_works (pages k)) ->
  let r := processQuery path_join query index engine deviceName output delay false
                        quality pages in
  fst r = Normal tt
  /\ attempts (snd r) = 3 /\ count is_warnCaptcha (snd r) = 3
  /\ count is_screenshot (snd r) = 0 /\ count is_saved (snd r) = 0
  /\ count is_setTimeout (snd r) = 0 /\ count is_warnRetry (snd r) = 0
  /\ count is_errorFailed (snd r) = 0.
Proof.
  intros H. cbv zeta. unfold processQuery.
  assert (Hstep : forall k s,
             attempt path_join query index engine deviceName output delay false quality
                     (pages k) s
             = (Continue,
                {| retries := S (retries s); success := success s;
                   trace := (trace s ++
                             [ENewPage index; EGoto index (url_of engine query);
                              EWaitForTimeout index (JsNumber.of_Z (500 + jitter (pages k)));
                              EWaitForLoadState index; EEvaluate index;
                              EWarnCaptcha index; EPageClose index])%list |})).
  { intros k s. destruct (H k) as [Hcap Hworks].
    rewrite (attempt_captcha path_join query index engine deviceName output delay false
               quality (pages k) s eq_refl Hcap (Hworks _) (Hworks _) (Hworks _)
               (Hworks _) (Hworks _)).
    now rewrite (Hworks PageCloseOp). }
  rewrite attempt_loop_eq. cbn [loop_guard retries success Nat.leb maxRetries andb negb].
  rewrite Hstep. cbn [retries success trace].
  rewrite attempt_loop_eq. cbn [loop_guard retries success Nat.leb maxRetries andb negb].
  rewrite Hstep. cbn [retries success trace].
  rewrite attempt_loop_eq. cbn [loop_guard retries success Nat.leb maxRetries andb negb].
  rewrite Hstep. cbn [retries success trace].
  rewrite attempt_loop_eq. cbn [loop_guard retries success Nat.leb maxRetries andb negb].
  cbn [fst snd trace app].
  repeat split; reflexivity.
Qed.

Lemma captcha_three_times_witness :
  let r := processQuery posix_join "foo" 0 "yahoo" "desktop" "out" (JsNumber.of_Z 1)
                        false (JsNumber.of_Z 80) (fun _ => page_with_captcha) in
  fst r = Normal tt /\ count is_saved (snd r) = 0 /\ count is_errorFailed (snd r) = 0.
Proof.
  intros r.
  destruct (captcha_three_times posix_join "foo" 0 "yahoo" "desktop" "out"
              (JsNumber.of_Z 1) (JsNumber.of_Z 80) (fun _ => page_with_captcha)
              (fun _ => conj eq_refl (fun op => eq_refl)))
    as (H1 & _ & _ & _ & H2 & _ & _ & H3).
  split; [exact H1|]. split; [exact H2|exact H3].
Defined.




(** ** Runs of generateSearchScreenshots (lines 60-214) *)

(** X20. When the output directory cannot be made, or when the second pass
    over the CSV file fails after the first pass has read the header line, the
    run rejects with that error before any browser is launched: nothing was
    done but the steps up to the one that failed. *)
Theorem early_failure_launches_nothing
        (path_join : string -> string -> string) (env : RunEnv) (a : Args) :
  (run_throws env MkdirOutputOp = true ->
   generateSearchScreenshots path_join env a []
   = (Throw (RunError MkdirOutputOp), [Step (EMkdir (outputDir_of path_join env a))]))
  /\ (run_throws env MkdirOutputOp = false ->
      csv_headers env <> [] -> run_throws env ReadHeadersOp = false ->
      run_throws env ReadRowsOp = true ->
      generateSearchScreenshots path_join env a []
      = (Throw (RunError ReadRowsOp),
         [Step (EMkdir (outputDir_of path_join env a)); Step (EReadCsv (csvFile a));
          Step (EReadCsv (csvFile a))])).
Proof.
  unfold generateSearchScreenshots, bind, run_await. cbv zeta. split.
  - intros ->. reflexivity.
  - intros -> _ -> ->. reflexivity.
Qed.

Lemma early_failure_launches_nothing_witness :
  let env := {| now_iso := "2024-01-02T03:04:05.678Z"; cwd := "/work";
                run_throws := fun op => match op with ReadRowsOp => true | _ => false end;
                csv_headers := ["query"]; csv_rows := [];
                pages_of := fun _ _ => page_fine |} in
  generateSearchScreenshots posix_join env (args_of "yahoo" false) []
  = (Throw (RunError ReadRowsOp),
     [Step (EMkdir "out/2024-01-02-030405--yahoo"); Step (EReadCsv "queries.csv");
      Step (EReadCsv "queries.csv")]).
Proof.
  intros env.
  apply (proj2 (early_failure_launches_nothing posix_join env (args_of "yahoo" false)));
    [reflexivity | discriminate | reflexivity | reflexivity].
Defined.

(** X21. A run on a file that has a header line, but no row with text in the
    selected column, has no queries; it still creates its session and closes
    it: the trace is the set-up steps followed at once by the closing steps,
    with no batch in between. *)
Theorem run_without_queries
        (path_join : string -> string -> string) (env : RunEnv) (a : Args) :
  csv_headers env <> [] -> queries_of env a = [] -> setup_ok env a = true ->
  generateSearchScreenshots path_join env a []
  = (fst (teardown env a []),
     List.map Step (setup_events path_join env a ++ teardown_events env a)).
Proof.
  intros _ Hq Hsetup. rewrite (gen_eq path_join env a [] Hsetup).
  unfold run_batches. rewrite Hq, process_batches_eq. cbn [length Nat.ltb Nat.leb].
  rewrite teardown_trace, map_app. reflexivity.
Qed.

Lemma run_without_queries_witness :
  let env := {| now_iso := "2024-01-02T03:04:05.678Z"; cwd := "/work";
                run_throws := fun _ => false;
                csv_headers := ["query"]; csv_rows := [[("query", "  ")]];
                pages_of := fun _ _ => page_fine |} in
  generateSearchScreenshots posix_join env (args_of "yahoo" false) []
  = (Normal tt,
     [Step (EMkdir "out/2024-01-02-030405--yahoo"); Step (EReadCsv "queries.csv");
      Step (EReadCsv "queries.csv"); Step ELaunch; Step (ENewContext false);
      Step EContextClose; Step EBrowserClose]).
Proof.
  intros env.
  rewrite (run_without_queries posix_join env (args_of "yahoo" false));
    [vm_compute; reflexivity | discriminate | vm_compute; reflexivity
     | vm_compute; reflexivity].
Defined.

Lemma sequential_app (items1 items2 : list Item) :
  sequential (items1 ++ items2) = (sequential items1 ++ sequential items2)%list.
Proof. unfold sequential. apply flat_map_app. Qed.

Lemma sequential_steps (evs : list Event) : sequential (List.map Step evs) = evs.
Proof.
  induction evs as [|e evs IH]; [reflexivity|].
  unfold sequential in *. cbn [List.map flat_map app]. now rewrite IH.
Qed.

Lemma in_skipn {A : Type} (n : nat) (l : list A) (x : A) : In x (skipn n l) -> In x l.
Proof.
  intros H. rewrite <- (firstn_skipn n l). apply in_or_app. now right.
Qed.

Lemma in_indexed_from {A : Type} (l : list A) (s i : nat) (x : A) :
  In (i, x) (combine (seq s (length l)) l) -> s <= i /\ nth_error l (i - s) = Some x.
Proof.
  revert s. induction l as [|y l IH]; intros s H; [destruct H|].
  simpl in H. destruct H as [H|H].
  - injection H as -> ->. split; [lia|]. now rewrite Nat.sub_diag.
  - apply IH in H as [Hle Hnth]. split; [lia|].
    replace (i - s) with (S (i - S s)) by lia. exact Hnth.
Qed.

Lemma in_indexed (queries : list string) (p : nat * string) :
  In p (indexed queries) -> nth_error queries (fst p) = Some (snd p).
Proof.
  destruct p as [i q]. unfold indexed. intros H.
  apply in_indexed_from in H as [_ H]. now rewrite Nat.sub_0_r in H.
Qed.

Section RunEvents.

Variable path_join : string -> string -> string.
Variables (env : RunEnv) (a : Args).

Local Abbreviation run := (generateSearchScreenshots path_join env a []).
Local Abbreviation task :=
    (call_task path_join env (engine a) (deviceName_of (mode a))
               (outputDir_of path_join env a) (delay a) (useChrome a) (quality a)).
Local Abbreviation batch :=
    (nth_batch path_join env (queries_of env a) (engine a) (deviceName_of (mode a))
               (outputDir_of path_join env a) (delay a) (useChrome a) (quality a) 0).

  (** The events of a batch are events of calls of processQuery for queries of
      the run, each with its index. *)
Lemma batch_events (ms : list nat) (e : Event) :
    In e (sequential (List.map batch ms)) ->
    exists p, In p (indexed (queries_of env a)) /\ In e (snd (task p)).
Proof.
    induction ms as [|m ms IH]; [intros []|].
    cbn [List.map]. change (batch m :: List.map batch ms)
      with ([batch m] ++ List.map batch ms)%list.
    rewrite sequential_app. intros H. apply in_app_or in H as [H|H]; [|now apply IH].
    unfold nth_batch, sequential in H. cbn [flat_map] in H. rewrite app_nil_r in H.
    rewrite batchPromises_map, map_map in H.
    apply in_concat in H as (t & Ht & He).
    apply in_map_iff in Ht as (p & <- & Hp).
    exists p. split; [|exact He].
    unfold JsArray.slice in Hp. now apply in_firstn, in_skipn in Hp.
Qed.

  (** Every event of a run is a set-up step, an event of the call for one of
      its queries, or a closing step. *)
Lemma run_events (e : Event) :
    In e (sequential (snd run)) ->
    In e (setup_events path_join env a)
    \/ (exists p, In p (indexed (queries_of env a)) /\ In e (snd (task p)))
    \/ (In e (teardown_events env a)
        /\ exists pre, snd run = (pre ++ List.map Step (teardown_events env a))%list).
Proof.
    destruct (run_shape path_join env a) as (j & k & tail & Htr & _ & _ & Hcases).
    rewrite Htr, !sequential_app, !sequential_steps. intros H.
    apply in_app_or in H as [H|H]; [left; now apply in_firstn in H|].
    apply in_app_or in H as [H|H]; [right; left; now apply (batch_events (seq 0 k))|].
    right. right.
    destruct Hcases as [(_ & _ & -> & _)|(_ & _ & [(err & _ & -> & _)|(_ & _ & Htail & _)])];
      try now destruct H.
    rewrite teardown_trace in Htail. apply map_Step_inj in Htail. subst tail.
    split; [exact H|]. eexists. rewrite app_assoc. reflexivity.
Qed.

End RunEvents.

Lemma setup_events_kinds (path_join : string -> string -> string) (env : RunEnv)
      (a : Args) (e : Event) :
  In e (setup_events path_join env a) ->
  is_request_event e = false /\ is_browserClose e = false
  /\ (shouldUseChrome a = false -> is_persistent_launch e = false)
  /\ is_close e = false.
Proof.
  unfold setup_events. destruct (shouldUseChrome a); cbn [app In];
    intros H; repeat destruct H as [<-|H]; try destruct H;
    repeat split; try reflexivity; discriminate.
Qed.

Lemma task_events_requests (path_join : string -> string -> string) (env : RunEnv)
      (a : Args) (p : nat * string) (e : Event) :
  In e (snd (call_task path_join env (engine a) (deviceName_of (mode a))
                       (outputDir_of path_join env a) (delay a) (useChrome a)
                       (quality a) p)) ->
  is_request_event e = true.
Proof.
  unfold call_task. intros H.
  pose proof (processQuery_events_requests path_join (snd p) (fst p) (engine a)
                (deviceName_of (mode a)) (outputDir_of path_join env a) (delay a)
                (useChrome a) (quality a) (pages_of env (fst p))) as Hall.
  rewrite forallb_forall in Hall. now apply Hall.
Qed.

(** X22. The system Chrome with its persistent profile is launched only for
    the engine google with the useChrome flag set: for another engine, or
    without the flag, no event of the run is such a launch. *)
Theorem chrome_only_for_google
        (path_join : string -> string -> string) (env : RunEnv) (a : Args) :
  engine a <> "google" \/ useChrome a = false ->
  existsb is_persistent_launch
          (sequential (snd (generateSearchScreenshots path_join env a []))) = false.
Proof.
  intros Hnot.
  assert (Hshould : shouldUseChrome a = false).
  { unfold shouldUseChrome. destruct Hnot as [H|H].
    - apply String.eqb_neq in H. rewrite H. apply andb_false_r.
    - now rewrite H. }
  destruct (existsb _ _) eqn:E; [|reflexivity].
  apply existsb_exists in E as (e & Hin & He).
  apply run_events in Hin as [H|[(p & _ & H)|[H _]]].
  - apply setup_events_kinds in H as (_ & _ & H & _). rewrite (H Hshould) in He. discriminate.
  - apply task_events_requests in H. destruct e; discriminate.
  - unfold teardown_events in H.
    destruct (run_throws env ContextCloseOp); [|destruct (useChrome a)];
      cbn [In] in H; repeat destruct H as [<-|H]; try destruct H; discriminate.
Qed.

Lemma chrome_only_for_google_witness :
  existsb is_persistent_launch
          (sequential (snd (generateSearchScreenshots posix_join
                              (world (fun _ _ => page_fine)) (args_of "bing" true) [])))
  = false.
Proof.
  apply (chrome_only_for_google posix_join (world (fun _ _ => page_fine))
           (args_of "bing" true)).
  left. discriminate.
Defined.

(** X23. The browser is closed only as the last step of a run, directly after
    the context was closed without an error, and only when the useChrome flag
    is off: with the flag set no run closes its browser, whatever the
    engine. *)
Theorem browser_closed_last
        (path_join : string -> string -> string) (env : RunEnv) (a : Args) :
  existsb is_browserClose
          (sequential (snd (generateSearchScreenshots path_join env a []))) = true ->
  useChrome a = false /\ run_throws env ContextCloseOp = false
  /\ exists pre,
      snd (generateSearchScreenshots path_join env a [])
      = (pre ++ [Step EContextClose; Step EBrowserClose])%list.
Proof.
  intros E. apply existsb_exists in E as (e & Hin & He).
  apply run_events in Hin as [H|[(p & _ & H)|[H (pre & Hpre)]]].
  - apply setup_events_kinds in H as (_ & H & _ & _). congruence.
  - apply task_events_requests in H. destruct e; discriminate.
  - unfold teardown_events in *.
    destruct (run_throws env ContextCloseOp); [|destruct (useChrome a)];
      cbn [In] in H; repeat destruct H as [<-|H]; try destruct H; try discriminate.
    split; [reflexivity|]. split; [reflexivity|]. now exists pre.
Qed.

Lemma browser_closed_last_witness :
  exists pre,
    snd (generateSearchScreenshots posix_join (world (fun _ _ => page_fine))
                                   (args_of "yahoo" false) [])
    = (pre ++ [Step EContextClose; Step EBrowserClose])%list.
Proof.
  apply (browser_closed_last posix_join (world (fun _ _ => page_fine))
           (args_of "yahoo" false)).
  vm_compute. reflexivity.
Defined.

(** X24. Every screenshot of a run is written into the directory of the run,
    under the file name built from the sequence number of its query, the
    engine, the device and the query, with the requested quality. *)
Theorem screenshots_in_run_directory
        (path_join : string -> string -> string) (env : RunEnv) (a : Args) (e : Event) :
  In e (sequential (snd (generateSearchScreenshots path_join env a []))) ->
  is_screenshot e = true ->
  exists i q w,
    nth_error (queries_of env a) i = Some q
    /\ e = EScreenshot i
             (path_join (outputDir_of path_join env a)
                        (filename i (engine a) (deviceName_of (mode a)) q))
             (quality a) w.
Proof.
  intros Hin He.
  apply run_events in Hin as [H|[(p & Hp & H)|[H _]]].
  - apply setup_events_kinds in H as (H & _). destruct e; discriminate.
  - unfold call_task in H.
    pose proof (processQuery_screenshot_events path_join (snd p) (fst p) (engine a)
                  (deviceName_of (mode a)) (outputDir_of path_join env a) (delay a)
                  (useChrome a) (quality a) (pages_of env (fst p))) as Hall.
    rewrite Forall_forall in Hall. destruct (Hall e H He) as [w ->].
    exists (fst p), (snd p), w. split; [now apply in_indexed|reflexivity].
  - unfold teardown_events in H.
    destruct (run_throws env ContextCloseOp); [|destruct (useChrome a)];
      cbn [In] in H; repeat destruct H as [<-|H]; try destruct H; discriminate.
Qed.

Lemma screenshots_in_run_directory_witness :
  exists i q w,
    nth_error ["foo"; "bar"; "baz"; "qux"] i = Some q
    /\ EScreenshot 1 "out/2024-01-02-030405--yahoo/002_yahoo_desktop_bar.jpg"
                   (JsNumber.of_Z 80) 1920
       = EScreenshot i
           (posix_join "out/2024-01-02-030405--yahoo" (filename i "yahoo" "desktop" q))
           (JsNumber.of_Z 80) w.
Proof.
  apply (screenshots_in_run_directory posix_join (world (fun _ _ => page_fine))
           (args_of "yahoo" false)
           (EScreenshot 1 "out/2024-01-02-030405--yahoo/002_yahoo_desktop_bar.jpg"
                        (JsNumber.of_Z 80) 1920)); [|reflexivity].
  vm_compute. repeat (first [left; reflexivity | right]).
Defined.

(** X25. A run that completes has made as many batches as the queries need,
    the number of queries divided by the batch size and rounded up; every
    batch but the last is full, and the last holds what is left. *)
Theorem batch_count
        (path_join : string -> string -> string) (env : RunEnv) (a : Args) :
  let n := length (queries_of env a) in
  let size := batchSize (useChrome a) in
  let run := generateSearchScreenshots path_join env a [] in
  fst run = Normal tt ->
  length (batches (snd run)) = (n + size - 1) / size
  /\ forall m tasks,
      nth_error (batches (snd run)) m = Some tasks ->
      length tasks = Nat.min size (n - m * size).
Proof.
  cbv zeta. intros Hnormal.
  destruct (run_batches_of_trace path_join env a) as (k & Hb & Hlt & Hle).
  specialize (Hle Hnormal).
  assert (Hsize : 1 <= batchSize (useChrome a) <= 3)
    by (unfold batchSize; destruct (useChrome a); lia).
  rewrite Hb, length_map, length_seq. split.
  - destruct k as [|k].
    + assert (Hz : length (queries_of env a) = 0) by lia. rewrite Hz.
      symmetry. apply Nat.div_small. lia.
    + specialize (Hlt k (Nat.lt_succ_diag_r k)).
      apply (Nat.div_unique _ _ _
               (length (queries_of env a) + batchSize (useChrome a) - 1
                - batchSize (useChrome a) * S k)); nia.
  - intros m tasks Hnth. rewrite nth_error_map in Hnth.
    destruct (nth_error (seq 0 k) m) as [m'|] eqn:Hseq; [|discriminate].
    rewrite nth_error_seq in Hseq.
    destruct (Nat.ltb_spec m k); [|discriminate]. injection Hseq as <-.
    simpl in Hnth. injection Hnth as <-.
    now rewrite length_map, batchPromises_length.
Qed.

Lemma batch_count_witness :
  length (batches (snd (generateSearchScreenshots posix_join (world (fun _ _ => page_fine))
                                                  (args_of "yahoo" false) [])))
  = 2.
Proof.
  destruct (batch_count posix_join (world (fun _ _ => page_fine)) (args_of "yahoo" false))
    as [Hlen _]; [vm_compute; reflexivity|].
  rewrite Hlen. vm_compute. reflexivity.
Defined.

(** X26. When the run rejects with the error of a call of processQuery, the
    batch of that call is the last item of its trace: no later batch is
    started and nothing is closed. *)
Theorem rejected_batch_is_last
        (path_join : string -> string -> string) (env : RunEnv) (a : Args) (op : PageOp) :
  let run := generateSearchScreenshots path_join env a [] in
  fst run = Throw (PageError op) ->
  (exists items tasks,
      snd run = (items ++ [Concurrent tasks])%list
      /\ 1 <= length tasks <= batchSize (useChrome a))
  /\ existsb is_close (sequential (snd run)) = false.
Proof.
  cbv zeta. intros Hthrow.
  destruct (run_shape path_join env a) as (j & k & tail & Htr & Hlt & _ & Hcases).
  destruct Hcases as [(_ & _ & _ & op' & Hop & _)
                     |(_ & Hsetup & [(err & _ & -> & Hk & _)|(_ & _ & _ & Hfst)])].
  - rewrite Hop in Hthrow. discriminate.
  - rewrite app_nil_r in Htr. split.
    + replace k with (S (k - 1)) in Htr by lia.
      rewrite seq_S, map_app, app_assoc in Htr. cbn [List.map Nat.add] in Htr.
      eexists. eexists. split; [exact Htr|].
      pose proof (batch_ok path_join env a (k - 1)) as [Hlen _].
      split; [|exact Hlen].
      rewrite length_map, batchPromises_length.
      specialize (Hlt (k - 1) ltac:(lia)).
      unfold batchSize in *. destruct (useChrome a); lia.
    + destruct (existsb _ _) eqn:E; [|reflexivity].
      apply existsb_exists in E as (e & Hin & He).
      rewrite Htr, sequential_app, sequential_steps in Hin.
      apply in_app_or in Hin as [H|H].
      * apply in_firstn, setup_events_kinds in H as (_ & _ & _ & H). congruence.
      * apply batch_events in H as (p & _ & H).
        apply task_events_requests in H. destruct e; discriminate.
  - rewrite Hfst in Hthrow.
    destruct (teardown_cases env a) as [(_ & H)|[(_ & _ & H)|(_ & _ & _ & H)]];
      rewrite H in Hthrow; try discriminate.
    destruct (run_throws env BrowserCloseOp); discriminate.
Qed.

Lemma rejected_batch_is_last_witness :
  let run := generateSearchScreenshots posix_join (world first_query_cannot_open)
                                       (args_of "yahoo" false) [] in
  (exists items tasks,
      snd run = (items ++ [Concurrent tasks])%list /\ 1 <= length tasks <= 3)
  /\ existsb is_close (sequential (snd run)) = false.
Proof.
  apply (rejected_batch_is_last posix_join (world first_query_cannot_open)
           (args_of "yahoo" false) NewPageOp).
  vm_compute. reflexivity.
Defined.
